(** * MarabouNetwork: the symbolic constraint model, its compilation into an
      input query, point evaluation and the local-robustness search.

    Shallow embedding of [maraboupy/MarabouNetwork.py].  Python integers are
    [Z], Python floats are IEEE binary64 ([PrimFloat.float]), dictionaries are
    [gmap], Python sets are [gset], numpy arrays are a shape together with the
    row-major data.  Methods that mutate [self] or call the solver are written
    in a state-and-exception monad over a [World] holding the network object
    and the log of queries handed to the solver. *)

From stdpp Require Import gmap strings list fin_maps.
From Stdlib Require Import ZArith Lia Floats.

(** ** Exceptions and results *)

Inductive exn : Type :=
| AssertionError
| NotImplementedError
| RuntimeError
| IndexError
| KeyError
| TypeError
| ValueError
| UnboundLocalError.

Inductive res (A : Type) : Type :=
| Ok (a : A)
| Raise (e : exn).
Arguments Ok {A} a.
Arguments Raise {A} e.

Definition rbind {A B : Type} (m : res A) (k : A → res B) : res B :=
  match m with
  | Ok a => k a
  | Raise e => Raise e
  end.

Notation "'let?' x := m 'in' k" := (rbind m (λ x, k))
  (at level 10, x pattern, m at level 100, k at level 200).

Definition assert (b : bool) : res unit :=
  if b then Ok tt else Raise AssertionError.

Definition is_ok {A : Type} (r : res A) : bool :=
  match r with Ok _ => true | Raise _ => false end.

(** [for x in l: body(x)] where the body only checks (raises or not). *)
Fixpoint for_each {A : Type} (body : A → res unit) (l : list A) : res unit :=
  match l with
  | [] => Ok tt
  | x :: l' => let? _ := body x in for_each body l'
  end.

(** A list comprehension whose element expression may raise. *)
Fixpoint map_res {A B : Type} (f : A → res B) (l : list A) : res (list B) :=
  match l with
  | [] => Ok []
  | x :: l' => let? y := f x in let? ys := map_res f l' in Ok (y :: ys)
  end.

(** ** numpy arrays *)

Module Np.

Record ndarray (A : Type) : Type := NdArray {
  shape : list nat;
  data : list A
}.
Arguments NdArray {A} shape data.
Arguments shape {A} _.
Arguments data {A} _.

Definition prod_shape (sh : list nat) : nat := foldr Nat.mul 1%nat sh.

(** [a.flatten()]: the elements in row-major order. *)
Definition flatten {A : Type} (a : ndarray A) : list A := data a.

(** [a.size] *)
Definition size {A : Type} (a : ndarray A) : nat := prod_shape (shape a).

(** [len(a)]: the first dimension; a 0-d array or numpy scalar has none. *)
Definition len {A : Type} (a : ndarray A) : res nat :=
  match shape a with
  | [] => Raise TypeError
  | d :: _ => Ok d
  end.

(** [a[j]] for [0 <= j]: the [j]-th sub-array along the first axis.  The
    element of a 1-d array is a numpy scalar, kept as a 0-d array. *)
Definition getitem {A : Type} (a : ndarray A) (j : nat) : res (ndarray A) :=
  match shape a with
  | [] => Raise IndexError
  | d :: sh =>
      if decide (j < d)%nat
      then Ok (NdArray sh (take (prod_shape sh) (drop (j * prod_shape sh) (data a))))
      else Raise IndexError
  end.

(** [a.item(i)] *)
Definition item {A : Type} (a : ndarray A) (i : nat) : res A :=
  match data a !! i with
  | Some x => Ok x
  | None => Raise IndexError
  end.

(** Using an array where Python needs a plain number (a hashable set
    element, an integer to add to): only a 0-d value qualifies. *)
Definition as_scalar {A : Type} (a : ndarray A) : res A :=
  match shape a, data a with
  | [], [x] => Ok x
  | _, _ => Raise TypeError
  end.

(** [a.reshape(sh)] on data that already has the right number of elements. *)
Definition reshape {A : Type} (sh : list nat) (l : list A) : ndarray A :=
  NdArray sh l.

End Np.

Abbreviation ndarray := Np.ndarray.
Abbreviation NdArray := Np.NdArray.

(** ** Equations ([MarabouUtils.Equation]) *)

Inductive EqType : Type := EQ | GE | LE.

Record Equation : Type := mkEquation {
  EquationType : EqType;
  addendList : list (float * Z);
  scalar : float
}.

(** ** The symbolic model *)

(** What [type(self.inputVars)] and [type(self.outputVars)] can be: a list
    of arrays (as [clear] leaves them), one numpy array (the record then
    lists its sub-arrays along the first axis, which is what indexing and
    iterating it give), or another sequence type such as a tuple. *)
Inductive VarsType : Type := PyList | PyNdarray | PyOther.

Record MarabouNetwork : Type := mkNetwork {
  numVars : Z;
  equList : list Equation;
  additionalEquList : list Equation;
  reluList : list (Z * Z);
  leakyReluList : list (Z * Z * float);
  sigmoidList : list (Z * Z);
  maxList : list (gset Z * Z);
  softmaxList : list (list Z * list Z);
  bilinearList : list (Z * Z * Z);
  absList : list (Z * Z);
  signList : list (Z * Z);
  disjunctionList : list (list (list Equation));
  lowerBounds : gmap Z float;
  upperBounds : gmap Z float;
  inputVars : list (ndarray Z);
  outputVars : list (ndarray Z);
  inputVarsType : VarsType;
  outputVarsType : VarsType
}.

(** [clear()]: the empty network. *)
Definition empty_network : MarabouNetwork :=
  mkNetwork 0 [] [] [] [] [] [] [] [] [] [] [] ∅ ∅ [] [] PyList PyList.

Section Setters.
Variable self : MarabouNetwork.

Definition set_numVars (n : Z) : MarabouNetwork :=
  mkNetwork n (equList self) (additionalEquList self) (reluList self)
    (leakyReluList self) (sigmoidList self) (maxList self) (softmaxList self)
    (bilinearList self) (absList self) (signList self) (disjunctionList self)
    (lowerBounds self) (upperBounds self) (inputVars self) (outputVars self)
    (inputVarsType self) (outputVarsType self).

Definition set_equList (l : list Equation) : MarabouNetwork :=
  mkNetwork (numVars self) l (additionalEquList self) (reluList self)
    (leakyReluList self) (sigmoidList self) (maxList self) (softmaxList self)
    (bilinearList self) (absList self) (signList self) (disjunctionList self)
    (lowerBounds self) (upperBounds self) (inputVars self) (outputVars self)
    (inputVarsType self) (outputVarsType self).

Definition set_additionalEquList (l : list Equation) : MarabouNetwork :=
  mkNetwork (numVars self) (equList self) l (reluList self)
    (leakyReluList self) (sigmoidList self) (maxList self) (softmaxList self)
    (bilinearList self) (absList self) (signList self) (disjunctionList self)
    (lowerBounds self) (upperBounds self) (inputVars self) (outputVars self)
    (inputVarsType self) (outputVarsType self).

Definition set_reluList (l : list (Z * Z)) : MarabouNetwork :=
  mkNetwork (numVars self) (equList self) (additionalEquList self) l
    (leakyReluList self) (sigmoidList self) (maxList self) (softmaxList self)
    (bilinearList self) (absList self) (signList self) (disjunctionList self)
    (lowerBounds self) (upperBounds self) (inputVars self) (outputVars self)
    (inputVarsType self) (outputVarsType self).


Definition set_sigmoidList (l : list (Z * Z)) : MarabouNetwork :=
  mkNetwork (numVars self) (equList self) (additionalEquList self) (reluList self)
    (leakyReluList self) l (maxList self) (softmaxList self)
    (bilinearList self) (absList self) (signList self) (disjunctionList self)
    (lowerBounds self) (upperBounds self) (inputVars self) (outputVars self)
    (inputVarsType self) (outputVarsType self).

Definition set_maxList (l : list (gset Z * Z)) : MarabouNetwork :=
  mkNetwork (numVars self) (equList self) (additionalEquList self) (reluList self)
    (leakyReluList self) (sigmoidList self) l (softmaxList self)
    (bilinearList self) (absList self) (signList self) (disjunctionList self)
    (lowerBounds self) (upperBounds self) (inputVars self) (outputVars self)
    (inputVarsType self) (outputVarsType self).



Definition set_absList (l : list (Z * Z)) : MarabouNetwork :=
  mkNetwork (numVars self) (equList self) (additionalEquList self) (reluList self)
    (leakyReluList self) (sigmoidList self) (maxList self) (softmaxList self)
    (bilinearList self) l (signList self) (disjunctionList self)
    (lowerBounds self) (upperBounds self) (inputVars self) (outputVars self)
    (inputVarsType self) (outputVarsType self).

Definition set_signList (l : list (Z * Z)) : MarabouNetwork :=
  mkNetwork (numVars self) (equList self) (additionalEquList self) (reluList self)
    (leakyReluList self) (sigmoidList self) (maxList self) (softmaxList self)
    (bilinearList self) (absList self) l (disjunctionList self)
    (lowerBounds self) (upperBounds self) (inputVars self) (outputVars self)
    (inputVarsType self) (outputVarsType self).


Definition set_lowerBounds (m : gmap Z float) : MarabouNetwork :=
  mkNetwork (numVars self) (equList self) (additionalEquList self) (reluList self)
    (leakyReluList self) (sigmoidList self) (maxList self) (softmaxList self)
    (bilinearList self) (absList self) (signList self) (disjunctionList self)
    m (upperBounds self) (inputVars self) (outputVars self)
    (inputVarsType self) (outputVarsType self).

Definition set_upperBounds (m : gmap Z float) : MarabouNetwork :=
  mkNetwork (numVars self) (equList self) (additionalEquList self) (reluList self)
    (leakyReluList self) (sigmoidList self) (maxList self) (softmaxList self)
    (bilinearList self) (absList self) (signList self) (disjunctionList self)
    (lowerBounds self) m (inputVars self) (outputVars self)
    (inputVarsType self) (outputVarsType self).
End Setters.

(** ** The input query handed to the solver ([MarabouCore.InputQuery]) *)

Record CoreEquation : Type := mkCoreEquation {
  core_type : EqType;
  core_addends : list (float * Z);
  core_scalar : float
}.

Inductive Constraint : Type :=
| ReluConstraint (b f : Z)
| LeakyReluConstraint (b f : Z) (slope : float)
| BilinearConstraint (b1 b2 f : Z)
| SigmoidConstraint (b f : Z)
| MaxConstraint (elements : gset Z) (v : Z)
| SoftmaxConstraint (inputs outputs : list Z)
| AbsConstraint (b f : Z)
| SignConstraint (b f : Z)
| DisjunctionConstraint (disjuncts : list (list CoreEquation)).

(** The query records what the builder called on it: the variable count, the
    [markInputVariable]/[markOutputVariable] calls in order, the equations and
    constraints in the order they were added, and the bounds last set. *)
Record InputQuery : Type := mkInputQuery {
  numberOfVariables : Z;
  inputMarks : list (Z * nat);
  outputMarks : list (Z * nat);
  equations : list CoreEquation;
  constraints : list Constraint;
  queryLowerBounds : gmap Z float;
  queryUpperBounds : gmap Z float
}.

(** [ipq.setLowerBound(k, v)] and [ipq.setUpperBound(k, v)]. *)
Definition ipq_setLowerBound (k : Z) (v : float) (ipq : InputQuery) : InputQuery :=
  mkInputQuery (numberOfVariables ipq) (inputMarks ipq) (outputMarks ipq)
    (equations ipq) (constraints ipq)
    (<[k := v]> (queryLowerBounds ipq)) (queryUpperBounds ipq).

Definition ipq_setUpperBound (k : Z) (v : float) (ipq : InputQuery) : InputQuery :=
  mkInputQuery (numberOfVariables ipq) (inputMarks ipq) (outputMarks ipq)
    (equations ipq) (constraints ipq)
    (queryLowerBounds ipq) (<[k := v]> (queryUpperBounds ipq)).

(** ** Compilation: the body of [getMarabouQuery] *)

Module Compile.

Definition var_ok (n v : Z) : bool := bool_decide (v < n)%Z.

(** Modelled from the spec: [MarabouCore] is not under src/.  The spec has
    a variable as "an opaque non-negative integer identifier": the functions
    of [MarabouCore] take the variable count, variables and input and output
    slots as C [unsigned] arguments, and the binding refuses a Python integer
    outside that type's range with TypeError before the function does
    anything. *)
Definition unsigned_ok (v : Z) : bool := bool_decide (0 ≤ v < 2 ^ 32)%Z.

(** The check of the [unsigned] arguments of one call. *)
Definition core_args (vs : list Z) : res unit :=
  if forallb unsigned_ok vs then Ok tt else Raise TypeError.

(** One marking loop: a running index over the flattened arrays, each step
    a call [ipq.markInputVariable(v, i)] or [ipq.markOutputVariable(v, i)]. *)
Definition marks (arrs : list (ndarray Z)) : res (list (Z * nat)) :=
  let ms := imap (λ i v, (v, i)) (concat (Np.flatten <$> arrs)) in
  let? _ := for_each (λ m : Z * nat, core_args [m.1; Z.of_nat m.2]) ms in
  Ok ms.

(** One equation: every addend is checked, then handed to
    [eq.addAddend(c, v)]. *)
Definition equation (n : Z) (e : Equation) : res CoreEquation :=
  let? addends :=
    map_res (λ cv : float * Z,
               let? _ := assert (var_ok n cv.2) in
               let? _ := core_args [cv.2] in Ok cv) (addendList e) in
  Ok (mkCoreEquation (EquationType e) addends (scalar e)).

Definition relu (n : Z) (r : Z * Z) : res Constraint :=
  let? _ := assert (var_ok n r.2 && var_ok n r.1) in
  let? _ := core_args [r.1; r.2] in
  Ok (ReluConstraint r.1 r.2).

Definition leakyRelu (n : Z) (r : Z * Z * float) : res Constraint :=
  let? _ := assert (var_ok n r.1.2 && var_ok n r.1.1) in
  let? _ := assert (PrimFloat.ltb 0 r.2 && PrimFloat.ltb r.2 1) in
  let? _ := core_args [r.1.1; r.1.2] in
  Ok (LeakyReluConstraint r.1.1 r.1.2 r.2).

Definition bilinear (n : Z) (r : Z * Z * Z) : res Constraint :=
  let? _ := assert (var_ok n r.2 && var_ok n r.1.2 && var_ok n r.1.1) in
  let? _ := core_args [r.1.1; r.1.2; r.2] in
  Ok (BilinearConstraint r.1.1 r.1.2 r.2).

Definition sigmoid (n : Z) (r : Z * Z) : res Constraint :=
  let? _ := assert (var_ok n r.2 && var_ok n r.1) in
  let? _ := core_args [r.1; r.2] in
  Ok (SigmoidConstraint r.1 r.2).

Definition max (n : Z) (m : gset Z * Z) : res Constraint :=
  let? _ := assert (var_ok n m.2) in
  let? _ := for_each (λ e, assert (var_ok n e)) (elements m.1) in
  let? _ := core_args (elements m.1 ++ [m.2]) in
  Ok (MaxConstraint m.1 m.2).

Definition softmax (n : Z) (m : list Z * list Z) : res Constraint :=
  let? _ := for_each (λ e, assert (var_ok n e)) m.2 in
  let? _ := for_each (λ e, assert (var_ok n e)) m.1 in
  let? _ := core_args (m.1 ++ m.2) in
  Ok (SoftmaxConstraint m.1 m.2).

(** Abs and Sign records are handed to [MarabouCore] without an assertion. *)
Definition abs (r : Z * Z) : res Constraint :=
  let? _ := core_args [r.1; r.2] in Ok (AbsConstraint r.1 r.2).
Definition sign (r : Z * Z) : res Constraint :=
  let? _ := core_args [r.1; r.2] in Ok (SignConstraint r.1 r.2).

Definition disjunction (n : Z) (d : list (list Equation)) : res Constraint :=
  let? converted := map_res (map_res (equation n)) d in
  Ok (DisjunctionConstraint converted).

(** [for l in bounds: assert l < numVars; ipq.setBound(l, bounds[l])].  The
    keys are visited in the order of the list given; Python visits a
    dictionary in insertion order, which the map of the model does not
    record.  The order shows only in which of two different errors comes
    first. *)
Fixpoint bounds (n : Z) (kvs : list (Z * float)) (acc : gmap Z float)
  : res (gmap Z float) :=
  match kvs with
  | [] => Ok acc
  | kv :: kvs' =>
      let? _ := assert (var_ok n kv.1) in
      let? _ := core_args [kv.1] in
      bounds n kvs' (<[kv.1 := kv.2]> acc)
  end.

Definition query (self : MarabouNetwork) : res InputQuery :=
  let n := numVars self in
  let? _ := core_args [n] in
  let? inMarks := marks (inputVars self) in
  let? outMarks := marks (outputVars self) in
  let? eqs := map_res (equation n) (equList self) in
  let? addEqs := map_res (equation n) (additionalEquList self) in
  let? relus := map_res (relu n) (reluList self) in
  let? leakys := map_res (leakyRelu n) (leakyReluList self) in
  let? bilinears := map_res (bilinear n) (bilinearList self) in
  let? sigmoids := map_res (sigmoid n) (sigmoidList self) in
  let? maxes := map_res (max n) (maxList self) in
  let? softmaxes := map_res (softmax n) (softmaxList self) in
  let? abss := map_res abs (absList self) in
  let? signs := map_res sign (signList self) in
  let? disjs := map_res (disjunction n) (disjunctionList self) in
  let? lbs := bounds n (map_to_list (lowerBounds self)) ∅ in
  let? ubs := bounds n (map_to_list (upperBounds self)) ∅ in
  Ok (mkInputQuery n inMarks outMarks (eqs ++ addEqs)
        (relus ++ leakys ++ bilinears ++ sigmoids ++ maxes ++ softmaxes
               ++ abss ++ signs ++ disjs)
        lbs ubs).

End Compile.

(** [for k in inputDict: ipq.setLowerBound(k, inputDict[k]);
    ipq.setUpperBound(k, inputDict[k])], each call with its [unsigned]
    argument. *)
Fixpoint pin_bounds (kvs : list (Z * float)) (ipq : InputQuery)
  : res InputQuery :=
  match kvs with
  | [] => Ok ipq
  | kv :: kvs' =>
      let? _ := Compile.core_args [kv.1] in
      let ipq := ipq_setLowerBound kv.1 kv.2 ipq in
      let? _ := Compile.core_args [kv.1] in
      pin_bounds kvs' (ipq_setUpperBound kv.1 kv.2 ipq)
  end.

(** ** The world: the network object and the queries given to the solver *)

Record World : Type := mkWorld {
  net : MarabouNetwork;
  solverLog : list InputQuery
}.

Definition M (A : Type) : Type := World → res A * World.

Definition pure {A : Type} (a : A) : M A := λ w, (Ok a, w).

Definition raise {A : Type} (e : exn) : M A := λ w, (Raise e, w).

Definition bindM {A B : Type} (m : M A) (k : A → M B) : M B :=
  λ w, match m w with
       | (Ok a, w') => k a w'
       | (Raise e, w') => (Raise e, w')
       end.

Notation "x <- c1 ;; c2" := (bindM c1 (λ x, c2))
  (at level 100, c1 at next level, right associativity).
Notation "c1 ;; c2" := (bindM c1 (λ _, c2))
  (at level 100, right associativity).

Definition lift {A : Type} (r : res A) : M A := λ w, (r, w).

Definition get_self : M MarabouNetwork := λ w, (Ok (net w), w).

Definition modify_self (f : MarabouNetwork → MarabouNetwork) : M unit :=
  λ w, (Ok tt, mkWorld (f (net w)) (solverLog w)).

Definition log_query (ipq : InputQuery) : M unit :=
  λ w, (Ok tt, mkWorld (net w) (solverLog w ++ [ipq])).

(** [for x in l: body(x)] with a body that acts on the world. *)
Fixpoint for_eachM {A : Type} (body : A → M unit) (l : list A) : M unit :=
  match l with
  | [] => pure tt
  | x :: l' => body x ;; for_eachM body l'
  end.

(** ** Building the model *)

Definition clear : M unit := modify_self (λ _, empty_network).

Definition clearProperty : M unit :=
  modify_self (λ self, set_lowerBounds self ∅) ;;
  modify_self (λ self, set_upperBounds self ∅) ;;
  modify_self (λ self, set_additionalEquList self []).

Definition getNewVariable : M Z :=
  modify_self (λ self, set_numVars self (numVars self + 1)) ;;
  self <- get_self ;;
  pure (numVars self - 1)%Z.

Definition addEquation (x : Equation) (isProperty : bool) : M unit :=
  if isProperty
  then modify_self (λ self, set_additionalEquList self (additionalEquList self ++ [x]))
  else modify_self (λ self, set_equList self (equList self ++ [x])).

Definition setLowerBound (x : Z) (v : float) : M unit :=
  modify_self (λ self, set_lowerBounds self (<[x := v]> (lowerBounds self))).

Definition setUpperBound (x : Z) (v : float) : M unit :=
  modify_self (λ self, set_upperBounds self (<[x := v]> (upperBounds self))).

Definition addRelu (v1 v2 : Z) : M unit :=
  modify_self (λ self, set_reluList self (reluList self ++ [(v1, v2)])).



Definition addSigmoid (v1 v2 : Z) : M unit :=
  modify_self (λ self, set_sigmoidList self (sigmoidList self ++ [(v1, v2)])).

Definition addMaxConstraint (elements : gset Z) (v : Z) : M unit :=
  modify_self (λ self, set_maxList self (maxList self ++ [(elements, v)])).


Definition addAbsConstraint (b f : Z) : M unit :=
  modify_self (λ self, set_absList self (absList self ++ [(b, f)])).

Definition addSignConstraint (b f : Z) : M unit :=
  modify_self (λ self, set_signList self (signList self ++ [(b, f)])).


Definition lowerBoundExists (x : Z) : M bool :=
  self <- get_self ;; pure (bool_decide (is_Some (lowerBounds self !! x))).

Definition upperBoundExists (x : Z) : M bool :=
  self <- get_self ;; pure (bool_decide (is_Some (upperBounds self !! x))).

(** [getMarabouQuery]: reads [self], builds a fresh query or raises. *)
Definition getMarabouQuery : M InputQuery :=
  self <- get_self ;; lift (Compile.query self).

(** ** External collaborators

    The solving engine ([MarabouCore]), the equation comparison of
    [MarabouUtils], the reference evaluator supplied by the concrete network
    class, and numpy's broadcasting are not part of this file; they are taken
    as an interface. *)

Class Collaborators : Type := {
  Options : Type;
  (** [MarabouCore.Options()] *)
  Options_default : Options;
  Statistics : Type;
  hasTimedOut : Statistics → bool;
  (** [MarabouCore.solve(ipq, options, filename)]: exit code, assignment, statistics *)
  MarabouCore_solve : InputQuery → Options → string → string * gmap Z float * Statistics;
  (** [MarabouCore.loadProperty(ipq, propertyFilename)] *)
  MarabouCore_loadProperty : InputQuery → string → InputQuery;
  (** [equation1.isEqualTo(equation2)] *)
  Equation_isEqualTo : Equation → Equation → bool;
  (** Python's [==] on two equation objects *)
  Equation_eq : Equation → Equation → bool;
  (** [self.evaluateWithoutMarabou(inputValues)] *)
  evaluateWithoutMarabou : list (ndarray float) → res (list (ndarray float));
  (** [a - b] for arrays of different shapes *)
  np_subtract_broadcast : ndarray float → ndarray float → res (ndarray float)
}.

(** ** Small Python and numpy helpers *)

(** [l[i]] for [0 <= i] *)
Definition index {A : Type} (l : list A) (i : nat) : res A :=
  match l !! i with
  | Some x => Ok x
  | None => Raise IndexError
  end.

(** [d[k]] *)
Definition dict_get (d : gmap Z float) (k : Z) : res float :=
  match d !! k with
  | Some x => Ok x
  | None => Raise KeyError
  end.

(** [len(d) > 0] *)
Definition nonempty (d : gmap Z float) : bool := negb (Nat.eqb (size d) 0).

(** [d1 == d2] on dictionaries with float values (IEEE comparison of values). *)
Definition dict_eq (d1 d2 : gmap Z float) : bool :=
  bool_decide (dom d1 = dom d2)
  && forallb (λ kv : Z * float,
                match d2 !! kv.1 with
                | Some v => PrimFloat.eqb kv.2 v
                | None => false
                end) (map_to_list d1).

(** [l1 == l2] on lists, given the comparison of elements. *)
Fixpoint list_eq {A : Type} (eqb : A → A → bool) (l1 l2 : list A) : bool :=
  match l1, l2 with
  | [], [] => true
  | x :: l1', y :: l2' => eqb x y && list_eq eqb l1' l2'
  | _, _ => false
  end.

(** [np.concatenate(arrays)] of 1-d arrays: needs at least one array. *)
Definition np_concatenate {A : Type} (arrs : list (list A)) : res (list A) :=
  match arrs with
  | [] => Raise ValueError
  | _ => Ok (concat arrs)
  end.

(** [(a != b).any()] on two flattened integer arrays: elementwise when the
    lengths agree, broadcast when one side has a single element, an error
    otherwise. *)
Definition np_ne_any (a b : list Z) : res bool :=
  if bool_decide (length a = length b)
  then Ok (existsb (λ p : Z * Z, bool_decide (p.1 ≠ p.2)) (zip a b))
  else match a, b with
       | [x], _ => Ok (existsb (λ y, bool_decide (x ≠ y)) b)
       | _, [y] => Ok (existsb (λ x, bool_decide (x ≠ y)) a)
       | _, _ => Raise ValueError
       end.

(** [np.abs(a)] *)
Definition np_abs (a : ndarray float) : ndarray float :=
  NdArray (Np.shape a) (PrimFloat.abs <$> Np.data a).

(** [set(a)] for an array: the elements of a 1-d array; a 0-d array is not
    iterable and the rows of a higher-dimensional one are not hashable. *)
Definition np_to_set (a : ndarray Z) : res (gset Z) :=
  match Np.shape a with
  | [] => Raise TypeError
  | [_] => Ok (list_to_set (Np.data a))
  | d :: _ => if Nat.eqb d 0 then Ok ∅ else Raise TypeError
  end.

(** The values printed in verbose mode are looked up in the assignment. *)
Definition print_vals (vals : gmap Z float) (arrs : list (ndarray Z)) : res unit :=
  for_each (λ arr,
    for_each (λ i, let? v := Np.item arr i in
                   let? _ := dict_get vals v in Ok tt)
             (seq 0 (Np.size arr))) arrs.

(** The same for [self.inputVars[0][j].item(i)], [j] over the first axis. *)
Definition print_rows (vals : gmap Z float) (g : ndarray Z) : res unit :=
  let? n := Np.len g in
  for_each (λ j,
    let? sub := Np.getitem g j in
    for_each (λ i, let? v := Np.item sub i in
                   let? _ := dict_get vals v in Ok tt)
             (seq 0 (Np.size sub))) (seq 0 n).

Section Methods.
Context {ext : Collaborators}.

(** [a - b] on arrays *)
Definition np_subtract (a b : ndarray float) : res (ndarray float) :=
  if bool_decide (Np.shape a = Np.shape b)
  then Ok (NdArray (Np.shape a) (zip_with PrimFloat.sub (Np.data a) (Np.data b)))
  else np_subtract_broadcast a b.

(** [solve]: compiles, hands the query to the solver and, with [verbose] on
    and the exit code "sat", prints the values of the input and output
    variables.  What is printed is not kept; reading a value can raise. *)
Definition solve (filename : string) (verbose : bool) (options : option Options)
    (propertyFilename : string) : M (string * gmap Z float * Statistics) :=
  ipq <- getMarabouQuery ;;
  let ipq := if bool_decide (propertyFilename ≠ "")
             then MarabouCore_loadProperty ipq propertyFilename else ipq in
  let options := default Options_default options in
  log_query ipq ;;
  let r := MarabouCore_solve ipq options filename in
  (if verbose
   then if bool_decide (r.1.1 = "sat")
        then self <- get_self ;;
             lift (print_vals r.1.2 (inputVars self)) ;;
             lift (print_vals r.1.2 (outputVars self))
        else pure tt
   else pure tt) ;;
  pure r.

(** The loop of the untargeted search over [range(outputLayerSize)].
    [last] holds [vals] and [stats] once a query has been solved. *)
Fixpoint untargeted_loop (outputStartIndex : ndarray Z) (originalClass : Z)
    (options : Options) (idxs : list nat)
    (last : option (gmap Z float * Statistics))
  : M (option (gmap Z float * Statistics) * option Z) :=
  match idxs with
  | [] => pure (last, None)
  | outputLayerIndex :: rest =>
      if bool_decide (Z.of_nat outputLayerIndex ≠ originalClass)
      then
        start <- lift (Np.as_scalar outputStartIndex) ;;
        addMaxConstraint
          {[ (start + Z.of_nat outputLayerIndex)%Z; (start + originalClass)%Z ]}
          (start + Z.of_nat outputLayerIndex)%Z ;;
        r <- solve "" true (Some options) "" ;;
        if hasTimedOut r.2
        then pure (Some (r.1.2, r.2), None)
        else if nonempty r.1.2
             then pure (Some (r.1.2, r.2), Some (Z.of_nat outputLayerIndex))
             else untargeted_loop outputStartIndex originalClass options rest
                    (Some (r.1.2, r.2))
      else untargeted_loop outputStartIndex originalClass options rest last
  end.

(** The branch of the search for a given [targetClass]. *)
Definition targeted (row outputStartIndex : ndarray Z) (verbose : bool)
    (options : Options) (targetClass : Z)
  : M (option (gmap Z float * Statistics) * option Z) :=
  elements <- lift (np_to_set row) ;;
  start <- lift (Np.as_scalar outputStartIndex) ;;
  addMaxConstraint elements (start + targetClass)%Z ;;
  r <- solve "" true (Some options) "" ;;
  pure (Some (r.1.2, r.2),
        if verbose
        then if negb (hasTimedOut r.2) && nonempty r.1.2
             then Some targetClass else None
        else None).

(** The array whose shape the input has to have: [self.inputVars[0][0]]
    of exactly one group when the attribute is a list, [self.inputVars[0]]
    when it is an array, whose number of sub-arrays is not looked at. *)
Definition compared_input_vars : M (ndarray Z) :=
  self <- get_self ;;
  match inputVarsType self with
  | PyList =>
      if bool_decide (length (inputVars self) ≠ 1%nat)
      then raise NotImplementedError
      else g <- lift (index (inputVars self) 0) ;; lift (Np.getitem g 0)
  | PyNdarray => lift (index (inputVars self) 0)
  | PyOther => raise RuntimeError
  end.

(** The check on [self.outputVars]: one group, in a list or in an array. *)
Definition check_output_groups : M unit :=
  self <- get_self ;;
  match outputVarsType self with
  | PyList | PyNdarray =>
      if bool_decide (length (outputVars self) ≠ 1%nat)
      then raise NotImplementedError else pure tt
  | PyOther => raise RuntimeError
  end.

(** The first part of [evaluateLocalRobustness]: the checks on the input and
    output groups, the bounds written around the given input, and the
    reading of [self.outputVars[0][0]] and [outputStartIndex]. *)
Definition pin_input (input : ndarray float) (epsilon : float)
  : M (ndarray Z * ndarray Z) :=
  inputVars0 <- compared_input_vars ;;
  (if bool_decide (Np.shape inputVars0 ≠ Np.shape input)
   then raise RuntimeError else pure tt) ;;
  check_output_groups ;;
  let flattenInputVars := Np.flatten inputVars0 in
  let flattenInput := Np.flatten input in
  for_eachM (λ i,
      x <- lift (index flattenInputVars i) ;;
      v <- lift (index flattenInput i) ;;
      setLowerBound x (PrimFloat.sub v epsilon) ;;
      x <- lift (index flattenInputVars i) ;;
      v <- lift (index flattenInput i) ;;
      setUpperBound x (PrimFloat.add v epsilon))
    (seq 0 (length flattenInput)) ;;
  self <- get_self ;;
  out0 <- lift (index (outputVars self) 0) ;;
  row <- lift (Np.getitem out0 0) ;;
  outputStartIndex <- lift (Np.getitem row 0) ;;
  pure (row, outputStartIndex).

(** The last part: with [verbose] on, "TO" or the satisfying values are
    printed, which reads [stats] and [vals] of the last query. *)
Definition report (verbose : bool) (found : option (gmap Z float * Statistics))
  : M unit :=
  if verbose
  then match found with
       | None => raise UnboundLocalError
       | Some (vals, stats) =>
           if hasTimedOut stats then pure tt
           else if nonempty vals
                then self <- get_self ;;
                     in0 <- lift (index (inputVars self) 0) ;;
                     lift (print_rows vals in0) ;;
                     out0 <- lift (index (outputVars self) 0) ;;
                     lift (print_rows vals out0)
                else pure tt
       end
  else pure tt.

Definition evaluateLocalRobustness (input : ndarray float) (epsilon : float)
    (originalClass : Z) (verbose : bool) (options : option Options)
    (targetClass : option Z) : M (gmap Z float * Statistics * option Z) :=
  let options := default Options_default options in
  located <- pin_input input epsilon ;;
  found <- match targetClass with
           | None =>
               outputLayerSize <- lift (Np.len located.1) ;;
               untargeted_loop located.2 originalClass options
                 (seq 0 outputLayerSize) None
           | Some t => targeted located.1 located.2 verbose options t
           end ;;
  report verbose found.1 ;;
  match found.1 with
  | None => raise UnboundLocalError
  | Some (vals, stats) => pure (vals, stats, found.2)
  end.

(** [evaluateWithMarabou]: None stands for Python's None. *)
Definition evaluateWithMarabou (inputValues : list (ndarray float))
    (filename : string) (options : option Options)
  : M (option (list (ndarray float))) :=
  self <- get_self ;;
  let inputVars := inputVars self in
  let outputVars := outputVars self in
  inputVarList <- lift (np_concatenate (Np.flatten <$> inputVars)) ;;
  inputValList <- lift (np_concatenate (Np.flatten <$> inputValues)) ;;
  let assignList := zip inputVarList inputValList in
  let inputDict : gmap Z float :=
    foldl (λ d x, <[x.1 := x.2]> d) ∅ assignList in
  ipq <- getMarabouQuery ;;
  ipq <- lift (pin_bounds (map_to_list inputDict) ipq) ;;
  let options := default Options_default options in
  log_query ipq ;;
  let outputDict := (MarabouCore_solve ipq options filename).1.2 in
  if Nat.eqb (size outputDict) 0
  then pure None
  else
    outputValues <- lift (map_res (λ outVars,
        let? values := map_res (dict_get outputDict) (Np.flatten outVars) in
        Ok (Np.reshape (Np.shape outVars) values)) outputVars) ;;
    pure (Some outputValues).

Definition evaluate (inputValues : list (ndarray float)) (useMarabou : bool)
    (options : option Options) (filename : string)
  : M (option (list (ndarray float))) :=
  if useMarabou
  then evaluateWithMarabou inputValues filename options
  else out <- lift (evaluateWithoutMarabou inputValues) ;; pure (Some out).

(** [len(x)] where [x] may be [None]. *)
Definition py_len {A : Type} (x : option (list A)) : res nat :=
  match x with
  | Some l => Ok (length l)
  | None => Raise TypeError
  end.

(** [x[i]] where [x] may be [None]. *)
Definition py_index {A : Type} (x : option (list A)) (i : nat) : res A :=
  match x with
  | Some l => index l i
  | None => Raise TypeError
  end.

Definition findError (inputValues : list (ndarray float))
    (options : option Options) (filename : string)
  : M (list (ndarray float)) :=
  outMar <- evaluate inputValues true options filename ;;
  outNotMar <- evaluate inputValues false options filename ;;
  n1 <- lift (py_len outMar) ;;
  n2 <- lift (py_len outNotMar) ;;
  lift (assert (Nat.eqb n1 n2)) ;;
  lift (map_res (λ i,
          let? a := py_index outMar i in
          let? b := py_index outNotMar i in
          let? d := np_subtract a b in
          Ok (np_abs d)) (seq 0 n1)).

(** [for x1, x2 in zip(l1, l2): if test(x1, x2): equivalence = False] *)
Fixpoint zip_loop {A : Type} (test : A → A → res bool) (l1 l2 : list A)
    (equivalence : bool) : res bool :=
  match l1, l2 with
  | x1 :: l1', x2 :: l2' =>
      let? differ := test x1 x2 in
      zip_loop test l1' l2' (if differ then false else equivalence)
  | _, _ => Ok equivalence
  end.

(** [isEqualTo]: reads both networks. *)
Definition isEqualTo (self network : MarabouNetwork) : res bool :=
  let equivalence :=
    negb (bool_decide (numVars self ≠ numVars network)
          || bool_decide (reluList self ≠ reluList network)
          || bool_decide (sigmoidList self ≠ sigmoidList network)
          || bool_decide (maxList self ≠ maxList network)
          || bool_decide (absList self ≠ absList network)
          || bool_decide (signList self ≠ signList network)
          || negb (list_eq (list_eq (list_eq Equation_eq))
                     (disjunctionList self) (disjunctionList network))
          || negb (dict_eq (lowerBounds self) (lowerBounds network))
          || negb (dict_eq (upperBounds self) (upperBounds network))) in
  let? equivalence :=
    zip_loop (λ equation1 equation2,
                Ok (negb (Equation_isEqualTo equation1 equation2)))
      (equList self) (equList network) equivalence in
  let? equivalence :=
    zip_loop (λ inputvars1 inputvars2,
                np_ne_any (Np.flatten inputvars1) (Np.flatten inputvars2))
      (inputVars self) (inputVars network) equivalence in
  let? equivalence :=
    zip_loop (λ outputVars1 outputVars2,
                np_ne_any (Np.flatten outputVars1) (Np.flatten outputVars1))
      (outputVars self) (outputVars network) equivalence in
  Ok equivalence.

End Methods.

(** ** Vocabulary of the statements *)

(** The first row of the single output group, [self.outputVars[0][0]]. *)
Definition output_row (self : MarabouNetwork) : res (ndarray Z) :=
  let? out0 := index (outputVars self) 0 in Np.getitem out0 0.

(** The Max record the untargeted search adds for candidate class [c]. *)
Definition candidate_max (start originalClass : Z) (c : nat) : gset Z * Z :=
  ({[ (start + Z.of_nat c)%Z; (start + originalClass)%Z ]}, (start + Z.of_nat c)%Z).

(** The candidate classes of the untargeted search, in the order of the loop. *)
Definition candidates (originalClass : Z) (idxs : list nat) : list nat :=
  filter (λ i, Z.of_nat i ≠ originalClass) idxs.

(** The model with further Max records appended. *)
Definition with_max (self : MarabouNetwork) (ms : list (gset Z * Z)) : MarabouNetwork :=
  set_maxList self (maxList self ++ ms).

(** The model with its two bound maps replaced. *)
Definition with_bounds (self : MarabouNetwork) (lb ub : gmap Z float) : MarabouNetwork :=
  set_upperBounds (set_lowerBounds self lb) ub.

(** The variables of an equation's addends. *)
Definition equation_vars (e : Equation) : list Z := (addendList e).*2.

(** The variables compilation compares with [numVars]: those of every
    equation (core, property and inside disjunctions), of the relu,
    leaky-relu, bilinear, sigmoid, max and softmax records, and the keys of
    both bound maps. *)
Definition checked_vars (self : MarabouNetwork) : list Z :=
  ((equList self ++ additionalEquList self) ≫= equation_vars)
  ++ (reluList self ≫= λ r, [r.2; r.1])
  ++ (leakyReluList self ≫= λ r, [r.1.2; r.1.1])
  ++ (bilinearList self ≫= λ r, [r.2; r.1.2; r.1.1])
  ++ (sigmoidList self ≫= λ r, [r.2; r.1])
  ++ (maxList self ≫= λ m, m.2 :: elements m.1)
  ++ (softmaxList self ≫= λ m, m.2 ++ m.1)
  ++ (disjunctionList self ≫= λ d, d ≫= λ disjunct, disjunct ≫= equation_vars)
  ++ (map_to_list (lowerBounds self)).*1
  ++ (map_to_list (upperBounds self)).*1.

(** A leaky-relu slope strictly between 0 and 1. *)
Definition slope_ok (r : Z * Z * float) : Prop :=
  PrimFloat.ltb 0 r.2 = true ∧ PrimFloat.ltb r.2 1 = true.

(** [self.outputVars[0][0][0]] as a plain integer. *)
Definition output_start (row : ndarray Z) : res Z :=
  let? first := Np.getitem row 0 in Np.as_scalar first.

(** The solver's answer to a query submitted by the search. *)
Definition answer {ext : Collaborators} (options : Options) (q : InputQuery)
  : string * gmap Z float * Statistics :=
  MarabouCore_solve q options "".

(** An answer that lets the untargeted search go on: no timeout, no assignment. *)
Definition undecided {ext : Collaborators} (options : Options) (q : InputQuery)
  : Prop :=
  hasTimedOut (answer options q).2 = false
  ∧ nonempty (answer options q).1.2 = false.

(** What one run of the untargeted search over [n] output classes did, from
    world [w] to world [w'] with outcome [result]:
    - [pinned] is the model the queries start from, the given model with
      other bounds;
    - [tried], the classes whose query reached the solver, is an initial
      segment of the classes other than [originalClass] in ascending order;
    - [qs], the queries submitted by this run, are one per tried class, the
      [k]-th compiled from [pinned] with the Max records of the first [k+1]
      tried classes appended;
    - every query but the last was answered without timeout and without
      assignment;
    - a normal return hands back the answer to the last query and names the
      last tried class exactly when that answer has an assignment and no
      timeout; without timeout and assignment every candidate was tried. *)
Definition search_outcome {ext : Collaborators} (options : Options)
    (originalClass start : Z) (n : nat) (w w' : World)
    (result : res (gmap Z float * Statistics * option Z)) : Prop :=
  ∃ (pinned : MarabouNetwork) (tried : list nat) (qs : list InputQuery),
    (∃ lb ub, pinned = with_bounds (net w) lb ub)
    ∧ tried `prefix_of` candidates originalClass (seq 0 n)
    ∧ solverLog w' = solverLog w ++ qs
    ∧ length qs = length tried
    ∧ (∀ k q, qs !! k = Some q →
         Compile.query (with_max pinned
            (candidate_max start originalClass <$> take (S k) tried)) = Ok q)
    ∧ (∀ k q, qs !! k = Some q → S k < length qs → undecided options q)
    ∧ (∀ vals stats maxClass, result = Ok (vals, stats, maxClass) →
         ∃ c q, last tried = Some c ∧ last qs = Some q
           ∧ vals = (answer options q).1.2 ∧ stats = (answer options q).2
           ∧ (hasTimedOut stats = true → maxClass = None)
           ∧ (hasTimedOut stats = false → nonempty vals = true →
              maxClass = Some (Z.of_nat c))
           ∧ (hasTimedOut stats = false → nonempty vals = false →
              maxClass = None ∧ tried = candidates originalClass (seq 0 n))).

(** [row] is the array the search compares the input's shape with. *)
Definition compared_with (self : MarabouNetwork) (row : ndarray Z) : Prop :=
  (inputVarsType self = PyList
   ∧ ∃ g, inputVars self = [g] ∧ Np.getitem g 0 = Ok row)
  ∨ (inputVarsType self = PyNdarray ∧ inputVars self !! 0%nat = Some row).

(** Two worlds that differ at most in the bound maps of the model. *)
Definition bounds_only (w w' : World) : Prop :=
  solverLog w' = solverLog w
  ∧ ∃ lb ub, net w' = with_bounds (net w) lb ub.

(** The entries of a dictionary stored under one key. *)
Definition entries_for (x : Z) (d : gmap Z float) : list (Z * float) :=
  filter (λ kv, kv.1 = x) (map_to_list d).

(** Concrete collaborators for running the model on examples: statistics are
    the timed-out flag alone, the solver answers by a given function. *)
Module Example.

Definition collaborators (answer : InputQuery → string * gmap Z float * bool)
    (reference : list (ndarray float) → res (list (ndarray float)))
  : Collaborators :=
  {| Options := unit;
     Options_default := tt;
     Statistics := bool;
     hasTimedOut := λ b, b;
     MarabouCore_solve := λ ipq _ _, answer ipq;
     MarabouCore_loadProperty := λ ipq _, ipq;
     Equation_isEqualTo := λ _ _, true;
     Equation_eq := λ _ _, true;
     evaluateWithoutMarabou := reference;
     np_subtract_broadcast := λ _ _, Raise ValueError |}.

(** A solver that finds every query unsatisfiable. *)
Definition unsat_solver : Collaborators :=
  collaborators (λ _, ("unsat"%string, ∅, false)) (λ _, Ok []).

(** A solver that satisfies every query by giving each variable 0. *)
Definition zero_assignment (n : Z) : gmap Z float :=
  list_to_map ((λ i : nat, (Z.of_nat i, 0%float)) <$> seq 0 (Z.to_nat n)).

Definition sat_solver : Collaborators :=
  collaborators
    (λ ipq, ("sat"%string, zero_assignment (numberOfVariables ipq), false))
    (λ _, Ok []).

(** The same solver next to a reference evaluator that reports one 1x2
    output group with the values 1.5 and -2. *)
Definition sat_solver_with_reference : Collaborators :=
  collaborators
    (λ ipq, ("sat"%string, zero_assignment (numberOfVariables ipq), false))
    (λ _, Ok [NdArray [1; 2]%nat [1.5%float; (-2)%float]]).

(** Four variables: a 1x2 input group [0, 1] and a 1x2 output group [2, 3]. *)
Definition small_network : MarabouNetwork :=
  mkNetwork 4 [] [] [] [] [] [] [] [] [] [] [] ∅ ∅
    [NdArray [1; 2]%nat [0; 1]%Z] [NdArray [1; 2]%nat [2; 3]%Z]
    PyList PyList.

Definition small_world : World := mkWorld small_network [].

(** Three variables and an Abs record whose input is variable 5. *)
Definition abs_out_of_range : MarabouNetwork :=
  mkNetwork 3 [] [] [] [] [] [] [] [] [(5, 0)%Z] [] [] ∅ ∅ [] [] PyList PyList.

(** Three variables and a Sign record whose output is variable 7. *)
Definition sign_out_of_range : MarabouNetwork :=
  mkNetwork 3 [] [] [] [] [] [] [] [] [] [(0, 7)%Z] [] ∅ ∅ [] [] PyList PyList.

(** The same network with the two output variables swapped. *)
Definition small_network_swapped_outputs : MarabouNetwork :=
  mkNetwork 4 [] [] [] [] [] [] [] [] [] [] [] ∅ ∅
    [NdArray [1; 2]%nat [0; 1]%Z] [NdArray [1; 2]%nat [3; 2]%Z]
    PyList PyList.

(** The same network with one more record in each of the leaky-relu,
    softmax and bilinear lists, and with a property equation. *)
Definition small_network_more_constraints : MarabouNetwork :=
  mkNetwork 4 [] [mkEquation EQ [(1%float, 0%Z)] 0%float] []
    [(0, 2, 0.5%float)%Z] [] [] [([0; 1], [2; 3])%Z] [(0, 1, 2)%Z]
    [] [] [] ∅ ∅
    [NdArray [1; 2]%nat [0; 1]%Z] [NdArray [1; 2]%nat [2; 3]%Z]
    PyList PyList.

(** An input of shape (2,) for the 1x2 input group. *)
Definition small_input : ndarray float := NdArray [2]%nat [0.5%float; 0.5%float].

(** The same values in the shape (1, 2) of the input group itself. *)
Definition small_input_batched : ndarray float :=
  NdArray [1; 2]%nat [0.5%float; 0.5%float].

(** Five variables: a 1x2 input group [0, 1] and a 1x3 output group
    [2, 3, 4], one variable per class. *)
Definition three_class_network : MarabouNetwork :=
  mkNetwork 5 [] [] [] [] [] [] [] [] [] [] [] ∅ ∅
    [NdArray [1; 2]%nat [0; 1]%Z] [NdArray [1; 3]%nat [2; 3; 4]%Z]
    PyList PyList.

Definition three_class_world : World := mkWorld three_class_network [].

(** The output variable of the Max record a query received last. *)
Definition newest_max (ipq : InputQuery) : option Z :=
  match last (constraints ipq) with
  | Some (MaxConstraint _ v) => Some v
  | _ => None
  end.

(** A solver that satisfies the query whose newest Max record names
    [sat_var], times out on the one that names [timeout_var], and finds
    every other query unsatisfiable. *)
Definition solver_by_class (sat_var timeout_var : Z) : Collaborators :=
  collaborators
    (λ ipq, match newest_max ipq with
            | Some v =>
                if bool_decide (v = sat_var)
                then ("sat"%string, zero_assignment (numberOfVariables ipq), false)
                else if bool_decide (v = timeout_var)
                     then ("TIMEOUT"%string, ∅, true)
                     else ("unsat"%string, ∅, false)
            | None => ("unsat"%string, ∅, false)
            end)
    (λ _, Ok []).

End Example.

(** * Further methods *)

(** ** Convenience constructors for equations *)

(** [MarabouUtils.Equation(type)], then [addAddend(coeffs[i], vars[i])] for
    [i] in [range(len(vars))], then [setScalar(scalar)].  [addAddend(c, x)]
    appends the pair [(c, x)], the form in which [getMarabouQuery] reads
    [addendList]. *)
Definition build_equation (ty : EqType) (vars : list Z) (coeffs : list float)
    (scalar : float) : res Equation :=
  let? addends :=
    map_res (λ i, let? c := index coeffs i in
                  let? x := index vars i in Ok (c, x))
            (seq 0 (length vars)) in
  Ok (mkEquation ty addends scalar).

Definition addEquality (vars : list Z) (coeffs : list float) (scalar : float)
    (isProperty : bool) : M unit :=
  lift (assert (Nat.eqb (length vars) (length coeffs))) ;;
  e <- lift (build_equation EQ vars coeffs scalar) ;;
  addEquation e isProperty.

Definition addInequality (vars : list Z) (coeffs : list float) (scalar : float)
    (isProperty : bool) : M unit :=
  lift (assert (Nat.eqb (length vars) (length coeffs))) ;;
  e <- lift (build_equation LE vars coeffs scalar) ;;
  addEquation e isProperty.

(** ** The Pythonic interface *)

(** What [addConstraint] reads of a [VarConstraint]: the items of
    [combination.varCoeffs] in the order of the dictionary (distinct keys),
    [combination.scalar], the two optional bounds and the equality flag. *)
Record VarConstraint : Type := mkVarConstraint {
  varCoeffs : list (Z * float);
  combination_scalar : float;
  constraint_lowerBound : option float;
  constraint_upperBound : option float;
  isEquality : bool
}.

Definition addConstraint (constraint : VarConstraint) : M unit :=
  let vars := (varCoeffs constraint).*1 in
  let coeffs := (varCoeffs constraint).*2 in
  match constraint_lowerBound constraint with
  | Some lower =>
      x <- lift (index vars 0) ;; setLowerBound x lower
  | None =>
      match constraint_upperBound constraint with
      | Some upper =>
          x <- lift (index vars 0) ;; setUpperBound x upper
      | None =>
          if isEquality constraint
          then addEquality vars coeffs
                 (PrimFloat.opp (combination_scalar constraint)) false
          else addInequality vars coeffs
                 (PrimFloat.opp (combination_scalar constraint)) false
      end
  end.

(** ** Bound calculation *)

(** [MarabouCore.calculateBounds(ipq, options, filename)]: exit code, a
    pair of bounds per variable, statistics. *)
Class BoundsEngine {ext : Collaborators} : Type := {
  MarabouCore_calculateBounds :
    InputQuery → Options → string → string * gmap Z (float * float) * Statistics
}.

(** The bounds printed in verbose mode are looked up in [bounds]. *)
Definition print_bounds (bounds : gmap Z (float * float)) (arrs : list (ndarray Z))
  : res unit :=
  for_each (λ arr,
    for_each (λ i, let? v := Np.item arr i in
                   match bounds !! v with
                   | Some _ => Ok tt
                   | None => Raise KeyError
                   end)
             (seq 0 (Np.size arr))) arrs.

Section Bounds.
Context {ext : Collaborators} {engine : BoundsEngine}.

(** [calculateBounds]: compiles, hands the query to the engine and, with
    [verbose] on and an empty exit code, prints the bounds of the output
    variables. *)
Definition calculateBounds (filename : string) (verbose : bool)
    (options : option Options)
  : M (string * gmap Z (float * float) * Statistics) :=
  ipq <- getMarabouQuery ;;
  let options := default Options_default options in
  log_query ipq ;;
  let r := MarabouCore_calculateBounds ipq options filename in
  (if verbose
   then if bool_decide (r.1.1 = "")
        then self <- get_self ;;
             lift (print_bounds r.1.2 (outputVars self))
        else pure tt
   else pure tt) ;;
  pure r.

End Bounds.

(** ** Vocabulary of the further statements *)

(** An equation as the query holds it. *)
Definition to_core (e : Equation) : CoreEquation :=
  mkCoreEquation (EquationType e) (addendList e) (scalar e).

(** The constraint records of a model in the order compilation adds them. *)
Definition translated (self : MarabouNetwork) : list Constraint :=
  ((λ r : Z * Z, ReluConstraint r.1 r.2) <$> reluList self)
  ++ ((λ r : Z * Z * float, LeakyReluConstraint r.1.1 r.1.2 r.2) <$> leakyReluList self)
  ++ ((λ r : Z * Z * Z, BilinearConstraint r.1.1 r.1.2 r.2) <$> bilinearList self)
  ++ ((λ r : Z * Z, SigmoidConstraint r.1 r.2) <$> sigmoidList self)
  ++ ((λ m : gset Z * Z, MaxConstraint m.1 m.2) <$> maxList self)
  ++ ((λ m : list Z * list Z, SoftmaxConstraint m.1 m.2) <$> softmaxList self)
  ++ ((λ r : Z * Z, AbsConstraint r.1 r.2) <$> absList self)
  ++ ((λ r : Z * Z, SignConstraint r.1 r.2) <$> signList self)
  ++ ((λ d : list (list Equation), DisjunctionConstraint
         ((λ disjunct : list Equation, to_core <$> disjunct) <$> d))
        <$> disjunctionList self).

(** The variables of a list of groups, flattened group after group. *)
Definition flat_vars (arrs : list (ndarray Z)) : list Z :=
  concat (Np.flatten <$> arrs).

(** The marks of a list of groups: each flattened position with its
    variable. *)
Definition slots (arrs : list (ndarray Z)) : list (Z * nat) :=
  imap (λ i v, (v, i)) (flat_vars arrs).

(** An integer that [MarabouCore] accepts as a variable, a slot or a count. *)
Definition unsigned (v : Z) : Prop := (0 ≤ v < 2 ^ 32)%Z.

(** The variables compilation hands to [MarabouCore] without comparing them
    with [numVars]: the flattened input and output variables and those of
    the abs and sign records. *)
Definition unchecked_vars (self : MarabouNetwork) : list Z :=
  flat_vars (inputVars self) ++ flat_vars (outputVars self)
  ++ (absList self ≫= λ r, [r.1; r.2])
  ++ (signList self ≫= λ r, [r.1; r.2]).

(** The errors compilation can raise: a failed assertion, or an argument
    that [MarabouCore] refuses. *)
Definition compile_error (e : exn) : Prop :=
  e = AssertionError ∨ e = TypeError.

(** An array whose data fills its shape. *)
Definition well_formed {A : Type} (a : ndarray A) : Prop :=
  length (Np.data a) = Np.size a.

(** [n] calls of the same method in a row, with their results. *)
Fixpoint repeatM {A : Type} (n : nat) (m : M A) : M (list A) :=
  match n with
  | O => pure []
  | S n' => a <- m ;; rest <- repeatM n' m ;; pure (a :: rest)
  end.

(** The dictionary [evaluateWithMarabou] builds from the flattened input
    variables and values: a later pair overwrites an earlier one. *)
Definition input_dict (vars : list Z) (values : list float) : gmap Z float :=
  foldl (λ d x, <[x.1 := x.2]> d) ∅ (zip vars values).

(** A compiled query with both bounds of the keys of [d] set to their
    values in [d]. *)
Definition pinned_query (q : InputQuery) (d : gmap Z float) : InputQuery :=
  mkInputQuery (numberOfVariables q) (inputMarks q) (outputMarks q)
    (equations q) (constraints q)
    (d ∪ queryLowerBounds q) (d ∪ queryUpperBounds q).

(** Two worlds of which the second has at most further Max records at the
    end of [maxList] and further queries at the end of the log. *)
Definition appended_only (w w' : World) : Prop :=
  (∃ ms, net w' = with_max (net w) ms)
  ∧ ∃ qs, solverLog w' = solverLog w ++ qs.

(** Further models for running the methods on examples. *)
Module Cases.

(** Six variables with an equation of each list, a relu, a leaky-relu and a
    max record, both bounds on variable 0, a 1x2 input group [0, 1] and a 1x2
    output group [4, 5]. *)
Definition rich_network : MarabouNetwork :=
  mkNetwork 6
    [mkEquation EQ [(1%float, 0%Z); ((-1)%float, 2%Z)] 0%float]
    [mkEquation LE [(1%float, 3%Z)] 2%float]
    [(2, 3)%Z] [(0, 2, 0.5%float)%Z] [] [({[2%Z; 3%Z]}, 4%Z)] [] [] [] [] []
    {[0%Z := (-1)%float]} {[0%Z := 1%float]}
    [NdArray [1; 2]%nat [0; 1]%Z] [NdArray [1; 2]%nat [4; 5]%Z]
    PyList PyList.

Definition rich_world : World := mkWorld rich_network [].

(** The compiled query of a model that compiles. *)
Definition compiled (self : MarabouNetwork) : InputQuery :=
  match Compile.query self with
  | Ok q => q
  | Raise _ => mkInputQuery 0 [] [] [] [] ∅ ∅
  end.

(** Four variables with a 1x3 input group [0, 1, 2] and a 1x1 output group
    [3]: a single output class. *)
Definition one_class_network : MarabouNetwork :=
  mkNetwork 4 [] [] [] [] [] [] [] [] [] [] [] ∅ ∅
    [NdArray [1; 3]%nat [0; 1; 2]%Z] [NdArray [1; 1]%nat [3]%Z]
    PyList PyList.

Definition one_class_world : World := mkWorld one_class_network [].

(** An input of shape (3,) for the 1x3 input group. *)
Definition wide_input : ndarray float :=
  NdArray [3]%nat [0.5%float; 1%float; 2%float].

(** A bound engine that reports the bounds [0, 1] for the variables 2 and 3
    and an empty exit code. *)
Definition unit_bounds : @BoundsEngine Example.unsat_solver :=
  {| MarabouCore_calculateBounds := λ _ _ _,
       (""%string,
        {[2%Z := (0%float, 1%float); 3%Z := (0%float, 1%float)]},
        (false : @Statistics Example.unsat_solver)) |}.

End Cases.

(** * Properties *)

(** ** Monad bookkeeping *)

Lemma bindM_ok {A B : Type} (m : M A) (k : A → M B) (w w1 : World) (a : A) :
  m w = (Ok a, w1) → bindM m k w = k a w1.
Proof. intros H. unfold bindM. by rewrite H. Qed.

Lemma bindM_raise {A B : Type} (m : M A) (k : A → M B) (w w1 : World) (e : exn) :
  m w = (Raise e, w1) → bindM m k w = (Raise e, w1).
Proof. intros H. unfold bindM. by rewrite H. Qed.

Lemma bindM_lift {A B : Type} (r : res A) (k : A → M B) (w : World) :
  bindM (lift r) k w = match r with Ok a => k a w | Raise e => (Raise e, w) end.
Proof. unfold bindM, lift. by destruct r. Qed.

(** ** clearProperty *)

(** C5: [clearProperty] empties both bound maps and the property equations
    and leaves the variable count, the core equations, every constraint list
    and the input and output groups as they were. *)
Theorem clearProperty_frame (w : World) :
  ∃ w', clearProperty w = (Ok tt, w')
    ∧ lowerBounds (net w') = ∅
    ∧ upperBounds (net w') = ∅
    ∧ additionalEquList (net w') = []
    ∧ numVars (net w') = numVars (net w)
    ∧ equList (net w') = equList (net w)
    ∧ reluList (net w') = reluList (net w)
    ∧ leakyReluList (net w') = leakyReluList (net w)
    ∧ sigmoidList (net w') = sigmoidList (net w)
    ∧ maxList (net w') = maxList (net w)
    ∧ softmaxList (net w') = softmaxList (net w)
    ∧ bilinearList (net w') = bilinearList (net w)
    ∧ absList (net w') = absList (net w)
    ∧ signList (net w') = signList (net w)
    ∧ disjunctionList (net w') = disjunctionList (net w)
    ∧ inputVars (net w') = inputVars (net w)
    ∧ outputVars (net w') = outputVars (net w)
    ∧ inputVarsType (net w') = inputVarsType (net w)
    ∧ outputVarsType (net w') = outputVarsType (net w)
    ∧ solverLog w' = solverLog w.
Proof.
  eexists. split; [reflexivity|]. simpl. repeat split.
Qed.

(** ** Bounds *)

Lemma entries_for_absent (x : Z) (l : list (Z * float)) :
  x ∉ l.*1 → filter (λ kv : Z * float, kv.1 = x) l = [].
Proof.
  induction l as [|[k u] l IH]; [done|].
  rewrite fmap_cons, not_elem_of_cons. simpl. intros [Hne Hl].
  rewrite filter_cons_False by (simpl; congruence). auto.
Qed.

Lemma entries_for_lookup (x : Z) (v : float) (d : gmap Z float) :
  d !! x = Some v → entries_for x d = [(x, v)].
Proof.
  intros Hx. unfold entries_for.
  assert (Hnd : NoDup (map_to_list d).*1) by apply NoDup_fst_map_to_list.
  assert (Hin : (x, v) ∈ map_to_list d) by by apply elem_of_map_to_list.
  assert (Hall : ∀ kv, kv ∈ map_to_list d → kv.1 = x → kv = (x, v)).
  { intros [k u] Hk Hkx. simpl in Hkx. subst k.
    apply elem_of_map_to_list in Hk. congruence. }
  induction (map_to_list d) as [|[k u] l IH]; [by apply elem_of_nil in Hin|].
  rewrite fmap_cons in Hnd. apply NoDup_cons in Hnd as [Hk Hnd].
  rewrite filter_cons. simpl. destruct (decide (k = x)) as [->|Hne].
  - assert ((x, u) = (x, v)) as -> by (apply Hall; [left|done]).
    f_equal. by apply entries_for_absent.
  - apply IH; [done| |].
    + apply elem_of_cons in Hin as [Heq|Hin]; [congruence|done].
    + intros kv Hkv. apply Hall. by right.
Qed.

(** C7: setting a bound twice for the same variable and direction leaves one
    entry for it, holding the second value; the other direction is untouched. *)
Theorem setBound_last_write_wins (w : World) (v : Z) (a b : float) :
  (∃ w', (setLowerBound v a ;; setLowerBound v b) w = (Ok tt, w')
     ∧ entries_for v (lowerBounds (net w')) = [(v, b)]
     ∧ lowerBounds (net w') = <[v := b]> (lowerBounds (net w))
     ∧ upperBounds (net w') = upperBounds (net w))
  ∧ (∃ w', (setUpperBound v a ;; setUpperBound v b) w = (Ok tt, w')
     ∧ entries_for v (upperBounds (net w')) = [(v, b)]
     ∧ upperBounds (net w') = <[v := b]> (upperBounds (net w))
     ∧ lowerBounds (net w') = lowerBounds (net w)).
Proof.
  split; eexists; (split; [reflexivity|]); simpl; repeat split.
  - apply entries_for_lookup. by rewrite lookup_insert_eq.
  - apply insert_insert_eq.
  - apply entries_for_lookup. by rewrite lookup_insert_eq.
  - apply insert_insert_eq.
Qed.

(** On the empty model, bounding variable 3 below by 1.0 and then by 2.0
    leaves exactly one bound, 2.0. *)
Example setLowerBound_twice_on_empty :
  ∃ w', (setLowerBound 3 1.0%float ;; setLowerBound 3 2.0%float)
          (mkWorld empty_network []) = (Ok tt, w')
    ∧ map_to_list (lowerBounds (net w')) = [(3%Z, 2.0%float)]
    ∧ size (upperBounds (net w')) = 0%nat.
Proof.
  eexists. split; [reflexivity|]. simpl. split; [|done].
  rewrite insert_insert_eq, insert_empty. apply map_to_list_singleton.
Qed.

(** ** Compilation *)

(** C6: compiling reads the model and nothing else: two calls in a row give
    the same outcome (the same query, or the same error) and the world after
    each call is the world before it. *)
Theorem getMarabouQuery_deterministic (w : World) :
  let first := getMarabouQuery w in
  let second := getMarabouQuery first.2 in
  first.1 = second.1 ∧ first.2 = w ∧ second.2 = w.
Proof.
  unfold getMarabouQuery, bindM, get_self, lift; simpl.
  destruct (Compile.query (net w)); simpl; auto.
Qed.

Lemma getMarabouQuery_run (w : World) :
  getMarabouQuery w = (Compile.query (net w), w).
Proof.
  unfold getMarabouQuery, bindM, get_self, lift.
  by destruct (Compile.query (net w)).
Qed.

(** C1: a three-variable model whose Abs record names variable 5, and one whose
    Sign record names variable 7, both compile: the Abs and Sign records reach
    the query unchecked. *)
Theorem getMarabouQuery_accepts_abs_sign_out_of_range :
  (getMarabouQuery (mkWorld Example.abs_out_of_range [])).1
    = Ok (mkInputQuery 3 [] [] [] [AbsConstraint 5 0] ∅ ∅)
  ∧ (getMarabouQuery (mkWorld Example.sign_out_of_range [])).1
    = Ok (mkInputQuery 3 [] [] [] [SignConstraint 0 7] ∅ ∅).
Proof. split; reflexivity. Qed.

(** ** Which models compile *)

Lemma assert_ok_iff (b : bool) : is_ok (assert b) = true ↔ b = true.
Proof. by destruct b. Qed.

Lemma map_res_ok_iff {A B : Type} (f : A → res B) (l : list A) :
  is_ok (map_res f l) = true ↔ Forall (λ x, is_ok (f x) = true) l.
Proof.
  induction l as [|x l IH]; simpl; [done|].
  rewrite Forall_cons, <- IH. destruct (f x); simpl; [|intuition discriminate].
  destruct (map_res f l); simpl; intuition discriminate.
Qed.

Lemma for_each_ok_iff {A : Type} (body : A → res unit) (l : list A) :
  is_ok (for_each body l) = true ↔ Forall (λ x, is_ok (body x) = true) l.
Proof.
  induction l as [|x l IH]; simpl; [done|].
  rewrite Forall_cons, <- IH. destruct (body x); simpl; intuition discriminate.
Qed.

Lemma var_ok_iff (n v : Z) : Compile.var_ok n v = true ↔ (v < n)%Z.
Proof. unfold Compile.var_ok. apply bool_decide_eq_true. Qed.

Lemma unsigned_ok_iff (v : Z) : Compile.unsigned_ok v = true ↔ unsigned v.
Proof. unfold Compile.unsigned_ok. apply bool_decide_eq_true. Qed.

Lemma core_args_ok_iff (vs : list Z) :
  is_ok (Compile.core_args vs) = true ↔ Forall unsigned vs.
Proof.
  unfold Compile.core_args.
  transitivity (forallb Compile.unsigned_ok vs = true).
  { by destruct (forallb Compile.unsigned_ok vs). }
  induction vs as [|v vs IH]; simpl; [done|].
  by rewrite andb_true_iff, Forall_cons, IH, unsigned_ok_iff.
Qed.

(** A sequence of checks followed by a value. *)
Lemma rbind_unit_ok_iff {B : Type} (c : res unit) (k : unit → res B) :
  is_ok (rbind c k) = true ↔ is_ok c = true ∧ is_ok (k tt) = true.
Proof. destruct c as [[]|]; simpl; intuition discriminate. Qed.

Lemma vars_ok_iff (n : Z) (l : list Z) :
  is_ok (for_each (λ e, assert (Compile.var_ok n e)) l) = true
  ↔ Forall (λ v, (v < n)%Z) l.
Proof.
  rewrite for_each_ok_iff. apply Forall_iff.
  intros v. by rewrite assert_ok_iff, var_ok_iff.
Qed.

(** What compilation asks of a variable it compares with [numVars]. *)
Lemma equation_ok_iff (n : Z) (e : Equation) :
  is_ok (Compile.equation n e) = true
  ↔ Forall (λ v, (v < n)%Z ∧ unsigned v) (equation_vars e).
Proof.
  unfold Compile.equation, equation_vars. rewrite Forall_fmap.
  transitivity (is_ok (map_res (λ cv : float * Z,
      let? _ := assert (Compile.var_ok n cv.2) in
      let? _ := Compile.core_args [cv.2] in Ok cv) (addendList e)) = true).
  { by destruct (map_res _ (addendList e)). }
  rewrite map_res_ok_iff. apply Forall_iff. intros [c v]. simpl.
  rewrite !rbind_unit_ok_iff, assert_ok_iff, var_ok_iff, core_args_ok_iff,
    Forall_singleton. simpl. tauto.
Qed.

Lemma equations_ok_iff (n : Z) (l : list Equation) :
  is_ok (map_res (Compile.equation n) l) = true
  ↔ Forall (λ v, (v < n)%Z ∧ unsigned v) (l ≫= equation_vars).
Proof.
  rewrite map_res_ok_iff, Forall_bind. apply Forall_iff. intros e.
  apply equation_ok_iff.
Qed.

Ltac item_ok :=
  rewrite ?rbind_unit_ok_iff, ?assert_ok_iff, ?andb_true_iff, ?var_ok_iff,
    ?core_args_ok_iff, ?vars_ok_iff, ?Forall_app, ?Forall_cons, ?Forall_nil;
  simpl.

Lemma relus_ok_iff (n : Z) (l : list (Z * Z)) :
  is_ok (map_res (Compile.relu n) l) = true
  ↔ Forall (λ v, (v < n)%Z ∧ unsigned v) (l ≫= λ r, [r.2; r.1]).
Proof.
  rewrite map_res_ok_iff, Forall_bind. apply Forall_iff. intros [a b].
  unfold Compile.relu. simpl. item_ok. tauto.
Qed.

Lemma sigmoids_ok_iff (n : Z) (l : list (Z * Z)) :
  is_ok (map_res (Compile.sigmoid n) l) = true
  ↔ Forall (λ v, (v < n)%Z ∧ unsigned v) (l ≫= λ r, [r.2; r.1]).
Proof.
  rewrite map_res_ok_iff, Forall_bind. apply Forall_iff. intros [a b].
  unfold Compile.sigmoid. simpl. item_ok. tauto.
Qed.

Lemma leakyRelus_ok_iff (n : Z) (l : list (Z * Z * float)) :
  is_ok (map_res (Compile.leakyRelu n) l) = true
  ↔ Forall (λ v, (v < n)%Z ∧ unsigned v) (l ≫= λ r, [r.1.2; r.1.1])
    ∧ Forall slope_ok l.
Proof.
  rewrite map_res_ok_iff, Forall_bind, <- Forall_and. apply Forall_iff.
  intros [[a b] s]. unfold Compile.leakyRelu, slope_ok. simpl. item_ok. tauto.
Qed.

Lemma bilinears_ok_iff (n : Z) (l : list (Z * Z * Z)) :
  is_ok (map_res (Compile.bilinear n) l) = true
  ↔ Forall (λ v, (v < n)%Z ∧ unsigned v) (l ≫= λ r, [r.2; r.1.2; r.1.1]).
Proof.
  rewrite map_res_ok_iff, Forall_bind. apply Forall_iff. intros [[a b] c].
  unfold Compile.bilinear. simpl. item_ok. tauto.
Qed.

Lemma maxes_ok_iff (n : Z) (l : list (gset Z * Z)) :
  is_ok (map_res (Compile.max n) l) = true
  ↔ Forall (λ v, (v < n)%Z ∧ unsigned v) (l ≫= λ m, m.2 :: elements m.1).
Proof.
  rewrite map_res_ok_iff, Forall_bind. apply Forall_iff. intros [els v].
  unfold Compile.max. simpl. item_ok. rewrite Forall_and. tauto.
Qed.

Lemma softmaxes_ok_iff (n : Z) (l : list (list Z * list Z)) :
  is_ok (map_res (Compile.softmax n) l) = true
  ↔ Forall (λ v, (v < n)%Z ∧ unsigned v) (l ≫= λ m, m.2 ++ m.1).
Proof.
  rewrite map_res_ok_iff, Forall_bind. apply Forall_iff. intros [ins outs].
  unfold Compile.softmax. simpl. item_ok. rewrite !Forall_and. tauto.
Qed.

Lemma abss_ok_iff (l : list (Z * Z)) :
  is_ok (map_res Compile.abs l) = true
  ↔ Forall unsigned (l ≫= λ r, [r.1; r.2]).
Proof.
  rewrite map_res_ok_iff, Forall_bind. apply Forall_iff. intros [a b].
  unfold Compile.abs. simpl. item_ok. tauto.
Qed.

Lemma signs_ok_iff (l : list (Z * Z)) :
  is_ok (map_res Compile.sign l) = true
  ↔ Forall unsigned (l ≫= λ r, [r.1; r.2]).
Proof.
  rewrite map_res_ok_iff, Forall_bind. apply Forall_iff. intros [a b].
  unfold Compile.sign. simpl. item_ok. tauto.
Qed.

Lemma disjunctions_ok_iff (n : Z) (l : list (list (list Equation))) :
  is_ok (map_res (Compile.disjunction n) l) = true
  ↔ Forall (λ v, (v < n)%Z ∧ unsigned v)
      (l ≫= λ d, d ≫= λ disjunct, disjunct ≫= equation_vars).
Proof.
  rewrite map_res_ok_iff, Forall_bind. apply Forall_iff. intros d.
  unfold Compile.disjunction. simpl.
  transitivity (is_ok (map_res (map_res (Compile.equation n)) d) = true).
  { by destruct (map_res _ d). }
  rewrite map_res_ok_iff, Forall_bind. apply Forall_iff. intros disjunct.
  apply equations_ok_iff.
Qed.

Lemma bounds_ok_iff (n : Z) (kvs : list (Z * float)) (acc : gmap Z float) :
  is_ok (Compile.bounds n kvs acc) = true
  ↔ Forall (λ v, (v < n)%Z ∧ unsigned v) kvs.*1.
Proof.
  revert acc. induction kvs as [|[k v] kvs IH]; intros acc; simpl; [done|].
  rewrite Forall_cons, <- (IH (<[k := v]> acc)). item_ok. tauto.
Qed.

(** The marks are accepted when every variable is, and every slot. *)
Lemma imap_slots {A : Type} (P : A → Prop) (Q : nat → Prop) (l : list A) (k : nat) :
  Forall (λ m : A * nat, P m.1 ∧ Q m.2) (imap (λ i v, (v, (k + i)%nat)) l)
  ↔ Forall P l ∧ ∀ i, (i < length l)%nat → Q (k + i)%nat.
Proof.
  revert k. induction l as [|x l IH]; intros k; simpl.
  - split; [intros _; split; [done|intros; lia]|done].
  - rewrite !Forall_cons. simpl.
    assert (Heq : imap ((λ i v, (v, (k + i)%nat)) ∘ S) l
                  = imap (λ i v, (v, (S k + i)%nat)) l).
    { apply imap_ext. intros i y _. simpl. f_equal. lia. }
    rewrite Heq, IH. split.
    + intros [[HP HQ] [Hall Hslots]]. split; [done|]. intros [|i] Hi.
      * by rewrite Nat.add_0_r in *.
      * replace (k + S i)%nat with (S k + i)%nat by lia. apply Hslots. lia.
    + intros [[HP Hall] Hslots]. split; [split; [done|]|split; [done|]].
      * apply (Hslots 0%nat). lia.
      * intros i Hi. replace (S k + i)%nat with (k + S i)%nat by lia.
        apply Hslots. lia.
Qed.

Lemma marks_ok_iff (arrs : list (ndarray Z)) :
  is_ok (Compile.marks arrs) = true
  ↔ Forall unsigned (flat_vars arrs)
    ∧ (Z.of_nat (length (flat_vars arrs)) ≤ 2 ^ 32)%Z.
Proof.
  unfold Compile.marks, flat_vars. set (l := concat (Np.flatten <$> arrs)).
  rewrite rbind_unit_ok_iff. simpl. rewrite for_each_ok_iff.
  transitivity (Forall (λ m : Z * nat, unsigned m.1 ∧ unsigned (Z.of_nat m.2))
                  (imap (λ i v, (v, (0 + i)%nat)) l)).
  { split.
    - intros [H _]. eapply Forall_impl; [exact H|]. intros [v i]. simpl.
      rewrite core_args_ok_iff, !Forall_cons. tauto.
    - intros H. split; [|done]. eapply Forall_impl; [exact H|]. intros [v i].
      simpl. rewrite core_args_ok_iff, !Forall_cons, Forall_nil. tauto. }
  rewrite (imap_slots unsigned (λ i, unsigned (Z.of_nat i)) l 0).
  unfold unsigned. split.
  - intros [Hall Hslots]. split; [done|].
    destruct (length l) as [|k] eqn:Hk; [lia|].
    specialize (Hslots k). simpl in Hslots. lia.
  - intros [Hall Hlen]. split; [done|]. intros i Hi. simpl. lia.
Qed.

Lemma rbind_ok_iff {A B : Type} (m : res A) (k : A → res B) :
  is_ok (rbind m k) = true ↔ ∃ a, m = Ok a ∧ is_ok (k a) = true.
Proof.
  destruct m as [a|e]; simpl.
  - split; [eauto|]. by intros (a' & [= <-] & H).
  - split; [done|]. by intros (a' & [=] & _).
Qed.

Lemma is_ok_true {A : Type} (r : res A) : is_ok r = true ↔ ∃ a, r = Ok a.
Proof. destruct r; simpl; split; eauto; try done. by intros [? [=]]. Qed.

(** Compilation succeeds exactly when each of its loops does. *)
Lemma query_ok_stages (self : MarabouNetwork) :
  let n := numVars self in
  is_ok (Compile.query self) = true
  ↔ is_ok (Compile.core_args [n]) = true
    ∧ is_ok (Compile.marks (inputVars self)) = true
    ∧ is_ok (Compile.marks (outputVars self)) = true
    ∧ is_ok (map_res (Compile.equation n) (equList self)) = true
    ∧ is_ok (map_res (Compile.equation n) (additionalEquList self)) = true
    ∧ is_ok (map_res (Compile.relu n) (reluList self)) = true
    ∧ is_ok (map_res (Compile.leakyRelu n) (leakyReluList self)) = true
    ∧ is_ok (map_res (Compile.bilinear n) (bilinearList self)) = true
    ∧ is_ok (map_res (Compile.sigmoid n) (sigmoidList self)) = true
    ∧ is_ok (map_res (Compile.max n) (maxList self)) = true
    ∧ is_ok (map_res (Compile.softmax n) (softmaxList self)) = true
    ∧ is_ok (map_res Compile.abs (absList self)) = true
    ∧ is_ok (map_res Compile.sign (signList self)) = true
    ∧ is_ok (map_res (Compile.disjunction n) (disjunctionList self)) = true
    ∧ is_ok (Compile.bounds n (map_to_list (lowerBounds self)) ∅) = true
    ∧ is_ok (Compile.bounds n (map_to_list (upperBounds self)) ∅) = true.
Proof.
  cbv zeta. unfold Compile.query. set (n := numVars self).
  destruct (Compile.core_args [n]); simpl; [|intuition discriminate].
  destruct (Compile.marks (inputVars self)); simpl; [|intuition discriminate].
  destruct (Compile.marks (outputVars self)); simpl; [|intuition discriminate].
  destruct (map_res (Compile.equation n) (equList self)); simpl;
    [|intuition discriminate].
  destruct (map_res (Compile.equation n) (additionalEquList self)); simpl;
    [|intuition discriminate].
  destruct (map_res (Compile.relu n) (reluList self)); simpl;
    [|intuition discriminate].
  destruct (map_res (Compile.leakyRelu n) (leakyReluList self)); simpl;
    [|intuition discriminate].
  destruct (map_res (Compile.bilinear n) (bilinearList self)); simpl;
    [|intuition discriminate].
  destruct (map_res (Compile.sigmoid n) (sigmoidList self)); simpl;
    [|intuition discriminate].
  destruct (map_res (Compile.max n) (maxList self)); simpl;
    [|intuition discriminate].
  destruct (map_res (Compile.softmax n) (softmaxList self)); simpl;
    [|intuition discriminate].
  destruct (map_res Compile.abs (absList self)); simpl;
    [|intuition discriminate].
  destruct (map_res Compile.sign (signList self)); simpl;
    [|intuition discriminate].
  destruct (map_res (Compile.disjunction n) (disjunctionList self)); simpl;
    [|intuition discriminate].
  destruct (Compile.bounds n (map_to_list (lowerBounds self)) ∅); simpl;
    [|intuition discriminate].
  destruct (Compile.bounds n (map_to_list (upperBounds self)) ∅); simpl;
    intuition discriminate.
Qed.

Lemma Forall_checked (n : Z) (l : list Z) :
  unsigned n →
  Forall (λ v, (v < n)%Z ∧ unsigned v) l ↔ Forall (λ v, (0 ≤ v < n)%Z) l.
Proof.
  intros Hn. apply Forall_iff. intros v. unfold unsigned in *. lia.
Qed.

(** Compilation succeeds exactly when the variable count is one that
    [MarabouCore] accepts, every variable it compares with [numVars] lies in
    [0, numVars), every leaky-relu slope lies strictly between 0 and 1, every
    variable it passes on without a comparison is one [MarabouCore] accepts,
    and so is every input and output slot. *)
Lemma query_ok_iff (self : MarabouNetwork) :
  is_ok (Compile.query self) = true
  ↔ unsigned (numVars self)
    ∧ Forall (λ v, (0 ≤ v < numVars self)%Z) (checked_vars self)
    ∧ Forall slope_ok (leakyReluList self)
    ∧ Forall unsigned (unchecked_vars self)
    ∧ (Z.of_nat (length (flat_vars (inputVars self))) ≤ 2 ^ 32)%Z
    ∧ (Z.of_nat (length (flat_vars (outputVars self))) ≤ 2 ^ 32)%Z.
Proof.
  pose proof (query_ok_stages self) as Hst. cbv zeta in Hst. rewrite Hst.
  clear Hst. set (n := numVars self).
  rewrite core_args_ok_iff, Forall_singleton, !marks_ok_iff, !equations_ok_iff,
    relus_ok_iff, leakyRelus_ok_iff, bilinears_ok_iff, sigmoids_ok_iff,
    maxes_ok_iff, softmaxes_ok_iff, abss_ok_iff, signs_ok_iff,
    disjunctions_ok_iff, !bounds_ok_iff.
  unfold checked_vars, unchecked_vars. fold n.
  rewrite !Forall_app, bind_app, Forall_app.
  split.
  - intros (Hn & H). rewrite !(Forall_checked n _ Hn) in H. tauto.
  - intros (Hn & H). rewrite !(Forall_checked n _ Hn). tauto.
Qed.

(** ** The errors of compilation *)

Lemma map_res_raises {A B : Type} (P : exn → Prop) (f : A → res B) (l : list A) :
  (∀ x e, f x = Raise e → P e) → ∀ e, map_res f l = Raise e → P e.
Proof.
  intros Hf. induction l as [|x l IH]; intros e; simpl; [done|].
  destruct (f x) eqn:Hx; simpl; [|intros [= <-]; eauto].
  destruct (map_res f l); simpl; [done|]. intros [= <-]. eauto.
Qed.

Lemma for_each_raises {A : Type} (P : exn → Prop) (body : A → res unit)
    (l : list A) :
  (∀ x e, body x = Raise e → P e) → ∀ e, for_each body l = Raise e → P e.
Proof.
  intros Hf. induction l as [|x l IH]; intros e; simpl; [done|].
  destruct (body x) eqn:Hx; simpl; [auto|]. intros [= <-]. eauto.
Qed.

Lemma assert_raises (b : bool) (e : exn) :
  assert b = Raise e → e = AssertionError.
Proof. destruct b; [done|]. by intros [= <-]. Qed.

Lemma core_args_raises (vs : list Z) (e : exn) :
  Compile.core_args vs = Raise e → e = TypeError.
Proof.
  unfold Compile.core_args. destruct (forallb _ vs); [done|]. by intros [= <-].
Qed.

Lemma rbind_raises {A B : Type} (P : exn → Prop) (m : res A) (k : A → res B)
    (e : exn) :
  (∀ e, m = Raise e → P e) → (∀ a e, k a = Raise e → P e) →
  rbind m k = Raise e → P e.
Proof.
  intros Hm Hk. destruct m as [a|e0]; simpl; [apply Hk|].
  intros [= <-]. by apply Hm.
Qed.

Lemma assert_then_raises {B : Type} (b : bool) (k : unit → res B) (e : exn) :
  (∀ e, k tt = Raise e → compile_error e) →
  rbind (assert b) k = Raise e → compile_error e.
Proof.
  intros Hk. destruct b; simpl; [apply Hk|]. intros [= <-]. by left.
Qed.

Lemma core_args_then_raises {B : Type} (vs : list Z) (k : unit → res B)
    (e : exn) :
  (∀ e, k tt = Raise e → compile_error e) →
  rbind (Compile.core_args vs) k = Raise e → compile_error e.
Proof.
  intros Hk. unfold Compile.core_args. destruct (forallb _ vs); simpl;
    [apply Hk|]. intros [= <-]. by right.
Qed.

Lemma vars_then_raises {B : Type} (n : Z) (l : list Z) (k : unit → res B)
    (e : exn) :
  (∀ e, k tt = Raise e → compile_error e) →
  rbind (for_each (λ v, assert (Compile.var_ok n v)) l) k = Raise e →
  compile_error e.
Proof.
  intros Hk. apply rbind_raises; [|by intros []].
  apply for_each_raises. intros v e' H. left. eapply assert_raises, H.
Qed.

Ltac compile_raises :=
  repeat (first [apply assert_then_raises | apply core_args_then_raises
                | apply vars_then_raises]; intros ?);
  try discriminate.

Lemma equation_raises (n : Z) (eq : Equation) (e : exn) :
  Compile.equation n eq = Raise e → compile_error e.
Proof.
  unfold Compile.equation. apply rbind_raises; [|done].
  apply map_res_raises. intros cv e'. compile_raises.
Qed.

Lemma bounds_raises (n : Z) (kvs : list (Z * float)) (acc : gmap Z float) (e : exn) :
  Compile.bounds n kvs acc = Raise e → compile_error e.
Proof.
  revert acc e. induction kvs as [|kv kvs IH]; intros acc e; simpl; [done|].
  apply assert_then_raises. intros e1. apply core_args_then_raises.
  intros e2. apply IH.
Qed.

Lemma marks_raises (arrs : list (ndarray Z)) (e : exn) :
  Compile.marks arrs = Raise e → compile_error e.
Proof.
  unfold Compile.marks. apply rbind_raises; [|done].
  apply for_each_raises. intros m e' H. right. eapply core_args_raises, H.
Qed.

(** Every error of compilation is a failed assertion or an argument that
    [MarabouCore] refuses. *)
Lemma query_raises (self : MarabouNetwork) (e : exn) :
  Compile.query self = Raise e → compile_error e.
Proof.
  unfold Compile.query. set (n := numVars self).
  assert (Heqs : ∀ l e, map_res (Compile.equation n) l = Raise e →
                        compile_error e).
  { intros l. apply map_res_raises. intros x. apply equation_raises. }
  apply core_args_then_raises. intros e0.
  apply rbind_raises; [apply marks_raises|intros ? ?].
  apply rbind_raises; [apply marks_raises|intros ? ?].
  apply rbind_raises; [apply Heqs|intros ? ?].
  apply rbind_raises; [apply Heqs|intros ? ?].
  apply rbind_raises; [apply map_res_raises; intros r e';
    unfold Compile.relu; compile_raises|intros ? ?].
  apply rbind_raises; [apply map_res_raises; intros r e';
    unfold Compile.leakyRelu; compile_raises|intros ? ?].
  apply rbind_raises; [apply map_res_raises; intros r e';
    unfold Compile.bilinear; compile_raises|intros ? ?].
  apply rbind_raises; [apply map_res_raises; intros r e';
    unfold Compile.sigmoid; compile_raises|intros ? ?].
  apply rbind_raises; [apply map_res_raises; intros r e';
    unfold Compile.max; compile_raises|intros ? ?].
  apply rbind_raises; [apply map_res_raises; intros r e';
    unfold Compile.softmax; compile_raises|intros ? ?].
  apply rbind_raises; [apply map_res_raises; intros r e';
    unfold Compile.abs; compile_raises|intros ? ?].
  apply rbind_raises; [apply map_res_raises; intros r e';
    unfold Compile.sign; compile_raises|intros ? ?].
  apply rbind_raises.
  { apply map_res_raises. intros d e'. unfold Compile.disjunction.
    apply rbind_raises; [|done]. apply map_res_raises. intros disjunct.
    apply Heqs. }
  intros ? ?.
  apply rbind_raises; [apply bounds_raises|intros ? ?].
  apply rbind_raises; [apply bounds_raises|done].
Qed.

(** Compilation raises, leaving the world as it was, as soon as one of the
    variables it compares with [numVars] is not below it. *)
Lemma getMarabouQuery_rejects_checked (w : World) (v : Z) :
  v ∈ checked_vars (net w) → (numVars (net w) ≤ v)%Z →
  ∃ e, getMarabouQuery w = (Raise e, w) ∧ compile_error e.
Proof.
  intros Hv Hge. rewrite getMarabouQuery_run.
  destruct (Compile.query (net w)) as [q|e] eqn:Hq.
  - assert (Hok : is_ok (Compile.query (net w)) = true) by by rewrite Hq.
    apply query_ok_iff in Hok as (_ & Hall & _).
    rewrite Forall_forall in Hall. apply Hall in Hv. lia.
  - exists e. split; [done|]. eapply query_raises, Hq.
Qed.

(** ** Inversion of monadic steps *)

Lemma bindM_inv {A B : Type} (m : M A) (k : A → M B) (w w' : World) (r : res B) :
  bindM m k w = (r, w') →
  (∃ a w1, m w = (Ok a, w1) ∧ k a w1 = (r, w'))
  ∨ (∃ e, m w = (Raise e, w') ∧ r = Raise e).
Proof.
  unfold bindM. destruct (m w) as [[a|e] w1]; intros H.
  - left. by exists a, w1.
  - right. exists e. by inversion H.
Qed.

Lemma bindM_inv_ok {A B : Type} (m : M A) (k : A → M B) (w w' : World) (b : B) :
  bindM m k w = (Ok b, w') →
  ∃ a w1, m w = (Ok a, w1) ∧ k a w1 = (Ok b, w').
Proof.
  intros H. apply bindM_inv in H as [H|[e [_ H]]]; [done|discriminate].
Qed.

(** ** isEqualTo *)

(** C4: [isEqualTo] answers True for two models that differ in their output
    variables, and for two models that differ in their leaky-relu, softmax
    and bilinear lists and in their property equations. *)
Theorem isEqualTo_misses_differences (ext : Collaborators) :
  isEqualTo Example.small_network Example.small_network_swapped_outputs = Ok true
  ∧ outputVars Example.small_network
      ≠ outputVars Example.small_network_swapped_outputs
  ∧ isEqualTo Example.small_network Example.small_network_more_constraints = Ok true
  ∧ leakyReluList Example.small_network
      ≠ leakyReluList Example.small_network_more_constraints
  ∧ softmaxList Example.small_network
      ≠ softmaxList Example.small_network_more_constraints
  ∧ bilinearList Example.small_network
      ≠ bilinearList Example.small_network_more_constraints.
Proof. repeat split; try reflexivity; discriminate. Qed.

(** ** Preconditions of the robustness search *)

(** The two checks at the head of the search only read the model. *)
Lemma compared_input_vars_run (w : World) :
  ∃ r, compared_input_vars w = (r, w)
    ∧ (∀ row, r = Ok row ↔ compared_with (net w) row)
    ∧ (inputVarsType (net w) = PyList → length (inputVars (net w)) ≠ 1%nat →
       r = Raise NotImplementedError)
    ∧ (inputVarsType (net w) = PyOther → r = Raise RuntimeError).
Proof.
  unfold compared_input_vars, compared_with, bindM, get_self, lift, raise.
  destruct (inputVarsType (net w)) eqn:Hty.
  - destruct (inputVars (net w)) as [|g [|g' gs]] eqn:Hin; simpl.
    + eexists. split; [done|]. split; [|done]. intros row.
      split; [done|]. intros [(_ & g0 & [=] & _)|([=] & _)].
    + destruct (Np.getitem g 0) as [row0|e] eqn:Hrow.
      * eexists. split; [done|]. split; [|split; [done|done]]. intros row.
        split.
        -- intros [= <-]. left. eauto.
        -- intros [(_ & g0 & [= <-] & Hg0)|([=] & _)]. congruence.
      * eexists. split; [done|]. split; [|split; [done|done]]. intros row.
        split; [done|].
        intros [(_ & g0 & [= <-] & Hg0)|([=] & _)]. congruence.
    + eexists. split; [done|]. split; [|done]. intros row.
      split; [done|]. intros [(_ & g0 & [=] & _)|([=] & _)].
  - unfold index. destruct (inputVars (net w) !! 0%nat) as [row0|] eqn:Hin.
    + eexists. split; [done|]. split; [|split; [done|done]]. intros row.
      split.
      * intros [= <-]. by right.
      * intros [([=] & _)|(_ & [= <-])]. done.
    + eexists. split; [done|]. split; [|split; [done|done]]. intros row.
      split; [done|]. intros [([=] & _)|(_ & [=])].
  - eexists. split; [done|]. split; [|done]. intros row.
    split; [done|]. intros [([=] & _)|([=] & _)].
Qed.

Lemma check_output_groups_run (w : World) :
  check_output_groups w
  = (match outputVarsType (net w) with
     | PyOther => Raise RuntimeError
     | _ => if bool_decide (length (outputVars (net w)) ≠ 1%nat)
            then Raise NotImplementedError else Ok tt
     end, w).
Proof.
  unfold check_output_groups, bindM, get_self, raise, pure.
  destruct (outputVarsType (net w)); try done;
    by destruct (bool_decide (length (outputVars (net w)) ≠ 1%nat)).
Qed.

(** The checks at the head of the search. *)
Lemma pin_input_rejects (w : World) (input : ndarray float) (epsilon : float) :
  (inputVarsType (net w) = PyList ∧ length (inputVars (net w)) ≠ 1%nat)
  ∨ inputVarsType (net w) = PyOther
  ∨ outputVarsType (net w) = PyOther
  ∨ length (outputVars (net w)) ≠ 1%nat
  ∨ (∃ row, compared_with (net w) row ∧ Np.shape row ≠ Np.shape input) →
  ∃ e, pin_input input epsilon w = (Raise e, w)
    ∧ (inputVarsType (net w) = PyList →
       length (inputVars (net w)) ≠ 1%nat → e = NotImplementedError)
    ∧ (inputVarsType (net w) = PyOther → e = RuntimeError)
    ∧ (∀ row, compared_with (net w) row →
         Np.shape row ≠ Np.shape input → e = RuntimeError)
    ∧ (∀ row, compared_with (net w) row → Np.shape row = Np.shape input →
         e = match outputVarsType (net w) with
             | PyOther => RuntimeError
             | _ => NotImplementedError
             end).
Proof.
  intros H. unfold pin_input.
  destruct (compared_input_vars_run w) as (r & Hrun & Hrow & Hcount & Hother).
  destruct r as [row0|e0].
  - (* the compared array exists *)
    assert (Hrow0 : compared_with (net w) row0) by by apply Hrow.
    assert (Huniq : ∀ row, compared_with (net w) row → row = row0).
    { intros row Hc. apply Hrow in Hc. by injection Hc. }
    erewrite bindM_ok by exact Hrun.
    destruct (decide (Np.shape row0 = Np.shape input)) as [Hsh|Hsh].
    + rewrite bool_decide_eq_false_2 by (intros Hne; by apply Hne).
      unfold bindM at 1. unfold pure at 1.
      unfold bindM at 1. rewrite check_output_groups_run.
      assert (Hout : outputVarsType (net w) = PyOther
                     ∨ length (outputVars (net w)) ≠ 1%nat).
      { destruct H as [[Hty Hlen]|[Hty|[Hty|[Hlen|(row & Hc & Hne)]]]]; auto.
        - specialize (Hcount Hty Hlen). discriminate.
        - specialize (Hother Hty). discriminate.
        - apply Huniq in Hc as ->. done. }
      exists (match outputVarsType (net w) with
              | PyOther => RuntimeError
              | _ => NotImplementedError
              end).
      split.
      { destruct (outputVarsType (net w)); try done;
          destruct Hout as [[=]|Hlen]; by rewrite bool_decide_eq_true_2. }
      split; [intros Hty Hlen; specialize (Hcount Hty Hlen); discriminate|].
      split; [intros Hty; specialize (Hother Hty); discriminate|].
      split; [|done]. intros row Hc Hne. apply Huniq in Hc as ->. done.
    + rewrite bool_decide_eq_true_2 by done. exists RuntimeError.
      split; [done|].
      split; [intros Hty Hlen; specialize (Hcount Hty Hlen); discriminate|].
      split; [done|]. split; [done|].
      intros row Hc Heq. apply Huniq in Hc as ->. done.
  - (* no array to compare with *)
    exists e0. split; [by apply bindM_raise|].
    split; [intros Hty Hlen; specialize (Hcount Hty Hlen); congruence|].
    split; [intros Hty; specialize (Hother Hty); congruence|].
    split; intros row Hc; apply Hrow in Hc; discriminate.
Qed.

(** C8, as the code has it: the search raises, leaving the model as it was
    and giving the solver nothing, whenever [inputVars] is a list that does
    not hold exactly one group, or [inputVars] or [outputVars] is neither a
    list nor an array, or [outputVars] does not hold exactly one group, or
    the shape of the given input differs from the shape of the array the
    code compares it with: [inputVars[0][0]], the first sub-array of the
    single group, for a list, and [inputVars[0]] for an array.  The number of
    groups of an array-held [inputVars] is not checked. *)
Theorem evaluateLocalRobustness_rejects {ext : Collaborators} (w : World)
    (input : ndarray float) (epsilon : float) (originalClass : Z)
    (verbose : bool) (options : option Options) (targetClass : option Z) :
  (inputVarsType (net w) = PyList ∧ length (inputVars (net w)) ≠ 1%nat)
  ∨ inputVarsType (net w) = PyOther
  ∨ outputVarsType (net w) = PyOther
  ∨ length (outputVars (net w)) ≠ 1%nat
  ∨ (∃ row, compared_with (net w) row ∧ Np.shape row ≠ Np.shape input) →
  ∃ e, evaluateLocalRobustness input epsilon originalClass verbose options
         targetClass w = (Raise e, w)
    ∧ (inputVarsType (net w) = PyList →
       length (inputVars (net w)) ≠ 1%nat → e = NotImplementedError)
    ∧ (inputVarsType (net w) = PyOther → e = RuntimeError)
    ∧ (∀ row, compared_with (net w) row →
         Np.shape row ≠ Np.shape input → e = RuntimeError)
    ∧ (∀ row, compared_with (net w) row → Np.shape row = Np.shape input →
         e = match outputVarsType (net w) with
             | PyOther => RuntimeError
             | _ => NotImplementedError
             end).
Proof.
  intros H.
  destruct (pin_input_rejects w input epsilon H) as (e & Hrun & Hkinds).
  exists e. split; [|exact Hkinds].
  unfold evaluateLocalRobustness. by apply bindM_raise.
Qed.

(** The batched input has the shape (1, 2) of the input group, not the shape
    (2,) of its first sub-array, and is rejected before any query. *)
Lemma evaluateLocalRobustness_rejects_witness :
  ∃ e, @evaluateLocalRobustness Example.unsat_solver Example.small_input_batched
         0.25%float 0 true None None Example.small_world
       = (Raise e, Example.small_world)
    ∧ e = RuntimeError.
Proof.
  assert (Hrow : compared_with (net Example.small_world)
                   (NdArray [2]%nat [0; 1]%Z)).
  { left. split; [reflexivity|]. eexists. split; reflexivity. }
  destruct (@evaluateLocalRobustness_rejects Example.unsat_solver
              Example.small_world Example.small_input_batched 0.25%float 0%Z
              true None None) as (e & Hrun & _ & _ & Hshape & _).
  - do 4 right. eexists. split; [exact Hrow|]. simpl. discriminate.
  - exists e. split; [exact Hrun|].
    eapply Hshape; [exact Hrow|simpl; discriminate].
Defined.

(** C8, as stated, fails: an input of shape (2,) differs from the shape
    (1, 2) of the single input group, and the search neither raises nor
    stays silent towards the solver. *)
Lemma evaluateLocalRobustness_group_shape_counterexample :
  let run := @evaluateLocalRobustness Example.unsat_solver Example.small_input
               0.25%float 0 true None None Example.small_world in
  inputVars (net Example.small_world) = [NdArray [1; 2]%nat [0; 1]%Z]
  ∧ Np.shape Example.small_input ≠ [1; 2]%nat
  ∧ (∃ vals, run.1 = Ok (vals, false, None))
  ∧ length (solverLog run.2) = 1%nat.
Proof.
  split; [reflexivity|]. split; [discriminate|].
  split; [eexists; vm_compute; reflexivity|]. vm_compute. reflexivity.
Qed.

(** ** solve *)

(** One call of [solve] without a property file: either compilation raises
    and nothing else happens, or the compiled query is given to the solver
    once and the solver's answer is returned, unless printing it raises. *)
Lemma solve_cases {ext : Collaborators} (filename : string) (verbose : bool)
    (options : option Options) (w : World) :
  match Compile.query (net w) with
  | Raise e => solve filename verbose options "" w = (Raise e, w)
  | Ok q =>
      let r := MarabouCore_solve q (default Options_default options) filename in
      let w1 := mkWorld (net w) (solverLog w ++ [q]) in
      solve filename verbose options "" w = (Ok r, w1)
      ∨ (verbose = true ∧ r.1.1 = "sat"%string
         ∧ ∃ e, solve filename verbose options "" w = (Raise e, w1))
  end.
Proof.
  destruct (Compile.query (net w)) as [q|e] eqn:Hq.
  - unfold solve, bindM. rewrite getMarabouQuery_run, Hq.
    unfold log_query, get_self, lift, pure. simpl.
    destruct verbose; [|by left].
    destruct (bool_decide (_ = "sat"%string)) eqn:Hsat; [|by left].
    apply bool_decide_eq_true in Hsat. simpl.
    destruct (print_vals _ (inputVars (net w))) as [[]|e1]; [|right; eauto].
    destruct (print_vals _ (outputVars (net w))) as [[]|e2]; [by left|right; eauto].
  - unfold solve, bindM. by rewrite getMarabouQuery_run, Hq.
Qed.

(** ** The targeted search *)

Lemma targeted_silent {ext : Collaborators} (row start : ndarray Z)
    (options : Options) (t : Z) (w w' : World)
    (found : option (gmap Z float * Statistics) * option Z) :
  targeted row start false options t w = (Ok found, w') → found.2 = None.
Proof.
  unfold targeted. intros H.
  apply bindM_inv_ok in H as (elements & w1 & _ & H).
  apply bindM_inv_ok in H as (s & w2 & _ & H).
  apply bindM_inv_ok in H as ([] & w3 & _ & H).
  apply bindM_inv_ok in H as (r & w4 & _ & H).
  unfold pure in H. by inversion H.
Qed.

(** With [verbose] off, the targeted search never names a class, whatever
    the solver answered. *)
Lemma evaluateLocalRobustness_targeted_silent {ext : Collaborators} (w w' : World)
    (input : ndarray float) (epsilon : float) (originalClass t : Z)
    (options : option Options) (vals : gmap Z float) (stats : Statistics)
    (maxClass : option Z) :
  evaluateLocalRobustness input epsilon originalClass false options (Some t) w
    = (Ok (vals, stats, maxClass), w') →
  maxClass = None.
Proof.
  unfold evaluateLocalRobustness. intros H.
  apply bindM_inv_ok in H as (located & w1 & _ & H).
  apply bindM_inv_ok in H as (found & w2 & Hfound & H).
  apply targeted_silent in Hfound.
  apply bindM_inv_ok in H as ([] & w3 & _ & H).
  destruct found as [[[vals' stats']|] mc]; simpl in *; [|discriminate].
  unfold pure in H. inversion H. by subst.
Qed.

(** C3: on a model whose every query the solver satisfies, without a timeout,
    the targeted search for class 1 adds one Max record over both output
    variables and submits one query; called with [verbose] off it reports no
    class, called with [verbose] on it reports class 1. *)
Theorem evaluateLocalRobustness_targeted_needs_verbose :
  let run verbose :=
    @evaluateLocalRobustness Example.sat_solver Example.small_input 0.25%float 0
      verbose None (Some 1%Z) Example.small_world in
  (∃ vals, (run false).1 = Ok (vals, false, None) ∧ nonempty vals = true)
  ∧ (∃ vals, (run true).1 = Ok (vals, false, Some 1%Z) ∧ nonempty vals = true)
  ∧ maxList (net (run false).2) = [({[2%Z; 3%Z]}, 3%Z)]
  ∧ length (solverLog (run false).2) = 1%nat.
Proof.
  split; [|split; [|split]].
  - eexists. split; vm_compute; reflexivity.
  - eexists. split; vm_compute; reflexivity.
  - vm_compute. reflexivity.
  - vm_compute. reflexivity.
Qed.

(** ** findError *)

(** Indexing two lists of equal length over [range(len)] visits their
    elements in pairs. *)
Lemma map_res_index_pairs {A B C : Type} (F : A → B → res C)
    (l1 : list A) (l2 : list B) (p1 : list A) (p2 : list B) :
  length p1 = length p2 → length l1 = length l2 →
  map_res (λ i, let? a := index (p1 ++ l1) i in
                let? b := index (p2 ++ l2) i in F a b)
          (seq (length p1) (length l1))
  = map_res (λ ab, F ab.1 ab.2) (zip l1 l2).
Proof.
  revert l2 p1 p2. induction l1 as [|a l1 IH]; intros [|b l2] p1 p2 Hp Hl;
    try discriminate; [done|].
  simpl. unfold index at 1 2.
  rewrite list_lookup_middle by done. rewrite list_lookup_middle by done.
  simpl. f_equal.
  specialize (IH l2 (p1 ++ [a]) (p2 ++ [b])).
  rewrite !length_app in IH. simpl in IH.
  rewrite <- !app_assoc in IH. simpl in IH.
  rewrite Nat.add_1_r in IH. rewrite IH; [done|lia|].
  simpl in Hl. lia.
Qed.

Lemma np_abs_subtract_same_shape {ext : Collaborators} (l1 l2 : list (ndarray float)) :
  Forall2 (λ a b, Np.shape a = Np.shape b) l1 l2 →
  map_res (λ ab : ndarray float * ndarray float,
             let? d := np_subtract ab.1 ab.2 in Ok (np_abs d)) (zip l1 l2)
  = Ok (zip_with (λ a b,
          NdArray (Np.shape a)
            (zip_with (λ x y, PrimFloat.abs (PrimFloat.sub x y))
                      (Np.data a) (Np.data b))) l1 l2).
Proof.
  induction 1 as [|a b l1 l2 Hab _ IH]; [done|].
  simpl. rewrite IH. unfold np_subtract at 1.
  rewrite bool_decide_eq_true_2 by done. simpl.
  unfold np_abs. simpl. do 3 f_equal.
  generalize (Np.data b). induction (Np.data a) as [|x xs IHx]; intros [|y ys];
    simpl; try done. by rewrite IHx.
Qed.

(** What [findError] does once both evaluators have reported. *)
Lemma findError_run {ext : Collaborators} (w w1 : World)
    (inputValues : list (ndarray float)) (options : option Options)
    (filename : string) (outMar outNotMar : list (ndarray float)) :
  evaluateWithMarabou inputValues filename options w = (Ok (Some outMar), w1) →
  evaluateWithoutMarabou inputValues = Ok outNotMar →
  findError inputValues options filename w
  = (if Nat.eqb (length outMar) (length outNotMar)
     then map_res (λ ab : ndarray float * ndarray float,
                     let? d := np_subtract ab.1 ab.2 in Ok (np_abs d))
                  (zip outMar outNotMar)
     else Raise AssertionError, w1).
Proof.
  intros Hmar Href. unfold findError.
  rewrite (bindM_ok _ _ w w1 (Some outMar)) by exact Hmar.
  unfold evaluate at 1. rewrite Href.
  unfold bindM, lift, pure. simpl.
  destruct (Nat.eqb (length outMar) (length outNotMar)) eqn:Hlen; [|done].
  simpl. apply Nat.eqb_eq in Hlen. f_equal.
  exact (map_res_index_pairs
           (λ a b, let? d := np_subtract a b in Ok (np_abs d))
           outMar outNotMar [] [] eq_refl Hlen).
Qed.

(** C9: when the solver-based evaluation and the reference evaluation both
    report, [findError] raises if they report different numbers of output
    groups, and otherwise returns for each group the elementwise absolute
    difference of the two results (for groups of matching shapes). *)
Theorem findError_spec {ext : Collaborators} (w w1 : World)
    (inputValues : list (ndarray float)) (options : option Options)
    (filename : string) (outMar outNotMar : list (ndarray float)) :
  evaluateWithMarabou inputValues filename options w = (Ok (Some outMar), w1) →
  evaluateWithoutMarabou inputValues = Ok outNotMar →
  (length outMar ≠ length outNotMar →
     findError inputValues options filename w = (Raise AssertionError, w1))
  ∧ (Forall2 (λ a b, Np.shape a = Np.shape b) outMar outNotMar →
     findError inputValues options filename w
     = (Ok (zip_with (λ a b,
              NdArray (Np.shape a)
                (zip_with (λ x y, PrimFloat.abs (PrimFloat.sub x y))
                          (Np.data a) (Np.data b))) outMar outNotMar), w1)).
Proof.
  intros Hmar Href.
  rewrite (findError_run w w1 inputValues options filename outMar outNotMar)
    by done.
  split.
  - intros Hne. apply Nat.eqb_neq in Hne. by rewrite Hne.
  - intros Hshapes. rewrite (proj2 (Nat.eqb_eq _ _))
      by (by eapply Forall2_length).
    by rewrite np_abs_subtract_same_shape.
Qed.

(** The solver gives 0 to both output variables and the reference evaluator
    reports 1.5 and -2: the error is 1.5 and 2.  With a reference evaluator
    that reports no group at all, the comparison raises. *)
Lemma findError_spec_witness :
  @findError Example.sat_solver_with_reference [Example.small_input_batched]
     None "" Example.small_world
  = (Ok [NdArray [1; 2]%nat [1.5%float; 2%float]],
     (@evaluateWithMarabou Example.sat_solver_with_reference
        [Example.small_input_batched] "" None Example.small_world).2)
  ∧ (@findError Example.sat_solver [Example.small_input_batched]
       None "" Example.small_world).1 = Raise AssertionError.
Proof.
  split.
  - refine (proj2 (@findError_spec Example.sat_solver_with_reference
              Example.small_world _ [Example.small_input_batched] None ""
              [NdArray [1; 2]%nat [0%float; 0%float]]
              [NdArray [1; 2]%nat [1.5%float; (-2)%float]] _ _) _).
    + vm_compute. reflexivity.
    + reflexivity.
    + repeat constructor.
  - refine (eq_trans (f_equal fst (proj1 (@findError_spec Example.sat_solver
              Example.small_world _ [Example.small_input_batched] None ""
              [NdArray [1; 2]%nat [0%float; 0%float]] [] _ _) _)) _).
    + vm_compute. reflexivity.
    + reflexivity.
    + simpl. lia.
    + reflexivity.
Defined.

(** ** The untargeted search *)

Lemma with_bounds_id (self : MarabouNetwork) :
  with_bounds self (lowerBounds self) (upperBounds self) = self.
Proof. by destruct self. Qed.

Lemma bounds_only_refl (w : World) : bounds_only w w.
Proof. split; [done|]. eexists _, _. symmetry. apply with_bounds_id. Qed.

Lemma bounds_only_trans (w1 w2 w3 : World) :
  bounds_only w1 w2 → bounds_only w2 w3 → bounds_only w1 w3.
Proof.
  intros [Hl1 (lb1 & ub1 & Hn1)] [Hl2 (lb2 & ub2 & Hn2)].
  split; [congruence|]. exists lb2, ub2. rewrite Hn2, Hn1. done.
Qed.

Lemma for_eachM_bounds_only {A : Type} (body : A → M unit) (l : list A) :
  (∀ x w r w', body x w = (r, w') → bounds_only w w') →
  ∀ w r w', for_eachM body l w = (r, w') → bounds_only w w'.
Proof.
  intros Hbody. induction l as [|x l IH]; intros w r w' H.
  - inversion H. apply bounds_only_refl.
  - simpl in H. apply bindM_inv in H as [([] & w1 & Hx & H)|(e & Hx & _)].
    + eapply bounds_only_trans; eauto.
    + eauto.
Qed.

Lemma lift_bind_bounds_only {A B : Type} (r0 : res A) (k : A → M B) :
  (∀ a w r w', k a w = (r, w') → bounds_only w w') →
  ∀ w r w', bindM (lift r0) k w = (r, w') → bounds_only w w'.
Proof.
  intros Hk w r w' H. rewrite bindM_lift in H. destruct r0 as [a|e].
  - eauto.
  - inversion H. apply bounds_only_refl.
Qed.

Lemma setLowerBound_bounds_only (x : Z) (v : float) (w : World) :
  bounds_only w (setLowerBound x v w).2.
Proof.
  split; [done|]. exists (<[x := v]> (lowerBounds (net w))), (upperBounds (net w)).
  simpl. by destruct (net w).
Qed.

Lemma setUpperBound_bounds_only (x : Z) (v : float) (w : World) :
  bounds_only w (setUpperBound x v w).2.
Proof.
  split; [done|]. exists (lowerBounds (net w)), (<[x := v]> (upperBounds (net w))).
  simpl. by destruct (net w).
Qed.

Section Loop.
Context {ext : Collaborators}.
Variables (startArr : ndarray Z) (start originalClass : Z) (options : Options).
Hypothesis Hstart : Np.as_scalar startArr = Ok start.

Lemma untargeted_loop_spec (idxs : list nat)
    (last0 : option (gmap Z float * Statistics)) (w w' : World)
    (result : res (option (gmap Z float * Statistics) * option Z)) :
  untargeted_loop startArr originalClass options idxs last0 w = (result, w') →
  ∃ tried qs,
    tried `prefix_of` candidates originalClass idxs
    ∧ solverLog w' = solverLog w ++ qs
    ∧ length qs = length tried
    ∧ (∀ k q, qs !! k = Some q →
         Compile.query (with_max (net w)
            (candidate_max start originalClass <$> take (S k) tried)) = Ok q)
    ∧ (∀ k q, qs !! k = Some q → S k < length qs → undecided options q)
    ∧ (∀ found maxClass, result = Ok (found, maxClass) →
         (tried = [] →
            found = last0 ∧ maxClass = None
            ∧ candidates originalClass idxs = [])
         ∧ (∀ c q, last tried = Some c → last qs = Some q →
              found = Some ((answer options q).1.2, (answer options q).2)
              ∧ (hasTimedOut (answer options q).2 = true → maxClass = None)
              ∧ (hasTimedOut (answer options q).2 = false →
                 nonempty (answer options q).1.2 = true →
                 maxClass = Some (Z.of_nat c))
              ∧ (undecided options q →
                 maxClass = None ∧ tried = candidates originalClass idxs))).
Proof.
  revert last0 w. induction idxs as [|idx rest IH]; intros last0 w Hrun.
  - simpl in Hrun. unfold pure in Hrun. inversion Hrun; subst.
    exists [], []. split; [apply prefix_nil|].
    split; [by rewrite app_nil_r|]. split; [done|].
    split; [done|]. split; [done|].
    intros found mc [= <- <-]. split; [done|]. intros c q [=].
  - simpl in Hrun. unfold candidates. rewrite filter_cons.
    destruct (decide (Z.of_nat idx ≠ originalClass)) as [Hne|Heq].
    2: { rewrite bool_decide_eq_false_2 in Hrun by done. by apply IH in Hrun. }
    rewrite bool_decide_eq_true_2 in Hrun by done.
    rewrite bindM_lift, Hstart in Hrun.
    unfold bindM at 1 in Hrun. unfold addMaxConstraint, modify_self in Hrun.
    set (w1 := mkWorld _ (solverLog w)) in Hrun.
    assert (Hw1 : net w1 = with_max (net w) [candidate_max start originalClass idx])
      by done.
    pose proof (solve_cases "" true (Some options) w1) as Hsolve.
    destruct (Compile.query (net w1)) as [q|e] eqn:Hq.
    + assert (Hq1 : Compile.query
                      (with_max (net w) [candidate_max start originalClass idx])
                    = Ok q) by (by rewrite <- Hw1).
      simpl in Hsolve. fold (answer options q) in Hsolve.
      set (w2 := mkWorld (net w1) (solverLog w1 ++ [q])) in Hsolve.
      destruct Hsolve as [Hsolve|(_ & _ & e & Hsolve)].
      * rewrite (bindM_ok _ _ _ _ _ Hsolve) in Hrun.
        destruct (hasTimedOut (answer options q).2) eqn:Hto;
          [|destruct (nonempty (answer options q).1.2) eqn:Hne'].
        -- unfold pure in Hrun. inversion Hrun; subst result w'.
           exists [idx], [q]. split; [apply prefix_cons, prefix_nil|].
           split; [done|]. split; [done|]. split; [|split].
           ++ intros [|k] q' Hk; [|done]. injection Hk as <-. exact Hq1.
           ++ intros [|k] q' Hk Hlt; simpl in Hlt; lia.
           ++ intros found mc [= <- <-]. split; [done|].
              intros c q' [= <-] [= <-]. split; [done|]. split; [done|].
              split; [congruence|]. intros [Hu _]. congruence.
        -- unfold pure in Hrun. inversion Hrun; subst result w'.
           exists [idx], [q]. split; [apply prefix_cons, prefix_nil|].
           split; [done|]. split; [done|]. split; [|split].
           ++ intros [|k] q' Hk; [|done]. injection Hk as <-. exact Hq1.
           ++ intros [|k] q' Hk Hlt; simpl in Hlt; lia.
           ++ intros found mc [= <- <-]. split; [done|].
              intros c q' [= <-] [= <-]. split; [done|]. split; [congruence|].
              split; [done|]. intros [_ Hu]. congruence.
        -- apply IH in Hrun as (tried & qs & Hpre & Hlog & Hlen & Hqs & Hund & Hok).
           exists (idx :: tried), (q :: qs).
           split; [by apply prefix_cons|].
           split; [rewrite Hlog; simpl; by rewrite <- app_assoc|].
           split; [simpl; by rewrite Hlen|]. split; [|split].
           ++ intros [|k] q' Hk.
              ** injection Hk as <-. exact Hq1.
              ** apply (Hqs k) in Hk. rewrite <- Hk. f_equal.
                 unfold with_max, set_maxList. simpl. f_equal.
                 by rewrite <- app_assoc.
           ++ intros [|k] q' Hk Hlt.
              ** injection Hk as <-. done.
              ** simpl in Hk, Hlt. apply (Hund k); [done|lia].
           ++ intros found mc Hres. destruct (Hok found mc Hres) as [Hnil Hlast].
              split; [done|]. intros c q'.
              destruct tried as [|c' tried].
              ** destruct qs; [|done]. intros [= <-] [= <-].
                 destruct (Hnil eq_refl) as (-> & -> & Hcand).
                 split; [done|]. split; [done|]. split; [congruence|].
                 intros _. split; [done|]. unfold candidates in Hcand.
                 by rewrite Hcand.
              ** destruct qs as [|q'' qs]; [done|].
                 rewrite !last_cons_cons. intros Hc Hq'.
                 destruct (Hlast c q' Hc Hq') as (Hf & Hto' & Hsat & Hu).
                 split; [done|]. split; [done|]. split; [done|].
                 intros Hund'. destruct (Hu Hund') as [-> Htr].
                 split; [done|]. unfold candidates in Htr. by rewrite Htr.
      * rewrite (bindM_raise _ _ _ _ _ Hsolve) in Hrun.
        inversion Hrun; subst result w'.
        exists [idx], [q]. split; [apply prefix_cons, prefix_nil|].
        split; [done|]. split; [done|]. split; [|split].
        -- intros [|k] q' Hk; [|done]. injection Hk as <-. exact Hq1.
        -- intros [|k] q' Hk Hlt; simpl in Hlt; lia.
        -- intros found mc [=].
    + rewrite (bindM_raise _ _ _ _ _ Hsolve) in Hrun.
      inversion Hrun; subst result w'.
      exists [], []. split; [apply prefix_nil|].
      split; [by rewrite app_nil_r|]. split; [done|]. split; [|split].
      * intros k q' Hk. done.
      * intros k q' Hk. done.
      * intros found mc [=].
Qed.
End Loop.

Lemma with_bounds_outputVars (self : MarabouNetwork) (lb ub : gmap Z float) :
  outputVars (with_bounds self lb ub) = outputVars self.
Proof. done. Qed.

Section Search.
Context {ext : Collaborators}.

(** Leaving the search before the first query. *)
Lemma search_without_query (w w' : World) (originalClass start : Z) (n : nat)
    (options : Options)
    (result : res (gmap Z float * Statistics * option Z)) :
  bounds_only w w' → (∀ v, result ≠ Ok v) →
  search_outcome options originalClass start n w w' result.
Proof.
  intros [Hlog (lb & ub & Hnet)] Hraise. unfold search_outcome.
  exists (net w'), [], []. split; [eauto|]. split; [apply prefix_nil|].
  split; [by rewrite app_nil_r|]. split; [done|]. split; [done|].
  split; [done|]. intros vals stats mc Hres. by destruct (Hraise _ Hres).
Qed.

(** The verbose report at the end of the search changes nothing. *)
Lemma report_frame (verbose : bool)
    (found : option (gmap Z float * Statistics)) (w w' : World) (r : res unit) :
  report verbose found w = (r, w') → w' = w.
Proof.
  unfold report.
  destruct verbose; [|by inversion 1].
  destruct found as [[vals stats]|]; [|by inversion 1].
  destruct (hasTimedOut stats); [by inversion 1|].
  destruct (nonempty vals); [|by inversion 1].
  unfold bindM, get_self, lift.
  destruct (index (inputVars (net w)) 0); [|by inversion 1].
  destruct (print_rows vals _); [|by inversion 1].
  destruct (index (outputVars (net w)) 0); [|by inversion 1].
  by inversion 1.
Qed.

(** The head of the search changes bounds only, and what it returns is the
    first row of the output group and that row's first entry. *)
Lemma pin_input_spec (w w' : World) (input : ndarray float) (epsilon : float)
    (r : res (ndarray Z * ndarray Z)) :
  pin_input input epsilon w = (r, w') →
  bounds_only w w'
  ∧ ∀ row startArr, r = Ok (row, startArr) →
      output_row (net w) = Ok row ∧ Np.getitem row 0 = Ok startArr.
Proof.
  unfold pin_input. intros H.
  destruct (compared_input_vars_run w) as (r0 & Hrun & _).
  apply bindM_inv in H as [(inputVars0 & w2 & Hin & H)|(e & Hin & ->)].
  2: { split; [|done]. rewrite Hrun in Hin. injection Hin as _ <-.
       apply bounds_only_refl. }
  assert (w2 = w) as -> by (rewrite Hrun in Hin; by injection Hin).
  clear r0 Hrun Hin.
  apply bindM_inv in H as [([] & w3 & Hsh & H)|(e & Hsh & ->)].
  2: { split; [|done].
       destruct (bool_decide _); inversion Hsh; apply bounds_only_refl. }
  assert (w3 = w) as -> by (destruct (bool_decide _); by inversion Hsh).
  apply bindM_inv in H as [([] & w4 & Hout & H)|(e & Hout & ->)].
  2: { split; [|done]. rewrite check_output_groups_run in Hout.
       injection Hout as _ <-. apply bounds_only_refl. }
  assert (w4 = w) as ->
    by (rewrite check_output_groups_run in Hout; by injection Hout).
  assert (Hpin : ∀ r w5,
    for_eachM (λ i,
        x <- lift (index (Np.flatten inputVars0) i) ;;
        v <- lift (index (Np.flatten input) i) ;;
        setLowerBound x (PrimFloat.sub v epsilon) ;;
        x <- lift (index (Np.flatten inputVars0) i) ;;
        v <- lift (index (Np.flatten input) i) ;;
        setUpperBound x (PrimFloat.add v epsilon))
      (seq 0 (length (Np.flatten input))) w = (r, w5) → bounds_only w w5).
  { intros r0 w5. apply for_eachM_bounds_only. clear.
    intros i w r w'. apply lift_bind_bounds_only. intros x.
    apply lift_bind_bounds_only. intros v w0 r0 w0' Hb.
    apply bindM_inv in Hb as [([] & w1 & [= <-] & Hb)|(e & [=] & _)].
    eapply bounds_only_trans;
      [apply (setLowerBound_bounds_only x (PrimFloat.sub v epsilon))|].
    revert Hb. apply lift_bind_bounds_only. intros x'.
    apply lift_bind_bounds_only. intros v' w2 r2 w2' [= <- <-].
    apply (setUpperBound_bounds_only x' (PrimFloat.add v' epsilon)). }
  apply bindM_inv in H as [([] & w5 & Hb & H)|(e & Hb & ->)].
  2: { split; [|done]. eapply Hpin, Hb. }
  apply Hpin in Hb. clear Hpin. destruct Hb as [Hlog5 (lb & ub & Hnet5)].
  assert (Hb : bounds_only w w5) by (split; eauto).
  apply bindM_inv in H as [(self & w6 & [= <- <-] & H)|(e & [=] & _)].
  unfold output_row. rewrite <- (with_bounds_outputVars _ lb ub), <- Hnet5.
  rewrite bindM_lift in H.
  destruct (index (outputVars (net w5)) 0) as [out0|e];
    [|inversion H; by subst].
  simpl. rewrite bindM_lift in H.
  destruct (Np.getitem out0 0) as [row0|e]; [|inversion H; by subst].
  rewrite bindM_lift in H.
  destruct (Np.getitem row0 0) as [startArr0|e] eqn:Hs; [|inversion H; by subst].
  inversion H; subst. split; [done|]. intros row startArr [= <- <-]. done.
Qed.

(** Without a target class the search tries the classes other than
    [originalClass] in ascending order, one query each, on a model that keeps
    the Max records of the classes tried before; a run that returns has
    stopped at the first answer with a timeout (naming no class) or with an
    assignment (naming that class), or has tried every candidate and names
    no class. *)
Lemma untargeted_search (w w' : World) (input : ndarray float)
    (epsilon : float) (originalClass : Z) (verbose : bool)
    (options : option Options)
    (result : res (gmap Z float * Statistics * option Z))
    (row : ndarray Z) (n : nat) (start : Z) :
  output_row (net w) = Ok row → Np.len row = Ok n → output_start row = Ok start →
  evaluateLocalRobustness input epsilon originalClass verbose options None w
    = (result, w') →
  search_outcome (default Options_default options) originalClass start n
    w w' result.
Proof.
  intros Hrow Hn Hstart H. unfold evaluateLocalRobustness in H.
  set (opts := default Options_default options) in *.
  apply bindM_inv in H as [(located & w5 & Hpin & H)|(e & Hpin & ->)].
  2: { apply search_without_query; [|done].
       apply pin_input_spec in Hpin as [Hb _]. exact Hb. }
  unfold search_outcome.
  apply pin_input_spec in Hpin as [[Hlog5 (lb & ub & Hnet5)] Hloc].
  destruct located as [row' startArr].
  destruct (Hloc row' startArr eq_refl) as [Hrow' HstartArr]. clear Hloc.
  rewrite Hrow in Hrow'. injection Hrow' as <-.
  unfold output_start in Hstart. rewrite HstartArr in Hstart.
  simpl in Hstart, H.
  (* the loop *)
  apply bindM_inv in H as [(found & w7 & Hloop & H)|(e & Hloop & ->)].
  - rewrite bindM_lift, Hn in Hloop.
    apply (untargeted_loop_spec startArr start originalClass opts Hstart)
      in Hloop as (tried & qs & Hpre & Hlog & Hlen & Hqs & Hund & Hok).
    destruct (Hok found.1 found.2) as [Hnil Hlast]; [by destruct found|].
    apply bindM_inv in H as [([] & w8 & Hrep & H)|(e & Hrep & ->)].
    + apply report_frame in Hrep as ->.
      exists (net w5), tried, qs. split; [eauto|]. split; [done|].
      destruct found as [[[vals0 stats0]|] mc]; simpl in *.
      * inversion H; subst result w'.
        split; [congruence|]. split; [done|]. split; [done|]. split; [done|].
        intros vals stats maxClass [= <- <- <-].
        destruct (last tried) as [c|] eqn:Hc.
        2: { apply last_None in Hc. by destruct (Hnil Hc). }
        destruct (last qs) as [q|] eqn:Hq.
        2: { apply last_None in Hq. subst qs. destruct tried; done. }
        destruct (Hlast c q eq_refl eq_refl) as ([= -> ->] & Hto & Hsat & Hu).
        exists c, q. split; [done|]. split; [done|]. split; [done|].
        split; [done|]. split; [done|]. split; [done|].
        intros ??. by apply Hu.
      * inversion H; subst result w'.
        split; [congruence|]. split; [done|]. split; [done|]. split; [done|].
        intros ??? [=].
    + apply report_frame in Hrep as ->.
      exists (net w5), tried, qs. split; [eauto|]. split; [done|].
      split; [congruence|]. split; [done|]. split; [done|]. split; [done|].
      intros ??? [=].
  - rewrite bindM_lift, Hn in Hloop.
    apply (untargeted_loop_spec startArr start originalClass opts Hstart)
      in Hloop as (tried & qs & Hpre & Hlog & Hlen & Hqs & Hund & Hok).
    exists (net w5), tried, qs. split; [eauto|]. split; [done|].
    split; [congruence|]. split; [done|]. split; [done|]. split; [done|].
    intros ??? [=].
Qed.
End Search.

(** Three output classes, class 0 the original one: the solver satisfies the
    query for class 1, which is reported after a single query; class 2 is
    never tried. *)
Lemma untargeted_search_witness :
  let run := @evaluateLocalRobustness (Example.solver_by_class 3 (-1))
               Example.small_input 0.25%float 0 true None None
               Example.three_class_world in
  @search_outcome (Example.solver_by_class 3 (-1)) tt 0%Z 2%Z 3%nat
    Example.three_class_world run.2 run.1.
Proof.
  exact (@untargeted_search (Example.solver_by_class 3 (-1))
           Example.three_class_world _ Example.small_input 0.25%float 0%Z true
           None _ (NdArray [3]%nat [2; 3; 4]%Z) 3%nat 2%Z
           eq_refl eq_refl eq_refl (surjective_pairing _)).
Defined.

(** The search on three classes under four solvers: class 1 satisfiable
    (original class 0); class 2 satisfiable after class 0 was not (original
    class 1); a timeout on the first candidate; nothing satisfiable.  Each
    line gives the reported class, the timed-out flag and the output
    variables the submitted queries asked about. *)
Example untargeted_search_runs :
  let run (sat_var timeout_var originalClass : Z) :=
    @evaluateLocalRobustness (Example.solver_by_class sat_var timeout_var)
      Example.small_input 0.25%float originalClass true None None
      Example.three_class_world in
  let summary (sat_var timeout_var originalClass : Z)
      : option (option Z * bool) * list (option Z) :=
    (match (run sat_var timeout_var originalClass).1 with
     | Ok (_, stats, maxClass) => Some (maxClass, stats)
     | Raise _ => None
     end,
     Example.newest_max <$> solverLog (run sat_var timeout_var originalClass).2) in
  (summary 3 (-1) 0 = (Some (Some 1, false), [Some 3])
  ∧ summary 4 (-1) 1 = (Some (Some 2, false), [Some 2; Some 4])
  ∧ summary 4 3 0 = (Some (None, true), [Some 3])
  ∧ summary (-1) (-1) 0 = (Some (None, false), [Some 3; Some 4]))%Z.
Proof. repeat split; vm_compute; reflexivity. Qed.

(** C2: on a model with a single output class, which is the original
    class, no candidate is left and nothing is asked of the solver.  The
    search then does not report that no class violates robustness: it raises
    UnboundLocalError with either setting of [verbose], since [vals] and
    [stats] are assigned only inside the loop over the candidates.  With a
    second class, which the solver finds unsatisfiable, the same search
    returns and names no class. *)
Theorem untargeted_search_unbound_without_candidates :
  let run (verbose : bool) :=
    @evaluateLocalRobustness Example.unsat_solver Cases.wide_input 0.25%float
      0 verbose None None Cases.one_class_world in
  let two_classes :=
    @evaluateLocalRobustness Example.unsat_solver Example.small_input
      0.25%float 0 false None None Example.small_world in
  candidates 0 (seq 0 1) = []
  ∧ (run true).1 = Raise UnboundLocalError
  ∧ (run false).1 = Raise UnboundLocalError
  ∧ solverLog (run true).2 = []
  ∧ solverLog (run false).2 = []
  ∧ two_classes.1 = Ok (∅, false, None)
  ∧ length (solverLog two_classes.2) = 1%nat.
Proof. repeat split; vm_compute; reflexivity. Qed.

(** ** The targeted search, in general *)


(** * Further properties *)

(** ** Building the model *)

Lemma set_numVars_twice (self : MarabouNetwork) (a b : Z) :
  set_numVars (set_numVars self a) b = set_numVars self b.
Proof. done. Qed.

Lemma set_numVars_same (self : MarabouNetwork) :
  set_numVars self (numVars self) = self.
Proof. by destruct self. Qed.

(** X1: [k] calls of [getNewVariable] in a row return the [k] consecutive
    identifiers starting at the old [numVars], in order, and leave [numVars]
    raised by [k] and everything else as it was: no identifier is handed out
    twice. *)
Theorem getNewVariable_consecutive (k : nat) (w : World) :
  repeatM k getNewVariable w
  = (Ok ((λ i : nat, (numVars (net w) + Z.of_nat i)%Z) <$> seq 0 k),
     mkWorld (set_numVars (net w) (numVars (net w) + Z.of_nat k)) (solverLog w)).
Proof.
  revert w. induction k as [|k IH]; intros w.
  - simpl. unfold pure. rewrite Z.add_0_r, set_numVars_same. by destruct w.
  - simpl. unfold bindM at 1.
    change (getNewVariable w)
      with (Ok (numVars (net w) + 1 - 1)%Z,
            mkWorld (set_numVars (net w) (numVars (net w) + 1)) (solverLog w)).
    unfold bindM at 1. rewrite IH. unfold pure. simpl.
    f_equal; [f_equal; f_equal|].
    + lia.
    + rewrite <- fmap_S_seq, <- list_fmap_compose. apply list_fmap_ext.
      intros i x _. simpl. lia.
    + f_equal. f_equal. lia.
Qed.

Lemma map_res_pairs_ok {A B : Type} (l1 : list A) (l2 : list B) :
  map_res (λ ab : A * B, Ok (ab.1, ab.2)) (zip l1 l2) = Ok (zip l1 l2).
Proof.
  revert l2. induction l1 as [|a l1 IH]; intros [|b l2]; simpl; try done.
  by rewrite IH.
Qed.

Lemma build_equation_zip (ty : EqType) (vars : list Z) (coeffs : list float)
    (scalar : float) :
  length vars = length coeffs →
  build_equation ty vars coeffs scalar
  = Ok (mkEquation ty (zip coeffs vars) scalar).
Proof.
  intros Hlen. unfold build_equation. rewrite Hlen.
  pose proof (map_res_index_pairs (λ (c : float) (x : Z), Ok (c, x))
                coeffs vars [] [] eq_refl (eq_sym Hlen)) as H.
  cbn [app length] in H. rewrite H. by rewrite map_res_pairs_ok.
Qed.

(** The model with one more equation in the list [isProperty] selects. *)
Lemma addEquation_run (e : Equation) (isProperty : bool) (w : World) :
  addEquation e isProperty w
  = (Ok tt,
     mkWorld (if isProperty
              then set_additionalEquList (net w) (additionalEquList (net w) ++ [e])
              else set_equList (net w) (equList (net w) ++ [e]))
       (solverLog w)).
Proof. by destruct isProperty. Qed.

Lemma addEquality_run (vars : list Z) (coeffs : list float) (scalar : float)
    (isProperty : bool) (w : World) :
  length vars = length coeffs →
  addEquality vars coeffs scalar isProperty w
  = addEquation (mkEquation EQ (zip coeffs vars) scalar) isProperty w.
Proof.
  intros Hlen. unfold addEquality, bindM, lift.
  rewrite (proj2 (Nat.eqb_eq _ _) Hlen). simpl.
  by rewrite build_equation_zip.
Qed.

Lemma addInequality_run (vars : list Z) (coeffs : list float) (scalar : float)
    (isProperty : bool) (w : World) :
  length vars = length coeffs →
  addInequality vars coeffs scalar isProperty w
  = addEquation (mkEquation LE (zip coeffs vars) scalar) isProperty w.
Proof.
  intros Hlen. unfold addInequality, bindM, lift.
  rewrite (proj2 (Nat.eqb_eq _ _) Hlen). simpl.
  by rewrite build_equation_zip.
Qed.

(** X2: [addEquality] and [addInequality] refuse variables and coefficients
    of different lengths with a failed assertion and no change.  Otherwise
    they append one equation, of type EQ and LE respectively, whose addends
    pair the i-th coefficient with the i-th variable in order, to the
    property equations when [isProperty] is set and to the core equations
    when it is not. *)
Theorem addEquality_addInequality_spec (vars : list Z) (coeffs : list float)
    (scalar : float) (isProperty : bool) (w : World) :
  let added ty :=
    mkWorld (if isProperty
             then set_additionalEquList (net w)
                    (additionalEquList (net w)
                       ++ [mkEquation ty (zip coeffs vars) scalar])
             else set_equList (net w)
                    (equList (net w) ++ [mkEquation ty (zip coeffs vars) scalar]))
      (solverLog w) in
  if decide (length vars = length coeffs)
  then addEquality vars coeffs scalar isProperty w = (Ok tt, added EQ)
       ∧ addInequality vars coeffs scalar isProperty w = (Ok tt, added LE)
  else addEquality vars coeffs scalar isProperty w = (Raise AssertionError, w)
       ∧ addInequality vars coeffs scalar isProperty w = (Raise AssertionError, w).
Proof.
  cbv zeta.
  destruct (decide (length vars = length coeffs)) as [Hlen|Hlen].
  - rewrite addEquality_run, addInequality_run by done.
    by rewrite !addEquation_run.
  - unfold addEquality, addInequality, bindM, lift.
    by rewrite (proj2 (Nat.eqb_neq _ _) Hlen).
Qed.

(** X3: after [setLowerBound x v], [lowerBoundExists y] answers True for
    [y = x] and as before for every other variable, and [upperBoundExists] is
    not affected; the same with the directions exchanged; after
    [clearProperty] both answer False for every variable. *)
Theorem boundExists_after_set_and_clear (w : World) (x y : Z) (v : float) :
  ((setLowerBound x v ;; lowerBoundExists y) w).1
    = Ok (bool_decide (x = y) || bool_decide (is_Some (lowerBounds (net w) !! y)))
  ∧ ((setLowerBound x v ;; upperBoundExists y) w).1 = (upperBoundExists y w).1
  ∧ ((setUpperBound x v ;; upperBoundExists y) w).1
    = Ok (bool_decide (x = y) || bool_decide (is_Some (upperBounds (net w) !! y)))
  ∧ ((setUpperBound x v ;; lowerBoundExists y) w).1 = (lowerBoundExists y w).1
  ∧ ((clearProperty ;; lowerBoundExists y) w).1 = Ok false
  ∧ ((clearProperty ;; upperBoundExists y) w).1 = Ok false.
Proof.
  assert (Hins : ∀ m : gmap Z float,
    bool_decide (is_Some (<[x := v]> m !! y))
    = bool_decide (x = y) || bool_decide (is_Some (m !! y))).
  { intros m. destruct (decide (x = y)) as [->|Hne].
    - rewrite lookup_insert_eq, (bool_decide_eq_true_2 (y = y)) by done.
      by rewrite bool_decide_eq_true_2.
    - rewrite lookup_insert_ne, (bool_decide_eq_false_2 (x = y)) by done.
      done. }
  repeat apply conj; simpl; try done.
  - by rewrite Hins.
  - by rewrite Hins.
Qed.

(** X4: [addConstraint] looks at the lower bound first.  With a lower bound
    it only bounds the first variable below, whatever else the constraint
    carries (an upper bound included); with an upper bound alone it only
    bounds the first variable above; a bound on a combination without
    variables raises IndexError and changes nothing.  Without bounds it adds
    one core equation, EQ or LE by the equality flag, over the combination's
    variables and coefficients in order, whose scalar is the negated scalar
    of the combination. *)
Theorem addConstraint_cases (c : VarConstraint) (w : World) :
  match constraint_lowerBound c, constraint_upperBound c, varCoeffs c with
  | Some lower, _, (x, _) :: _ =>
      addConstraint c w
      = (Ok tt, mkWorld (set_lowerBounds (net w) (<[x := lower]> (lowerBounds (net w))))
                  (solverLog w))
  | None, Some upper, (x, _) :: _ =>
      addConstraint c w
      = (Ok tt, mkWorld (set_upperBounds (net w) (<[x := upper]> (upperBounds (net w))))
                  (solverLog w))
  | Some _, _, [] | None, Some _, [] =>
      addConstraint c w = (Raise IndexError, w)
  | None, None, items =>
      addConstraint c w
      = (Ok tt, mkWorld (set_equList (net w)
                  (equList (net w)
                   ++ [mkEquation (if isEquality c then EQ else LE)
                         ((λ xa : Z * float, (xa.2, xa.1)) <$> items)
                         (PrimFloat.opp (combination_scalar c))]))
                  (solverLog w))
  end.
Proof.
  assert (Hzip : ∀ items : list (Z * float),
            zip items.*2 items.*1 = (λ xa : Z * float, (xa.2, xa.1)) <$> items).
  { induction items as [|[x a] items IH]; [done|]. cbn. f_equal. exact IH. }
  unfold addConstraint.
  destruct (constraint_lowerBound c) as [lower|],
    (constraint_upperBound c) as [upper|],
    (varCoeffs c) as [|[x a] items] eqn:Hitems; try done.
  - by destruct (isEquality c).
  - rewrite <- Hzip.
    destruct (isEquality c);
      rewrite ?addEquality_run, ?addInequality_run by (by rewrite !length_fmap);
      by rewrite addEquation_run.
Qed.

(** ** What a compiled query holds *)

Lemma map_res_fmap {A B : Type} (f : A → res B) (g : A → B) (l : list A)
    (l' : list B) :
  (∀ x y, f x = Ok y → y = g x) → map_res f l = Ok l' → l' = g <$> l.
Proof.
  intros Hf. revert l'. induction l as [|x l IH]; intros l'; simpl.
  - by intros [= <-].
  - destruct (f x) as [y|] eqn:Hx; simpl; [|done].
    destruct (map_res f l) as [ys|]; simpl; [|done].
    intros [= <-]. by rewrite (Hf x y Hx), (IH ys eq_refl).
Qed.

Lemma rbind_assert_ok {B : Type} (b : bool) (k : unit → res B) (y : B) :
  rbind (assert b) k = Ok y → k tt = Ok y.
Proof. by destruct b. Qed.

(** A check that passed is followed by the rest. *)
Lemma rbind_unit_ok {B : Type} (c : res unit) (k : unit → res B) (y : B) :
  rbind c k = Ok y → k tt = Ok y.
Proof. by destruct c as [[]|]. Qed.

Lemma marks_slots (arrs : list (ndarray Z)) (ms : list (Z * nat)) :
  Compile.marks arrs = Ok ms → ms = slots arrs.
Proof.
  unfold Compile.marks. intros H. apply rbind_unit_ok in H. by injection H as <-.
Qed.

Lemma equation_to_core (n : Z) (e : Equation) (ce : CoreEquation) :
  Compile.equation n e = Ok ce → ce = to_core e.
Proof.
  unfold Compile.equation.
  destruct (map_res _ (addendList e)) as [addends|] eqn:Ha; simpl; [|done].
  intros [= <-]. unfold to_core. f_equal.
  rewrite <- (list_fmap_id (addendList e)).
  eapply map_res_fmap; [|exact Ha].
  intros cv y Hy. do 2 apply rbind_unit_ok in Hy. by injection Hy as <-.
Qed.

Lemma equations_to_core (n : Z) (l : list Equation) (l' : list CoreEquation) :
  map_res (Compile.equation n) l = Ok l' → l' = to_core <$> l.
Proof. apply map_res_fmap. apply equation_to_core. Qed.

Lemma foldl_insert_union (l : list (Z * float)) (acc : gmap Z float) :
  foldl (λ m kv, <[kv.1 := kv.2]> m) acc l = list_to_map (reverse l) ∪ acc.
Proof.
  revert acc. induction l as [|[k v] l IH]; intros acc; simpl.
  - by rewrite (left_id_L ∅ (∪)).
  - rewrite IH, reverse_cons, list_to_map_app. simpl.
    rewrite <- (assoc_L (∪)). f_equal.
    by rewrite <- insert_union_l, (left_id_L ∅ (∪)).
Qed.

Lemma list_to_map_reverse_to_list (d : gmap Z float) :
  list_to_map (reverse (map_to_list d)) = d.
Proof.
  rewrite <- (list_to_map_to_list d) at 2.
  apply list_to_map_proper.
  - rewrite fmap_reverse, reverse_Permutation. apply NoDup_fst_map_to_list.
  - apply reverse_Permutation.
Qed.

Lemma bounds_foldl (n : Z) (kvs : list (Z * float)) (acc m : gmap Z float) :
  Compile.bounds n kvs acc = Ok m →
  m = foldl (λ m kv, <[kv.1 := kv.2]> m) acc kvs.
Proof.
  revert acc. induction kvs as [|kv kvs IH]; intros acc; simpl.
  - by intros [= <-].
  - intros H. do 2 apply rbind_unit_ok in H. by apply IH.
Qed.

Lemma bounds_copy (n : Z) (d m : gmap Z float) :
  Compile.bounds n (map_to_list d) ∅ = Ok m → m = d.
Proof.
  intros H. apply bounds_foldl in H. rewrite H, foldl_insert_union.
  by rewrite list_to_map_reverse_to_list, (right_id_L ∅ (∪)).
Qed.

(** A compiled query in closed form. *)
Lemma query_contents (self : MarabouNetwork) (q : InputQuery) :
  Compile.query self = Ok q →
  q = mkInputQuery (numVars self)
        (slots (inputVars self)) (slots (outputVars self))
        (to_core <$> (equList self ++ additionalEquList self))
        (translated self) (lowerBounds self) (upperBounds self).
Proof.
  unfold Compile.query, translated. set (n := numVars self).
  intros H. apply rbind_unit_ok in H. revert H.
  destruct (Compile.marks (inputVars self)) as [ims|] eqn:Hi; simpl; [|done].
  destruct (Compile.marks (outputVars self)) as [oms|] eqn:Ho; simpl; [|done].
  destruct (map_res (Compile.equation n) (equList self)) as [eqs|] eqn:H1;
    simpl; [|done].
  destruct (map_res (Compile.equation n) (additionalEquList self))
    as [addEqs|] eqn:H2; simpl; [|done].
  destruct (map_res (Compile.relu n) (reluList self)) as [l3|] eqn:H3;
    simpl; [|done].
  destruct (map_res (Compile.leakyRelu n) (leakyReluList self)) as [l4|] eqn:H4;
    simpl; [|done].
  destruct (map_res (Compile.bilinear n) (bilinearList self)) as [l5|] eqn:H5;
    simpl; [|done].
  destruct (map_res (Compile.sigmoid n) (sigmoidList self)) as [l6|] eqn:H6;
    simpl; [|done].
  destruct (map_res (Compile.max n) (maxList self)) as [l7|] eqn:H7;
    simpl; [|done].
  destruct (map_res (Compile.softmax n) (softmaxList self)) as [l8|] eqn:H8;
    simpl; [|done].
  destruct (map_res Compile.abs (absList self)) as [l9|] eqn:H9;
    simpl; [|done].
  destruct (map_res Compile.sign (signList self)) as [l10|] eqn:H10;
    simpl; [|done].
  destruct (map_res (Compile.disjunction n) (disjunctionList self))
    as [l11|] eqn:H11; simpl; [|done].
  destruct (Compile.bounds n (map_to_list (lowerBounds self)) ∅)
    as [lbs|] eqn:H12; simpl; [|done].
  destruct (Compile.bounds n (map_to_list (upperBounds self)) ∅)
    as [ubs|] eqn:H13; simpl; [|done].
  intros [= <-].
  apply marks_slots in Hi, Ho.
  apply equations_to_core in H1, H2. apply bounds_copy in H12, H13.
  subst ims oms eqs addEqs lbs ubs. rewrite fmap_app. f_equal.
  f_equal; [|f_equal; [|f_equal; [|f_equal; [|f_equal; [|f_equal;
    [|f_equal; [|f_equal]]]]]]].
  - eapply map_res_fmap; [|exact H3]. intros r y Hy.
    do 2 apply rbind_unit_ok in Hy. by injection Hy as <-.
  - eapply map_res_fmap; [|exact H4]. intros r y Hy.
    do 3 apply rbind_unit_ok in Hy. by injection Hy as <-.
  - eapply map_res_fmap; [|exact H5]. intros r y Hy.
    do 2 apply rbind_unit_ok in Hy. by injection Hy as <-.
  - eapply map_res_fmap; [|exact H6]. intros r y Hy.
    do 2 apply rbind_unit_ok in Hy. by injection Hy as <-.
  - eapply map_res_fmap; [|exact H7]. intros m y Hy.
    do 3 apply rbind_unit_ok in Hy. by injection Hy as <-.
  - eapply map_res_fmap; [|exact H8]. intros m y Hy.
    do 3 apply rbind_unit_ok in Hy. by injection Hy as <-.
  - eapply map_res_fmap; [|exact H9]. intros r y Hy.
    apply rbind_unit_ok in Hy. by injection Hy as <-.
  - eapply map_res_fmap; [|exact H10]. intros r y Hy.
    apply rbind_unit_ok in Hy. by injection Hy as <-.
  - eapply map_res_fmap; [|exact H11]. intros d y. unfold Compile.disjunction.
    destruct (map_res _ d) as [converted|] eqn:Hd; simpl; [|done].
    intros [= <-]. f_equal. eapply map_res_fmap; [|exact Hd].
    intros disjunct ces. apply equations_to_core.
Qed.

(** X5: [getMarabouQuery] returns a query exactly when [numVars] is a count
    that [MarabouCore] accepts, every variable of an equation addend (core,
    property or inside a disjunction), of a relu, leaky-relu, bilinear,
    sigmoid, max or softmax record and every bound key lies in
    [0, numVars), every leaky-relu slope lies strictly between 0 and 1, and
    every input and output variable and every variable of an abs or sign
    record, which are not compared with [numVars], and every input and output
    slot is an integer that [MarabouCore] accepts.  Otherwise it raises
    AssertionError or TypeError.  In each case the model and the solver log
    are as before. *)
Theorem getMarabouQuery_succeeds_iff (w : World) :
  ((∃ q, getMarabouQuery w = (Ok q, w))
   ↔ unsigned (numVars (net w))
     ∧ Forall (λ v, (0 ≤ v < numVars (net w))%Z) (checked_vars (net w))
     ∧ Forall slope_ok (leakyReluList (net w))
     ∧ Forall unsigned (unchecked_vars (net w))
     ∧ (Z.of_nat (length (flat_vars (inputVars (net w)))) ≤ 2 ^ 32)%Z
     ∧ (Z.of_nat (length (flat_vars (outputVars (net w)))) ≤ 2 ^ 32)%Z)
  ∧ ((∃ q, getMarabouQuery w = (Ok q, w))
     ∨ getMarabouQuery w = (Raise AssertionError, w)
     ∨ getMarabouQuery w = (Raise TypeError, w)).
Proof.
  rewrite getMarabouQuery_run, <- query_ok_iff.
  destruct (Compile.query (net w)) as [q|e] eqn:Hq; simpl.
  - split; [|eauto]. split; [done|eauto].
  - split.
    + split; [|done]. by intros [q [=]].
    + right. destruct (query_raises _ _ Hq) as [-> | ->]; auto.
Qed.

(** X6: a compiled query has [numVars] variables, and its equations are the
    core equations followed by the property equations, each in its original
    order and with its type, addends and scalar unchanged. *)
Theorem getMarabouQuery_equations (w w' : World) (q : InputQuery) :
  getMarabouQuery w = (Ok q, w') →
  numberOfVariables q = numVars (net w)
  ∧ equations q
    = (to_core <$> equList (net w)) ++ (to_core <$> additionalEquList (net w))
  ∧ (∀ i e, equList (net w) !! i = Some e → equations q !! i = Some (to_core e))
  ∧ (∀ i e, additionalEquList (net w) !! i = Some e →
       equations q !! (length (equList (net w)) + i)%nat = Some (to_core e)).
Proof.
  rewrite getMarabouQuery_run. intros [= Hq <-].
  rewrite (query_contents _ _ Hq). simpl. rewrite fmap_app.
  split; [done|]. split; [done|]. split.
  - intros i e Hi. apply lookup_app_l_Some. by rewrite list_lookup_fmap, Hi.
  - intros i e Hi. rewrite lookup_app_r by (rewrite length_fmap; lia).
    rewrite length_fmap, list_lookup_fmap.
    replace (length (equList (net w)) + i - length (equList (net w)))%nat
      with i by lia.
    by rewrite Hi.
Qed.

(** On the model with one core and one property equation: the query holds the
    core equation first. *)
Lemma getMarabouQuery_equations_witness :
  getMarabouQuery Cases.rich_world
    = (Ok (Cases.compiled Cases.rich_network), Cases.rich_world)
  ∧ equations (Cases.compiled Cases.rich_network)
    = (to_core <$> equList Cases.rich_network)
      ++ (to_core <$> additionalEquList Cases.rich_network).
Proof.
  assert (H : getMarabouQuery Cases.rich_world
              = (Ok (Cases.compiled Cases.rich_network), Cases.rich_world))
    by (vm_compute; reflexivity).
  split; [exact H|].
  exact (proj1 (proj2 (getMarabouQuery_equations _ _ _ H))).
Defined.

(** X7: the constraints of a compiled query are the records of the model
    grouped by kind in the order relu, leaky relu, bilinear, sigmoid, max,
    softmax, abs, sign, disjunction; within a kind the order of the model is
    kept, and every equation inside a disjunction is carried over
    unchanged. *)
Theorem getMarabouQuery_constraints (w w' : World) (q : InputQuery) :
  getMarabouQuery w = (Ok q, w') →
  constraints q = translated (net w)
  ∧ length (constraints q)
    = (length (reluList (net w)) + length (leakyReluList (net w))
       + length (bilinearList (net w)) + length (sigmoidList (net w))
       + length (maxList (net w)) + length (softmaxList (net w))
       + length (absList (net w)) + length (signList (net w))
       + length (disjunctionList (net w)))%nat.
Proof.
  rewrite getMarabouQuery_run. intros [= Hq <-].
  rewrite (query_contents _ _ Hq). simpl. split; [done|].
  unfold translated. rewrite !length_app, !length_fmap. lia.
Qed.

(** On the model with a relu, a leaky-relu and a max record. *)
Lemma getMarabouQuery_constraints_witness :
  getMarabouQuery Cases.rich_world
    = (Ok (Cases.compiled Cases.rich_network), Cases.rich_world)
  ∧ constraints (Cases.compiled Cases.rich_network)
    = translated Cases.rich_network.
Proof.
  assert (H : getMarabouQuery Cases.rich_world
              = (Ok (Cases.compiled Cases.rich_network), Cases.rich_world))
    by (vm_compute; reflexivity).
  split; [exact H|].
  exact (proj1 (getMarabouQuery_constraints _ _ _ H)).
Defined.

(** X8: the bound maps of a compiled query are the bound maps of the model:
    every bound is copied, none is added. *)
Theorem getMarabouQuery_bounds (w w' : World) (q : InputQuery) :
  getMarabouQuery w = (Ok q, w') →
  queryLowerBounds q = lowerBounds (net w)
  ∧ queryUpperBounds q = upperBounds (net w).
Proof.
  rewrite getMarabouQuery_run. intros [= Hq <-].
  by rewrite (query_contents _ _ Hq).
Qed.

(** On the model with both bounds on variable 0. *)
Lemma getMarabouQuery_bounds_witness :
  getMarabouQuery Cases.rich_world
    = (Ok (Cases.compiled Cases.rich_network), Cases.rich_world)
  ∧ queryLowerBounds (Cases.compiled Cases.rich_network)
    = lowerBounds Cases.rich_network
  ∧ queryUpperBounds (Cases.compiled Cases.rich_network)
    = upperBounds Cases.rich_network.
Proof.
  assert (H : getMarabouQuery Cases.rich_world
              = (Ok (Cases.compiled Cases.rich_network), Cases.rich_world))
    by (vm_compute; reflexivity).
  split; [exact H|].
  exact (getMarabouQuery_bounds _ _ _ H).
Defined.

(** X9: compilation numbers the input variables by their position in the
    groups flattened one after the other: the variable at position [i] is
    marked with slot [i], also when it occurs at several positions; the same
    holds, independently, for the output variables. *)
Theorem getMarabouQuery_marks (w w' : World) (q : InputQuery) :
  getMarabouQuery w = (Ok q, w') →
  (∀ i, inputMarks q !! i
        = (λ v, (v, i)) <$> flat_vars (inputVars (net w)) !! i)
  ∧ (∀ i, outputMarks q !! i
          = (λ v, (v, i)) <$> flat_vars (outputVars (net w)) !! i)
  ∧ length (inputMarks q) = sum_list (length ∘ Np.flatten <$> inputVars (net w))
  ∧ length (outputMarks q) = sum_list (length ∘ Np.flatten <$> outputVars (net w)).
Proof.
  rewrite getMarabouQuery_run. intros [= Hq <-].
  rewrite (query_contents _ _ Hq). simpl. unfold slots, flat_vars.
  assert (Hlen : ∀ arrs : list (ndarray Z),
            length (concat (Np.flatten <$> arrs))
            = sum_list (length ∘ Np.flatten <$> arrs)).
  { induction arrs as [|a arrs IH]; csimpl; [done|].
    by rewrite length_app, IH. }
  split; [intros i; apply list_lookup_imap|].
  split; [intros i; apply list_lookup_imap|].
  by rewrite !length_imap, !Hlen.
Qed.

(** On the model with the output group [4, 5]. *)
Lemma getMarabouQuery_marks_witness :
  getMarabouQuery Cases.rich_world
    = (Ok (Cases.compiled Cases.rich_network), Cases.rich_world)
  ∧ length (outputMarks (Cases.compiled Cases.rich_network))
    = sum_list (length ∘ Np.flatten <$> outputVars Cases.rich_network).
Proof.
  assert (H : getMarabouQuery Cases.rich_world
              = (Ok (Cases.compiled Cases.rich_network), Cases.rich_world))
    by (vm_compute; reflexivity).
  split; [exact H|].
  exact (proj2 (proj2 (proj2 (getMarabouQuery_marks _ _ _ H)))).
Defined.

(** ** Compilation after a change *)

Lemma then_getMarabouQuery {A : Type} (m : M A) (w w1 : World) (a : A) :
  m w = (Ok a, w1) →
  ((m ;; getMarabouQuery) w).1 = Compile.query (net w1).
Proof.
  intros Hm. rewrite (bindM_ok _ _ _ _ _ Hm). by rewrite getMarabouQuery_run.
Qed.

Lemma keys_insert (x : Z) (v : float) (m : gmap Z float) (k : Z) :
  k ∈ (map_to_list (<[x := v]> m)).*1 ↔ k = x ∨ k ∈ (map_to_list m).*1.
Proof.
  rewrite !list_elem_of_fmap. split.
  - intros ([k' u] & -> & Hin). simpl. apply elem_of_map_to_list in Hin.
    apply lookup_insert_Some in Hin as [[-> _]|[Hne Hin]]; [by left|].
    right. exists (k', u). split; [done|]. by apply elem_of_map_to_list.
  - intros [->|([k' u] & -> & Hin)].
    + exists (x, v). split; [done|]. apply elem_of_map_to_list.
      apply lookup_insert_eq.
    + simpl. apply elem_of_map_to_list in Hin.
      destruct (decide (k' = x)) as [->|Hne].
      * exists (x, v). split; [done|]. apply elem_of_map_to_list.
        apply lookup_insert_eq.
      * exists (k', u). split; [done|]. apply elem_of_map_to_list.
        by rewrite lookup_insert_ne.
Qed.















Section FailsLate.
Variables (w : World) (x : Z).
Hypothesis Hx : (numVars (net w) ≤ x)%Z.




End FailsLate.




(** X10: a model that compiles still compiles after a new variable is
    allocated, as long as the new count is one [MarabouCore] accepts, after
    [clearProperty], after a bound is set on an allocated variable, after a
    relu or sigmoid record over allocated variables is added, and after an
    equation over allocated variables is added to either equation list.  An
    allocated variable is one in [0, numVars). *)
Theorem compilable_stays_compilable (w : World) :
  is_ok (getMarabouQuery w).1 = true →
  ((numVars (net w) + 1 < 2 ^ 32)%Z →
     is_ok ((getNewVariable ;; getMarabouQuery) w).1 = true)
  ∧ is_ok ((clearProperty ;; getMarabouQuery) w).1 = true
  ∧ (∀ x v, (0 ≤ x < numVars (net w))%Z →
       is_ok ((setLowerBound x v ;; getMarabouQuery) w).1 = true
       ∧ is_ok ((setUpperBound x v ;; getMarabouQuery) w).1 = true)
  ∧ (∀ v1 v2, (0 ≤ v1 < numVars (net w))%Z → (0 ≤ v2 < numVars (net w))%Z →
       is_ok ((addRelu v1 v2 ;; getMarabouQuery) w).1 = true
       ∧ is_ok ((addSigmoid v1 v2 ;; getMarabouQuery) w).1 = true)
  ∧ (∀ e isProperty,
       Forall (λ v, (0 ≤ v < numVars (net w))%Z) (equation_vars e) →
       is_ok ((addEquation e isProperty ;; getMarabouQuery) w).1 = true).
Proof.
  intros Hok. rewrite getMarabouQuery_run in Hok. simpl in Hok.
  apply query_ok_iff in Hok as (Hn & Hall & Hslopes & Hpass & Hins & Houts).
  rewrite Forall_forall in Hall.
  assert (Hkeep : ∀ {A : Type} (m : M A) (w1 : World) (a : A),
    m w = (Ok a, w1) → leakyReluList (net w1) = leakyReluList (net w) →
    unchecked_vars (net w1) = unchecked_vars (net w) →
    inputVars (net w1) = inputVars (net w) →
    outputVars (net w1) = outputVars (net w) →
    unsigned (numVars (net w1)) →
    (∀ v, v ∈ checked_vars (net w1) → (0 ≤ v < numVars (net w1))%Z) →
    is_ok ((m ;; getMarabouQuery) w).1 = true).
  { intros A m w1 a Hm Hleaky Hun Hi Ho Hn1 Hvars.
    rewrite (then_getMarabouQuery m w w1 a Hm).
    apply query_ok_iff. rewrite Hleaky, Hun, Hi, Ho.
    split; [done|]. split; [by apply Forall_forall|]. done. }
  repeat apply conj; intros.
  all: repeat apply conj.
  all: try match goal with
           | |- context [addEquation _ ?b] => destruct b
           end.
  all: eapply Hkeep;
    [reflexivity|reflexivity|reflexivity|reflexivity|reflexivity| |].
  all: try exact Hn.
  all: try (unfold unsigned in *; cbn; lia).
  all: intros u Hu; specialize (Hall u); revert Hu Hall.
  all: unfold checked_vars; cbn;
       rewrite ?bind_app; cbn;
       rewrite ?map_to_list_empty, ?elem_of_app, ?elem_of_cons, ?keys_insert,
         ?elem_of_nil.
  all: try match goal with
           | H : Forall _ (equation_vars _) |- _ =>
               rewrite Forall_forall in H; specialize (H u)
           end.
  all: intuition (subst; auto; lia).
Qed.

(** The six-variable model compiles, and so it does with a seventh variable. *)
Lemma compilable_stays_compilable_witness :
  is_ok (getMarabouQuery Cases.rich_world).1 = true
  ∧ is_ok ((getNewVariable ;; getMarabouQuery) Cases.rich_world).1 = true.
Proof.
  assert (H : is_ok (getMarabouQuery Cases.rich_world).1 = true)
    by (vm_compute; reflexivity).
  split; [exact H|].
  apply (proj1 (compilable_stays_compilable Cases.rich_world H)).
  vm_compute. reflexivity.
Defined.

(** ** solve, in general *)

(** X12: [solve] never changes the model.  When compilation fails it raises
    the error of compilation, an AssertionError or a TypeError, and the
    solver is not consulted.  Otherwise the solver
    receives exactly one query, the compiled one (with the property file
    loaded into it when a file name is given), and whatever [solve] returns
    is the solver's answer to that query; with [verbose] off, or an exit code
    other than "sat", it does return. *)
Theorem solve_submits_compiled_query {ext : Collaborators} (filename : string)
    (verbose : bool) (options : option Options) (propertyFilename : string)
    (w : World) :
  let run := solve filename verbose options propertyFilename w in
  net run.2 = net w
  ∧ match Compile.query (net w) with
    | Raise e => run = (Raise e, w) ∧ compile_error e
    | Ok q =>
        let ipq := if bool_decide (propertyFilename ≠ "")
                   then MarabouCore_loadProperty q propertyFilename else q in
        let r := MarabouCore_solve ipq (default Options_default options) filename in
        solverLog run.2 = solverLog w ++ [ipq]
        ∧ (verbose = false ∨ r.1.1 ≠ "sat"%string → run.1 = Ok r)
        ∧ (∀ r', run.1 = Ok r' → r' = r)
    end.
Proof.
  cbv zeta. unfold solve, bindM. rewrite getMarabouQuery_run.
  destruct (Compile.query (net w)) as [q|e] eqn:Hq.
  2: { split; [done|]. split; [done|]. eapply query_raises, Hq. }
  unfold log_query, get_self, lift, pure. simpl.
  destruct verbose.
  - destruct (bool_decide (_ = "sat"%string)) eqn:Hsat.
    + apply bool_decide_eq_true in Hsat. simpl.
      destruct (print_vals _ (inputVars (net w))) as [[]|e1]; simpl.
      * destruct (print_vals _ (outputVars (net w))) as [[]|e2]; simpl.
        -- split; [done|]. split; [done|]. split; [done|]. by intros r' [= <-].
        -- split; [done|]. split; [done|]. split; [|done].
           intros [?|?]; done.
      * split; [done|]. split; [done|]. split; [|done]. intros [?|?]; done.
    + simpl. split; [done|]. split; [done|]. split; [done|]. by intros r' [= <-].
  - simpl. split; [done|]. split; [done|]. split; [done|]. by intros r' [= <-].
Qed.

(** The verbose printing of one array whose data fills its shape. *)
Lemma print_items (vals : gmap Z float) (arr : ndarray Z) (seen rest : list Z) :
  Np.data arr = seen ++ rest →
  for_each (λ i, let? v := Np.item arr i in
                 let? _ := dict_get vals v in Ok tt)
           (seq (length seen) (length rest))
  = if decide (Forall (λ v, is_Some (vals !! v)) rest)
    then Ok tt else Raise KeyError.
Proof.
  revert seen. induction rest as [|v rest IH]; intros seen Hdata.
  - done.
  - cbn [length seq for_each]. unfold Np.item at 1.
    rewrite Hdata, list_lookup_middle by done. cbn [rbind].
    unfold dict_get at 1. destruct (vals !! v) as [x|] eqn:Hv; cbn [rbind].
    + replace (S (length seen)) with (length (seen ++ [v]))
        by (rewrite length_app; simpl; lia).
      rewrite (IH (seen ++ [v])) by (by rewrite <- app_assoc).
      repeat case_decide; try done.
      * match goal with H : ¬ Forall _ (v :: rest) |- _ => destruct H end.
        constructor; [by rewrite Hv|done].
      * match goal with H : Forall _ (v :: rest) |- _ =>
          apply Forall_cons in H as [_ ?] end. contradiction.
    + clear IH. case_decide as Hvr; [|done].
      apply Forall_cons in Hvr as [Hv' _]. rewrite Hv in Hv'. by destruct Hv'.
Qed.

Lemma print_vals_spec (vals : gmap Z float) (arrs : list (ndarray Z)) :
  Forall well_formed arrs →
  print_vals vals arrs
  = if decide (Forall (λ v, is_Some (vals !! v)) (flat_vars arrs))
    then Ok tt else Raise KeyError.
Proof.
  unfold print_vals, flat_vars.
  induction 1 as [|arr arrs Hwf _ IH]; [done|].
  cbn [for_each]. csimpl.
  pose proof (print_items vals arr [] (Np.data arr) eq_refl) as Hitems.
  cbn [length] in Hitems. unfold well_formed in Hwf. rewrite Hwf in Hitems.
  rewrite Hitems, IH. unfold Np.flatten.
  repeat case_decide; try done.
  all: exfalso; rewrite Forall_app in *; tauto.
Qed.

(** X13: with [verbose] on and the exit code "sat", [solve] reads the value
    of every input and output variable from the assignment.  On a model whose
    arrays are well formed it returns the solver's answer when the assignment
    has a value for each of these variables and raises KeyError when one is
    missing. *)
Theorem solve_verbose_sat {ext : Collaborators} (filename : string)
    (options : option Options) (w : World) (q : InputQuery) :
  Compile.query (net w) = Ok q →
  (MarabouCore_solve q (default Options_default options) filename).1.1
    = "sat"%string →
  Forall well_formed (inputVars (net w)) →
  Forall well_formed (outputVars (net w)) →
  (solve filename true options "" w).1
  = if decide (Forall (λ v, is_Some
                 ((MarabouCore_solve q (default Options_default options)
                     filename).1.2 !! v))
               (flat_vars (inputVars (net w)) ++ flat_vars (outputVars (net w))))
    then Ok (MarabouCore_solve q (default Options_default options) filename)
    else Raise KeyError.
Proof.
  intros Hq Hsat Hin Hout. unfold solve, bindM.
  rewrite getMarabouQuery_run, Hq.
  unfold log_query, get_self, lift, pure. simpl.
  rewrite bool_decide_eq_true_2 by done. simpl.
  rewrite !print_vals_spec by done.
  repeat case_decide; try done.
  all: exfalso; rewrite Forall_app in *; tauto.
Qed.

(** The solver that assigns 0 to every variable: the verbose run returns its
    answer. *)
Lemma solve_verbose_sat_witness :
  (@solve Example.sat_solver "" true None "" Example.small_world).1
  = Ok (@MarabouCore_solve Example.sat_solver
          (Cases.compiled Example.small_network) tt "").
Proof.
  assert (Hq : Compile.query (net Example.small_world)
               = Ok (Cases.compiled Example.small_network))
    by (vm_compute; reflexivity).
  assert (Hwf : ∀ l, l = inputVars (net Example.small_world)
                     ∨ l = outputVars (net Example.small_world) →
                Forall (well_formed (A:=Z)) l).
  { intros l [-> | ->]; repeat constructor. }
  rewrite (@solve_verbose_sat Example.sat_solver "" None Example.small_world
             _ Hq eq_refl (Hwf _ (or_introl eq_refl))
             (Hwf _ (or_intror eq_refl))).
  vm_compute. reflexivity.
Defined.

(** ** Point evaluation, in general *)

Lemma pin_all (l : list (Z * float)) (ipq : InputQuery) :
  foldl (λ q kv, ipq_setUpperBound kv.1 kv.2 (ipq_setLowerBound kv.1 kv.2 q))
    ipq l
  = mkInputQuery (numberOfVariables ipq) (inputMarks ipq) (outputMarks ipq)
      (equations ipq) (constraints ipq)
      (foldl (λ m kv, <[kv.1 := kv.2]> m) (queryLowerBounds ipq) l)
      (foldl (λ m kv, <[kv.1 := kv.2]> m) (queryUpperBounds ipq) l).
Proof.
  revert ipq. induction l as [|kv l IH]; intros ipq; simpl.
  - by destruct ipq.
  - by rewrite IH.
Qed.

Lemma pin_dict (d : gmap Z float) (ipq : InputQuery) :
  foldl (λ q kv, ipq_setUpperBound kv.1 kv.2 (ipq_setLowerBound kv.1 kv.2 q))
    ipq (map_to_list d)
  = pinned_query ipq d.
Proof.
  rewrite pin_all, !foldl_insert_union, list_to_map_reverse_to_list. done.
Qed.

Lemma zip_fst_take {A B : Type} (l : list A) (k : list B) :
  (zip l k).*1 = take (length k) l.
Proof.
  revert k. induction l as [|x l IH]; intros [|y k]; csimpl; try done.
  by rewrite IH.
Qed.

Lemma input_dict_list (vars : list Z) (values : list float) :
  input_dict vars values = list_to_map (reverse (zip vars values)).
Proof.
  unfold input_dict. by rewrite foldl_insert_union, (right_id_L ∅ (∪)).
Qed.

(** The keys of the dictionary are input variables. *)
Lemma input_dict_keys (vars : list Z) (values : list float) (k : Z) :
  k ∈ (map_to_list (input_dict vars values)).*1 → k ∈ vars.
Proof.
  rewrite list_elem_of_fmap. intros ([k' v] & -> & Hin). simpl.
  apply elem_of_map_to_list in Hin. rewrite input_dict_list in Hin.
  apply elem_of_list_to_map_2 in Hin. rewrite elem_of_reverse in Hin.
  assert (Hfst : k' ∈ (zip vars values).*1).
  { apply list_elem_of_fmap. by exists (k', v). }
  rewrite zip_fst_take in Hfst. apply elem_of_take in Hfst as (i & Hi & _).
  by eapply list_elem_of_lookup_2.
Qed.

(** Pinning goes through when [MarabouCore] accepts every key. *)
Lemma pin_bounds_run (kvs : list (Z * float)) (ipq : InputQuery) :
  Forall unsigned kvs.*1 →
  pin_bounds kvs ipq
  = Ok (foldl (λ q kv, ipq_setUpperBound kv.1 kv.2
                         (ipq_setLowerBound kv.1 kv.2 q)) ipq kvs).
Proof.
  revert ipq. induction kvs as [|[k v] kvs IH]; intros ipq; simpl; [done|].
  rewrite Forall_cons. intros [Hk Hall].
  assert (Hok : Compile.core_args [k] = Ok tt).
  { pose proof (core_args_ok_iff [k]) as Hiff.
    destruct (Compile.core_args [k]) as [[]|]; [done|].
    simpl in Hiff. assert (false = true); [|done].
    apply Hiff. by constructor. }
  rewrite Hok. simpl. by apply IH.
Qed.

(** The input variables of a model that compiles are accepted keys. *)
Lemma compiled_inputs_unsigned (self : MarabouNetwork) (q : InputQuery) :
  Compile.query self = Ok q → Forall unsigned (flat_vars (inputVars self)).
Proof.
  intros Hq.
  assert (Hok : is_ok (Compile.query self) = true) by by rewrite Hq.
  apply query_ok_iff in Hok as (_ & _ & _ & Hun & _).
  unfold unchecked_vars in Hun. by apply Forall_app in Hun as [? _].
Qed.

Lemma pin_input_dict (vars : list Z) (values : list float) (ipq : InputQuery) :
  Forall unsigned vars →
  pin_bounds (map_to_list (input_dict vars values)) ipq
  = Ok (pinned_query ipq (input_dict vars values)).
Proof.
  intros Hvars. rewrite pin_bounds_run, pin_dict; [done|].
  rewrite Forall_forall in Hvars. apply Forall_forall. intros k Hk.
  eapply Hvars, input_dict_keys, Hk.
Qed.

(** What [evaluateWithMarabou] does when it reaches the solver. *)
Lemma evaluateWithMarabou_run {ext : Collaborators}
    (inputValues : list (ndarray float)) (filename : string)
    (options : option Options) (w : World) (q : InputQuery) :
  Compile.query (net w) = Ok q → inputVars (net w) ≠ [] → inputValues ≠ [] →
  let ipq := pinned_query q
               (input_dict (flat_vars (inputVars (net w)))
                  (concat (Np.flatten <$> inputValues))) in
  let outputDict :=
    (MarabouCore_solve ipq (default Options_default options) filename).1.2 in
  evaluateWithMarabou inputValues filename options w
  = (if Nat.eqb (size outputDict) 0 then Ok None
     else let? outputValues :=
            map_res (λ outVars,
                let? values := map_res (dict_get outputDict) (Np.flatten outVars) in
                Ok (Np.reshape (Np.shape outVars) values)) (outputVars (net w)) in
          Ok (Some outputValues),
     mkWorld (net w) (solverLog w ++ [ipq])).
Proof.
  intros Hq Hin Hval. cbv zeta.
  pose proof (compiled_inputs_unsigned _ _ Hq) as Hun.
  pose proof (pin_input_dict (flat_vars (inputVars (net w)))
                (concat (Np.flatten <$> inputValues)) q Hun) as Hpin.
  unfold evaluateWithMarabou, bindM, get_self, lift, log_query, pure.
  rewrite getMarabouQuery_run, Hq.
  unfold flat_vars, input_dict in *.
  destruct (inputVars (net w)) as [|g gs] eqn:Hg; [done|].
  destruct inputValues as [|val vals]; [done|].
  cbn [np_concatenate fmap list_fmap] in *. cbn beta iota.
  rewrite Hpin.
  match goal with
  | |- context [Nat.eqb ?n 0] => destruct (Nat.eqb n 0) eqn:Hsize
  end; [done|].
  match goal with
  | |- context [map_res ?f (outputVars (net w))] =>
      destruct (map_res f (outputVars (net w)))
  end; done.
Qed.

Lemma input_dict_lookup (vars : list Z) (values : list float) (i : nat)
    (x : Z) (v : float) :
  NoDup vars → vars !! i = Some x → values !! i = Some v →
  input_dict vars values !! x = Some v.
Proof.
  intros Hnd Hx Hv. rewrite input_dict_list.
  apply elem_of_list_to_map.
  - rewrite fmap_reverse, reverse_Permutation, zip_fst_take.
    eapply sublist_NoDup; [exact Hnd|apply sublist_take].
  - apply elem_of_reverse, list_elem_of_lookup. exists i.
    by rewrite lookup_zip_with, Hx, Hv.
Qed.

Lemma input_dict_absent (vars : list Z) (values : list float) (x : Z) :
  x ∉ take (length values) vars → input_dict vars values !! x = None.
Proof.
  intros Hx. rewrite input_dict_list. apply not_elem_of_list_to_map_1.
  by rewrite fmap_reverse, elem_of_reverse, zip_fst_take.
Qed.

(** X14: [evaluateWithMarabou] submits one query: the compiled query of the
    model in which, for distinct input variables, the variable at flattened
    position [i] has both bounds set to the input value at flattened
    position [i].  The bounds of every other variable, and of the input
    variables beyond the given values, are those of the model, and the
    equations and constraints are those of the compiled query. *)
Theorem evaluateWithMarabou_pins_inputs {ext : Collaborators}
    (inputValues : list (ndarray float)) (filename : string)
    (options : option Options) (w : World) (q : InputQuery) :
  Compile.query (net w) = Ok q → inputVars (net w) ≠ [] → inputValues ≠ [] →
  NoDup (flat_vars (inputVars (net w))) →
  let vars := flat_vars (inputVars (net w)) in
  let values := concat (Np.flatten <$> inputValues) in
  ∃ ipq,
    solverLog (evaluateWithMarabou inputValues filename options w).2
      = solverLog w ++ [ipq]
    ∧ numberOfVariables ipq = numVars (net w)
    ∧ equations ipq = equations q
    ∧ constraints ipq = constraints q
    ∧ (∀ i x v, vars !! i = Some x → values !! i = Some v →
         queryLowerBounds ipq !! x = Some v ∧ queryUpperBounds ipq !! x = Some v)
    ∧ (∀ x, x ∉ take (length values) vars →
         queryLowerBounds ipq !! x = lowerBounds (net w) !! x
         ∧ queryUpperBounds ipq !! x = upperBounds (net w) !! x).
Proof.
  intros Hq Hin Hval Hnd. cbv zeta.
  rewrite (evaluateWithMarabou_run inputValues filename options w q Hq Hin Hval).
  eexists. split; [reflexivity|].
  rewrite (query_contents _ _ Hq). simpl.
  split; [done|]. split; [done|]. split; [done|]. split.
  - intros i x v Hx Hv.
    rewrite !lookup_union_l'; eauto using input_dict_lookup.
    all: rewrite (input_dict_lookup _ _ i x v); eauto.
  - intros x Hx. by rewrite !lookup_union_r by by apply input_dict_absent.
Qed.

(** The input [[0.5, 0.5]] on the 1x2 input group: variable 1 is pinned to 0.5. *)
Lemma evaluateWithMarabou_pins_inputs_witness :
  ∃ ipq,
    solverLog (@evaluateWithMarabou Example.sat_solver
                 [Example.small_input_batched] "" None Example.small_world).2
      = [ipq]
    ∧ queryLowerBounds ipq !! 1%Z = Some 0.5%float
    ∧ queryUpperBounds ipq !! 1%Z = Some 0.5%float.
Proof.
  assert (Hq : Compile.query (net Example.small_world)
               = Ok (Cases.compiled Example.small_network))
    by (vm_compute; reflexivity).
  assert (Hin : inputVars (net Example.small_world) ≠ []) by discriminate.
  assert (Hval : [Example.small_input_batched] ≠ []) by discriminate.
  assert (Hnd : NoDup (flat_vars (inputVars (net Example.small_world))))
    by (apply (bool_decide_unpack _); vm_compute; exact I).
  destruct (@evaluateWithMarabou_pins_inputs Example.sat_solver
              [Example.small_input_batched] "" None Example.small_world _
              Hq Hin Hval Hnd)
    as (ipq & Hlog & _ & _ & _ & Hpin & _).
  exists ipq. split; [exact Hlog|].
  exact (Hpin 1%nat 1%Z 0.5%float eq_refl eq_refl).
Defined.

(** X15: [evaluateWithMarabou] raises ValueError on a model without input
    groups and on an empty list of input values, and the error of
    compilation, an AssertionError or a TypeError, on a model that does not
    compile; in these cases the solver is not consulted and nothing
    changes. *)
Theorem evaluateWithMarabou_refuses {ext : Collaborators}
    (inputValues : list (ndarray float)) (filename : string)
    (options : option Options) (w : World) :
  (inputVars (net w) = [] →
     evaluateWithMarabou inputValues filename options w = (Raise ValueError, w))
  ∧ (inputValues = [] →
     evaluateWithMarabou inputValues filename options w = (Raise ValueError, w))
  ∧ (inputVars (net w) ≠ [] → inputValues ≠ [] →
     is_ok (Compile.query (net w)) = false →
     ∃ e, evaluateWithMarabou inputValues filename options w = (Raise e, w)
          ∧ Compile.query (net w) = Raise e
          ∧ compile_error e).
Proof.
  unfold evaluateWithMarabou, bindM, get_self, lift.
  split; [|split].
  - by intros ->.
  - intros ->. by destruct (inputVars (net w)).
  - intros Hin Hval Hq.
    destruct (inputVars (net w)) as [|g gs]; [done|].
    destruct inputValues as [|val vals]; [done|].
    cbn [np_concatenate fmap list_fmap]. cbn beta iota.
    rewrite getMarabouQuery_run.
    destruct (Compile.query (net w)) as [q|e] eqn:Hc; [done|].
    exists e. split; [done|]. split; [done|]. eapply query_raises, Hc.
Qed.

Lemma lookups_spec (vals : gmap Z float) (l : list Z) :
  match map_res (dict_get vals) l with
  | Ok values => Forall2 (λ y v, vals !! v = Some y) values l
  | Raise e => e = KeyError ∧ ¬ Forall (λ v, is_Some (vals !! v)) l
  end.
Proof.
  induction l as [|v l IH]; simpl; [constructor|].
  unfold dict_get at 1. destruct (vals !! v) as [y|] eqn:Hv; simpl.
  - destruct (map_res (dict_get vals) l) as [values|e]; simpl.
    + by constructor.
    + destruct IH as [-> Hn]. split; [done|]. by intros [_ ?]%Forall_cons.
  - split; [done|]. intros [Hs _]%Forall_cons. rewrite Hv in Hs.
    by destruct Hs.
Qed.

Lemma outputs_spec (vals : gmap Z float) (arrs : list (ndarray Z)) :
  match map_res (λ outVars,
          let? values := map_res (dict_get vals) (Np.flatten outVars) in
          Ok (Np.reshape (Np.shape outVars) values)) arrs with
  | Ok outs =>
      Forall2 (λ out outVars,
                 Np.shape out = Np.shape outVars
                 ∧ Forall2 (λ y v, vals !! v = Some y)
                     (Np.data out) (Np.data outVars)) outs arrs
  | Raise e => e = KeyError ∧ ¬ Forall (λ v, is_Some (vals !! v)) (flat_vars arrs)
  end.
Proof.
  unfold flat_vars. induction arrs as [|arr arrs IH]; csimpl; [constructor|].
  pose proof (lookups_spec vals (Np.flatten arr)) as Harr.
  destruct (map_res (dict_get vals) (Np.flatten arr)) as [values|e]; simpl.
  - destruct (map_res _ arrs) as [outs|e]; simpl.
    + constructor; [|done]. by split.
    + destruct IH as [-> Hn]. split; [done|]. by intros [_ ?]%Forall_app.
  - destruct Harr as [-> Hn]. split; [done|]. by intros [? _]%Forall_app.
Qed.

(** X16: when the solver's assignment for the pinned query is not empty,
    [evaluateWithMarabou] returns one array per output group, of the shape
    of the group, holding at each position the assigned value of the output
    variable at that position; if the assignment misses an output variable
    it raises KeyError instead. *)
Theorem evaluateWithMarabou_outputs {ext : Collaborators}
    (inputValues : list (ndarray float)) (filename : string)
    (options : option Options) (w : World) (q : InputQuery) :
  Compile.query (net w) = Ok q → inputVars (net w) ≠ [] → inputValues ≠ [] →
  let ipq := pinned_query q
               (input_dict (flat_vars (inputVars (net w)))
                  (concat (Np.flatten <$> inputValues))) in
  let vals :=
    (MarabouCore_solve ipq (default Options_default options) filename).1.2 in
  size vals ≠ 0%nat →
  match (evaluateWithMarabou inputValues filename options w).1 with
  | Ok None => False
  | Ok (Some outs) =>
      Forall2 (λ out outVars,
                 Np.shape out = Np.shape outVars
                 ∧ Forall2 (λ y v, vals !! v = Some y)
                     (Np.data out) (Np.data outVars)) outs (outputVars (net w))
  | Raise e =>
      e = KeyError
      ∧ ¬ Forall (λ v, is_Some (vals !! v)) (flat_vars (outputVars (net w)))
  end.
Proof.
  intros Hq Hin Hval. cbv zeta. intros Hsize.
  rewrite (evaluateWithMarabou_run inputValues filename options w q Hq Hin Hval).
  cbv zeta. simpl. apply Nat.eqb_neq in Hsize. rewrite Hsize.
  match goal with
  | |- context [map_res ?f (outputVars (net w))] =>
      pose proof (outputs_spec
        (MarabouCore_solve (pinned_query q
           (input_dict (flat_vars (inputVars (net w)))
              (concat (Np.flatten <$> inputValues))))
           (default Options_default options) filename).1.2
        (outputVars (net w))) as Hout;
      destruct (map_res f (outputVars (net w)))
  end; done.
Qed.

(** The solver that assigns 0 to each of the four variables. *)
Lemma evaluateWithMarabou_outputs_witness :
  inputVars (net Example.small_world) ≠ []
  ∧ match (@evaluateWithMarabou Example.sat_solver
             [Example.small_input_batched] "" None Example.small_world).1 with
    | Ok None => False
    | Ok (Some outs) =>
        Forall2 (λ out outVars,
                   Np.shape out = Np.shape outVars
                   ∧ Forall2 (λ y v, Example.zero_assignment 4 !! v = Some y)
                       (Np.data out) (Np.data outVars))
          outs (outputVars (net Example.small_world))
    | Raise e =>
        e = KeyError
        ∧ ¬ Forall (λ v, is_Some (Example.zero_assignment 4 !! v))
              (flat_vars (outputVars (net Example.small_world)))
    end.
Proof.
  assert (Hq : Compile.query (net Example.small_world)
               = Ok (Cases.compiled Example.small_network))
    by (vm_compute; reflexivity).
  assert (Hin : inputVars (net Example.small_world) ≠ []) by discriminate.
  assert (Hval : [Example.small_input_batched] ≠ []) by discriminate.
  split; [exact Hin|].
  refine (@evaluateWithMarabou_outputs Example.sat_solver
            [Example.small_input_batched] "" None Example.small_world _
            Hq Hin Hval _).
  vm_compute. discriminate.
Defined.

(** ** Point evaluation and the model *)



(** ** findError and isEqualTo, in general *)

(** X17: when the solver-based evaluation returns None, [findError] does not
    return: it raises the reference evaluator's error if that one fails and
    TypeError otherwise, since None has no length. *)
Theorem findError_without_solution {ext : Collaborators} (w w1 : World)
    (inputValues : list (ndarray float)) (options : option Options)
    (filename : string) :
  evaluateWithMarabou inputValues filename options w = (Ok None, w1) →
  findError inputValues options filename w
  = (match evaluateWithoutMarabou inputValues with
     | Ok _ => Raise TypeError
     | Raise e => Raise e
     end, w1).
Proof.
  intros Hmar. unfold findError.
  rewrite (bindM_ok _ _ w w1 None) by exact Hmar.
  unfold evaluate at 1. unfold bindM, lift, pure.
  by destruct (evaluateWithoutMarabou inputValues).
Qed.

(** The solver that finds every query unsatisfiable, next to a reference
    evaluator that succeeds. *)
Lemma findError_without_solution_witness :
  (@findError Example.unsat_solver [Example.small_input_batched] None ""
     Example.small_world).1
  = Raise TypeError.
Proof.
  assert (H : @evaluateWithMarabou Example.unsat_solver
                [Example.small_input_batched] "" None Example.small_world
              = (Ok None,
                 (@evaluateWithMarabou Example.unsat_solver
                    [Example.small_input_batched] "" None
                    Example.small_world).2))
    by (vm_compute; reflexivity).
  rewrite (@findError_without_solution Example.unsat_solver _ _ _ _ _ H).
  reflexivity.
Defined.

Lemma zip_loop_false {A : Type} (test : A → A → res bool) (l1 l2 : list A)
    (b : bool) :
  zip_loop test l1 l2 false = Ok b → b = false.
Proof.
  revert l2. induction l1 as [|x l1 IH]; intros [|y l2]; simpl;
    try (by intros [= <-]).
  destruct (test x y) as [d|]; simpl; [|done]. destruct d; apply IH.
Qed.

Lemma zip_loop_detects {A : Type} (test : A → A → res bool) (l1 l2 : list A)
    (i : nat) (x y : A) (b : bool) :
  l1 !! i = Some x → l2 !! i = Some y → test x y = Ok true →
  zip_loop test l1 l2 b ≠ Ok true.
Proof.
  revert l2 i b. induction l1 as [|x' l1 IH]; intros [|y' l2] [|i] b;
    simpl; try done.
  - intros [= ->] [= ->] ->. simpl. intros H. by apply zip_loop_false in H.
  - intros Hx Hy Ht. destruct (test x' y') as [d|]; simpl; [|done].
    by eapply IH.
Qed.

Lemma np_ne_any_differs (a b : list Z) :
  length a = length b → a ≠ b → np_ne_any a b = Ok true.
Proof.
  intros Hlen Hne. unfold np_ne_any. rewrite bool_decide_eq_true_2 by done.
  f_equal. revert b Hlen Hne.
  induction a as [|x a IH]; intros [|y b] Hlen Hne; simpl in *; try done.
  destruct (decide (x = y)) as [->|Hxy].
  - rewrite bool_decide_eq_false_2 by (by intros ?). simpl.
    apply IH; [lia|congruence].
  - by rewrite bool_decide_eq_true_2.
Qed.

(** X18: [isEqualTo] never answers True for two models that differ in
    [numVars], in the relu, sigmoid, max, abs or sign records, in the set of
    variables bounded below or above, in a core equation at a position both
    have (by the equations' own comparison), or in an input group of the same
    size at a position both have. *)
Theorem isEqualTo_detects {ext : Collaborators} (self network : MarabouNetwork) :
  numVars self ≠ numVars network
  ∨ reluList self ≠ reluList network
  ∨ sigmoidList self ≠ sigmoidList network
  ∨ maxList self ≠ maxList network
  ∨ absList self ≠ absList network
  ∨ signList self ≠ signList network
  ∨ dom (lowerBounds self) ≠ dom (lowerBounds network)
  ∨ dom (upperBounds self) ≠ dom (upperBounds network)
  ∨ (∃ i e1 e2, equList self !! i = Some e1 ∧ equList network !! i = Some e2
                ∧ Equation_isEqualTo e1 e2 = false)
  ∨ (∃ i a b, inputVars self !! i = Some a ∧ inputVars network !! i = Some b
              ∧ length (Np.flatten a) = length (Np.flatten b)
              ∧ Np.flatten a ≠ Np.flatten b) →
  isEqualTo self network ≠ Ok true.
Proof.
  intros Hdiff. unfold isEqualTo.
  set (b0 := negb _).
  set (t1 := λ equation1 equation2 : Equation,
               Ok (negb (Equation_isEqualTo equation1 equation2))).
  set (t2 := λ inputvars1 inputvars2 : ndarray Z,
               np_ne_any (Np.flatten inputvars1) (Np.flatten inputvars2)).
  set (t3 := λ outputVars1 outputVars2 : ndarray Z,
               np_ne_any (Np.flatten outputVars1) (Np.flatten outputVars1)).
  assert (Hchain : ∀ b1,
    (b1 = false ∨ ∃ i a b, inputVars self !! i = Some a
                  ∧ inputVars network !! i = Some b ∧ t2 a b = Ok true) →
    (let? equivalence := zip_loop t2 (inputVars self) (inputVars network) b1 in
     let? equivalence := zip_loop t3 (outputVars self) (outputVars network)
                           equivalence in Ok equivalence) ≠ Ok true).
  { intros b1 Hb1.
    destruct (zip_loop t2 (inputVars self) (inputVars network) b1) as [b2|]
      eqn:H2; simpl; [|done].
    assert (b2 = false) as ->.
    { destruct Hb1 as [->|(i & a & b & Ha & Hb & Ht)].
      - by apply zip_loop_false in H2.
      - destruct b2; [|done]. by eapply zip_loop_detects in H2. }
    destruct (zip_loop t3 _ _ false) as [b3|] eqn:H3; simpl; [|done].
    apply zip_loop_false in H3. by subst. }
  assert (Hfirst : b0 = false ∨
    (∃ i e1 e2, equList self !! i = Some e1 ∧ equList network !! i = Some e2
                ∧ t1 e1 e2 = Ok true) ∨
    (∃ i a b, inputVars self !! i = Some a ∧ inputVars network !! i = Some b
              ∧ t2 a b = Ok true)).
  { unfold b0.
    destruct Hdiff as [H|[H|[H|[H|[H|[H|[H|[H|[H|H]]]]]]]]].
    1-6: left; apply negb_false_iff; rewrite !orb_true_iff;
         rewrite (bool_decide_eq_true_2 _ H); tauto.
    - left. apply negb_false_iff. rewrite !orb_true_iff.
      left. right. apply negb_true_iff. unfold dict_eq.
      by rewrite (bool_decide_eq_false_2 _ H).
    - left. apply negb_false_iff. rewrite !orb_true_iff.
      right. apply negb_true_iff. unfold dict_eq.
      by rewrite (bool_decide_eq_false_2 _ H).
    - right. left. destruct H as (i & e1 & e2 & H1 & H2 & H3).
      exists i, e1, e2. unfold t1. by rewrite H3.
    - right. right. destruct H as (i & a & b & H1 & H2 & H3 & H4).
      exists i, a, b. unfold t2. by rewrite np_ne_any_differs. }
  destruct (zip_loop t1 (equList self) (equList network) b0) as [b1|] eqn:H1;
    simpl; [|done].
  apply Hchain.
  destruct Hfirst as [Hb0|[(i & e1 & e2 & He1 & He2 & Ht)|Hin]].
  - left. rewrite Hb0 in H1. by apply zip_loop_false in H1.
  - left. destruct b1; [|done]. by eapply zip_loop_detects in H1.
  - by right.
Qed.

(** Four variables against five. *)
Lemma isEqualTo_detects_witness :
  numVars Example.small_network ≠ numVars Example.three_class_network
  ∧ @isEqualTo Example.unsat_solver Example.small_network
      Example.three_class_network ≠ Ok true.
Proof.
  assert (H : numVars Example.small_network ≠ numVars Example.three_class_network)
    by discriminate.
  split; [exact H|].
  exact (@isEqualTo_detects Example.unsat_solver _ _ (or_introl H)).
Defined.

Lemma zip_loop_extra {A : Type} (test : A → A → res bool) (l1 l2 extra : list A)
    (b : bool) :
  length l1 ≤ length l2 →
  zip_loop test l1 (l2 ++ extra) b = zip_loop test l1 l2 b.
Proof.
  revert l2 b. induction l1 as [|x l1 IH]; intros [|y l2] b Hlen; simpl in *.
  - by destruct extra.
  - done.
  - lia.
  - destruct (test x y) as [d|]; simpl; [|done]. apply IH. lia.
Qed.

Lemma zip_loop_extra_l {A : Type} (test : A → A → res bool)
    (l1 l2 extra : list A) (b : bool) :
  length l2 ≤ length l1 →
  zip_loop test (l1 ++ extra) l2 b = zip_loop test l1 l2 b.
Proof.
  revert l2 b. induction l1 as [|x l1 IH]; intros [|y l2] b Hlen; simpl in *.
  - by destruct extra.
  - lia.
  - done.
  - destruct (test x y) as [d|]; simpl; [|done]. apply IH. lia.
Qed.

(** X19: [isEqualTo] compares the core equations in pairs and stops with
    the shorter list: equations appended to the longer of the two lists
    never change its answer, and the property equations are not looked at
    at all. *)
Theorem isEqualTo_ignores_extra_equations {ext : Collaborators}
    (self network : MarabouNetwork) (extra : list Equation) :
  (length (equList self) ≤ length (equList network) →
     isEqualTo self (set_equList network (equList network ++ extra))
     = isEqualTo self network)
  ∧ (length (equList network) ≤ length (equList self) →
     isEqualTo (set_equList self (equList self ++ extra)) network
     = isEqualTo self network)
  ∧ isEqualTo self (set_additionalEquList network extra)
    = isEqualTo self network
  ∧ isEqualTo (set_additionalEquList self extra) network
    = isEqualTo self network.
Proof.
  split; [|split; [|split]].
  - intros Hlen. unfold isEqualTo. simpl. by rewrite zip_loop_extra.
  - intros Hlen. unfold isEqualTo. simpl. by rewrite zip_loop_extra_l.
  - done.
  - done.
Qed.

Lemma zip_loop_total {A : Type} (test : A → A → res bool) (l1 l2 : list A)
    (b : bool) :
  (∀ x y, is_ok (test x y) = true) → is_ok (zip_loop test l1 l2 b) = true.
Proof.
  intros Ht. revert l2 b. induction l1 as [|x l1 IH]; intros [|y l2] b;
    simpl; try done.
  specialize (Ht x y). destruct (test x y); [|done]. simpl. apply IH.
Qed.

Lemma zip_loop_raises {A : Type} (test : A → A → res bool) (l1 l2 : list A)
    (i : nat) (x y : A) (b : bool) :
  l1 !! i = Some x → l2 !! i = Some y → is_ok (test x y) = false →
  is_ok (zip_loop test l1 l2 b) = false.
Proof.
  revert l2 i b. induction l1 as [|x' l1 IH]; intros [|y' l2] [|i] b;
    simpl; try done.
  - intros [= ->] [= ->] Ht. by destruct (test x y).
  - intros Hx Hy Ht. destruct (test x' y') as [d|]; simpl; [|done].
    by eapply IH.
Qed.

(** X20: [isEqualTo] raises when, at a position both models have, the two
    input groups have different numbers of variables and neither has exactly
    one: the elementwise comparison of the two flattened groups is not
    defined. *)
Theorem isEqualTo_raises_on_size_mismatch {ext : Collaborators}
    (self network : MarabouNetwork) (i : nat) (a b : ndarray Z) :
  inputVars self !! i = Some a → inputVars network !! i = Some b →
  length (Np.flatten a) ≠ length (Np.flatten b) →
  length (Np.flatten a) ≠ 1%nat → length (Np.flatten b) ≠ 1%nat →
  is_ok (isEqualTo self network) = false.
Proof.
  intros Ha Hb Hne Ha1 Hb1. unfold isEqualTo.
  match goal with
  | |- context [zip_loop ?t (equList self) (equList network) ?b0] =>
      pose proof (zip_loop_total t (equList self) (equList network) b0
                    (λ _ _, eq_refl)) as Heq;
      destruct (zip_loop t (equList self) (equList network) b0) as [b1|];
        [|done]
  end. simpl.
  match goal with
  | |- context [zip_loop ?t (inputVars self) (inputVars network) b1] =>
      pose proof (zip_loop_raises t (inputVars self) (inputVars network)
                    i a b b1 Ha Hb) as Hin;
      destruct (zip_loop t (inputVars self) (inputVars network) b1); [|done]
  end.
  simpl in Hin. exfalso. assert (true = false); [|done]. apply Hin.
  unfold np_ne_any. rewrite bool_decide_eq_false_2 by done.
  destruct (Np.flatten a) as [|x [|x' a']], (Np.flatten b) as [|y [|y' b']];
    simpl in *; done.
Qed.

(** An input group of two variables against one of three. *)
Lemma isEqualTo_raises_on_size_mismatch_witness :
  is_ok (@isEqualTo Example.unsat_solver Example.small_network
           Cases.one_class_network) = false.
Proof.
  refine (@isEqualTo_raises_on_size_mismatch Example.unsat_solver
            Example.small_network Cases.one_class_network 0
            (NdArray [1; 2]%nat [0; 1]%Z) (NdArray [1; 3]%nat [0; 1; 2]%Z)
            eq_refl eq_refl _ _ _); vm_compute; discriminate.
Defined.

(** ** The robustness search, in general *)

Lemma with_max_nil (self : MarabouNetwork) : with_max self [] = self.
Proof. unfold with_max. rewrite app_nil_r. by destruct self. Qed.

Lemma with_max_app (self : MarabouNetwork) (a b : list (gset Z * Z)) :
  with_max (with_max self a) b = with_max self (a ++ b).
Proof. unfold with_max, set_maxList. simpl. by rewrite app_assoc. Qed.

Lemma appended_only_refl (w : World) : appended_only w w.
Proof.
  split; [exists []; by rewrite with_max_nil|exists []; by rewrite app_nil_r].
Qed.

Lemma appended_only_trans (w1 w2 w3 : World) :
  appended_only w1 w2 → appended_only w2 w3 → appended_only w1 w3.
Proof.
  intros [(ms1 & Hn1) [qs1 Hl1]] [(ms2 & Hn2) [qs2 Hl2]]. split.
  - exists (ms1 ++ ms2). by rewrite Hn2, Hn1, with_max_app.
  - exists (qs1 ++ qs2). by rewrite Hl2, Hl1, app_assoc.
Qed.

Lemma solve_appended {ext : Collaborators} (filename : string) (verbose : bool)
    (options : option Options) (w w' : World)
    (r : res (string * gmap Z float * Statistics)) :
  solve filename verbose options "" w = (r, w') → appended_only w w'.
Proof.
  intros Hrun.
  pose proof (solve_cases filename verbose options w) as Hcases.
  destruct (Compile.query (net w)) as [q|e].
  - assert (w' = mkWorld (net w) (solverLog w ++ [q])) as ->.
    { simpl in Hcases. destruct Hcases as [H|(_ & _ & e & H)];
        rewrite H in Hrun; by injection Hrun as _ <-. }
    split; [|by exists [q]]. exists []. by rewrite with_max_nil.
  - rewrite Hcases in Hrun. injection Hrun as _ <-. apply appended_only_refl.
Qed.

Lemma addMaxConstraint_appended (elements : gset Z) (v : Z) (w : World) :
  appended_only w (addMaxConstraint elements v w).2.
Proof.
  split; [|exists []; by rewrite app_nil_r]. by exists [(elements, v)].
Qed.

Lemma untargeted_loop_appended {ext : Collaborators} (startArr : ndarray Z)
    (originalClass : Z) (options : Options) (idxs : list nat)
    (last0 : option (gmap Z float * Statistics)) (w w' : World)
    (r : res (option (gmap Z float * Statistics) * option Z)) :
  untargeted_loop startArr originalClass options idxs last0 w = (r, w') →
  appended_only w w'.
Proof.
  revert last0 w. induction idxs as [|idx rest IH]; intros last0 w Hrun.
  - injection Hrun as _ <-. apply appended_only_refl.
  - simpl in Hrun. destruct (bool_decide _); [|by eapply IH].
    rewrite bindM_lift in Hrun.
    destruct (Np.as_scalar startArr) as [start|];
      [|injection Hrun as _ <-; apply appended_only_refl].
    apply bindM_inv in Hrun as [([] & w1 & Hadd & Hrun)|(e & [=] & _)].
    assert (appended_only w w1) as Hw1.
    { unfold addMaxConstraint, modify_self in Hadd. injection Hadd as <-.
      apply (addMaxConstraint_appended _ _ w). }
    eapply appended_only_trans; [exact Hw1|].
    apply bindM_inv in Hrun as [(r1 & w2 & Hsolve & Hrun)|(e & Hsolve & _)].
    + apply solve_appended in Hsolve.
      eapply appended_only_trans; [exact Hsolve|].
      destruct (hasTimedOut r1.2);
        [injection Hrun as _ <-; apply appended_only_refl|].
      destruct (nonempty r1.1.2);
        [injection Hrun as _ <-; apply appended_only_refl|].
      by eapply IH.
    + by apply solve_appended in Hsolve.
Qed.

Lemma targeted_appended {ext : Collaborators} (row startArr : ndarray Z)
    (verbose : bool) (options : Options) (t : Z) (w w' : World)
    (r : res (option (gmap Z float * Statistics) * option Z)) :
  targeted row startArr verbose options t w = (r, w') → appended_only w w'.
Proof.
  unfold targeted. intros Hrun. rewrite bindM_lift in Hrun.
  destruct (np_to_set row) as [elements|];
    [|injection Hrun as _ <-; apply appended_only_refl].
  rewrite bindM_lift in Hrun.
  destruct (Np.as_scalar startArr) as [start|];
    [|injection Hrun as _ <-; apply appended_only_refl].
  apply bindM_inv in Hrun as [([] & w1 & Hadd & Hrun)|(e & [=] & _)].
  assert (appended_only w w1) as Hw1.
  { unfold addMaxConstraint, modify_self in Hadd. injection Hadd as <-.
    apply (addMaxConstraint_appended _ _ w). }
  eapply appended_only_trans; [exact Hw1|].
  apply bindM_inv in Hrun as [(r1 & w2 & Hsolve & Hrun)|(e & Hsolve & _)].
  - apply solve_appended in Hsolve. injection Hrun as _ <-. done.
  - by apply solve_appended in Hsolve.
Qed.

(** After the head of the search, only [maxList] and the log grow. *)
Lemma search_tail_appended {ext : Collaborators} (verbose : bool)
    (originalClass : Z) (options : Options) (targetClass : option Z)
    (located : ndarray Z * ndarray Z) (w w' : World)
    (r : res (gmap Z float * Statistics * option Z)) :
  (found <- match targetClass with
            | None =>
                outputLayerSize <- lift (Np.len located.1) ;;
                untargeted_loop located.2 originalClass options
                  (seq 0 outputLayerSize) None
            | Some t => targeted located.1 located.2 verbose options t
            end ;;
   report verbose found.1 ;;
   match found.1 with
   | None => raise UnboundLocalError
   | Some (vals, stats) => pure (vals, stats, found.2)
   end) w = (r, w') →
  appended_only w w'.
Proof.
  intros Hrun.
  assert (Hfound : ∀ r1 w1,
    match targetClass with
    | None =>
        outputLayerSize <- lift (Np.len located.1) ;;
        untargeted_loop located.2 originalClass options
          (seq 0 outputLayerSize) None
    | Some t => targeted located.1 located.2 verbose options t
    end w = (r1, w1) → appended_only w w1).
  { intros r1 w1 Hf. destruct targetClass as [t|].
    - by eapply targeted_appended.
    - rewrite bindM_lift in Hf.
      destruct (Np.len located.1);
        [|injection Hf as _ <-; apply appended_only_refl].
      by eapply untargeted_loop_appended. }
  apply bindM_inv in Hrun as [(found & w2 & Hf & Hrun)|(e & Hf & _)];
    [|by eapply Hfound].
  apply Hfound in Hf. eapply appended_only_trans; [exact Hf|].
  apply bindM_inv in Hrun as [([] & w3 & Hrep & Hrun)|(e & Hrep & _)].
  - apply report_frame in Hrep as ->.
    destruct found.1 as [[vals stats]|]; injection Hrun as _ <-;
      apply appended_only_refl.
  - apply report_frame in Hrep as ->. apply appended_only_refl.
Qed.

(** X21: whatever its arguments and its outcome, [evaluateLocalRobustness]
    leaves the variable count, the equations, the input and output groups
    and every constraint list other than [maxList] as they were: the model
    it leaves behind is the given one with other bounds and with Max records
    appended to [maxList], and the solver log is the old one with queries
    appended.  Nothing is rolled back, not even when the call raises. *)
Theorem evaluateLocalRobustness_frame {ext : Collaborators} (w : World)
    (input : ndarray float) (epsilon : float) (originalClass : Z)
    (verbose : bool) (options : option Options) (targetClass : option Z) :
  let w' := (evaluateLocalRobustness input epsilon originalClass verbose
               options targetClass w).2 in
  (∃ lb ub ms, net w' = with_max (with_bounds (net w) lb ub) ms)
  ∧ (∃ qs, solverLog w' = solverLog w ++ qs)
  ∧ numVars (net w') = numVars (net w)
  ∧ equList (net w') = equList (net w)
  ∧ additionalEquList (net w') = additionalEquList (net w)
  ∧ inputVars (net w') = inputVars (net w)
  ∧ outputVars (net w') = outputVars (net w)
  ∧ maxList (net w) `prefix_of` maxList (net w').
Proof.
  cbv zeta.
  destruct (evaluateLocalRobustness input epsilon originalClass verbose options
              targetClass w) as [r w'] eqn:Hrun. simpl.
  assert (Hg : (∃ lb ub ms, net w' = with_max (with_bounds (net w) lb ub) ms)
               ∧ ∃ qs, solverLog w' = solverLog w ++ qs).
  { unfold evaluateLocalRobustness in Hrun.
    apply bindM_inv in Hrun as [(located & w1 & Hpin & Hrun)|(e & Hpin & _)].
    - apply pin_input_spec in Hpin as [[Hlog (lb & ub & Hnet)] _].
      apply search_tail_appended in Hrun as [[ms Hms] [qs Hqs]].
      split; [exists lb, ub, ms; by rewrite Hms, Hnet|].
      exists qs. by rewrite Hqs, Hlog.
    - apply pin_input_spec in Hpin as [[Hlog (lb & ub & Hnet)] _].
      split; [exists lb, ub, []; by rewrite with_max_nil|].
      exists []. by rewrite app_nil_r. }
  destruct Hg as [(lb & ub & ms & Hnet) Hlog].
  split; [eauto|]. split; [done|]. rewrite Hnet. simpl.
  repeat split. by apply prefix_app_r.
Qed.

(** ** The bounds written around the input *)

(** The loop over the flattened input: positions [length pv ..] of variables
    and values of equal length. *)
Lemma pin_loop_run (epsilon : float) (rx : list Z) :
  ∀ (px : list Z) (pv rv : list float) (w : World),
    length px = length pv → length rx = length rv →
    for_eachM (λ i,
        x <- lift (index (px ++ rx) i) ;;
        v <- lift (index (pv ++ rv) i) ;;
        setLowerBound x (PrimFloat.sub v epsilon) ;;
        x <- lift (index (px ++ rx) i) ;;
        v <- lift (index (pv ++ rv) i) ;;
        setUpperBound x (PrimFloat.add v epsilon))
      (seq (length pv) (length rv)) w
    = (Ok tt,
       mkWorld
         (with_bounds (net w)
            (foldl (λ m kv, <[kv.1 := kv.2]> m) (lowerBounds (net w))
               (zip rx ((λ v, PrimFloat.sub v epsilon) <$> rv)))
            (foldl (λ m kv, <[kv.1 := kv.2]> m) (upperBounds (net w))
               (zip rx ((λ v, PrimFloat.add v epsilon) <$> rv))))
         (solverLog w)).
Proof.
  induction rx as [|x rx IH]; intros px pv [|v rv] w Hp Hr; try done.
  - simpl. rewrite with_bounds_id. by destruct w.
  - cbn [length seq for_eachM].
    assert (Hx : index (px ++ x :: rx) (length pv) = Ok x).
    { unfold index. by rewrite <- Hp, list_lookup_middle. }
    assert (Hv : index (pv ++ v :: rv) (length pv) = Ok v).
    { unfold index. by rewrite list_lookup_middle. }
    erewrite bindM_ok; last first.
    { unfold bindM, lift, setLowerBound, setUpperBound, modify_self.
      rewrite Hx, Hv. cbn [net solverLog]. reflexivity. }
    specialize (IH (px ++ [x]) (pv ++ [v]) rv).
    rewrite <- !(assoc_L (++)) in IH. cbn [app] in IH.
    rewrite !length_app in IH. cbn [length] in IH.
    replace (length pv + 1)%nat with (S (length pv)) in IH by lia.
    rewrite IH.
    + done.
    + lia.
    + simpl in Hr. lia.
Qed.

Lemma zip_fmap_bounds (f : float → float) (xs : list Z) (vs : list float)
    (acc : gmap Z float) :
  foldl (λ m kv, <[kv.1 := kv.2]> m) acc (zip xs (f <$> vs))
  = input_dict xs (f <$> vs) ∪ acc.
Proof. by rewrite foldl_insert_union, input_dict_list. Qed.

(** The head of the search on a model that passes its checks: [row] is the
    array the input is compared with, and has its shape. *)
Lemma pin_input_run (w : World) (input : ndarray float) (epsilon : float)
    (row : ndarray Z) :
  compared_with (net w) row → Np.shape row = Np.shape input →
  outputVarsType (net w) ≠ PyOther → length (outputVars (net w)) = 1%nat →
  length (Np.data row) = length (Np.data input) →
  pin_input input epsilon w
  = (let? orow := output_row (net w) in
     let? s := Np.getitem orow 0 in Ok (orow, s),
     mkWorld
               (with_bounds (net w)
                  (input_dict (Np.data row)
                     ((λ v, PrimFloat.sub v epsilon) <$> Np.data input)
                   ∪ lowerBounds (net w))
                  (input_dict (Np.data row)
                     ((λ v, PrimFloat.add v epsilon) <$> Np.data input)
                   ∪ upperBounds (net w)))
               (solverLog w)).
Proof.
  intros Hrow Hsh Hty Hout Hlen. unfold pin_input, output_row.
  destruct (compared_input_vars_run w) as (r & Hrun & Hiff & _).
  apply Hiff in Hrow. subst r. erewrite bindM_ok by exact Hrun.
  rewrite bool_decide_eq_false_2 by (intros H; by apply H).
  unfold bindM at 1. unfold pure at 1.
  unfold bindM at 1. rewrite check_output_groups_run.
  assert (Hcheck : match outputVarsType (net w) with
                   | PyOther => Raise RuntimeError
                   | _ => if bool_decide (length (outputVars (net w)) ≠ 1%nat)
                          then Raise NotImplementedError else Ok tt
                   end = Ok tt).
  { destruct (outputVarsType (net w)); try done;
      by rewrite bool_decide_eq_false_2 by (intros H; by apply H). }
  rewrite Hcheck. clear Hcheck.
  unfold bindM at 1. unfold Np.flatten.
  pose proof (pin_loop_run epsilon (Np.data row) [] [] (Np.data input) w eq_refl Hlen)
    as Hloop.
  cbn [app length] in Hloop. rewrite Hloop. clear Hloop.
  rewrite !zip_fmap_bounds.
  unfold bindM, get_self, lift, pure. cbn [net solverLog].
  destruct (index _ 0) as [out0|e]; [|done]. cbn [rbind].
  destruct (Np.getitem out0 0) as [orow|e]; [|done]. cbn [rbind].
  by destruct (Np.getitem orow 0) as [s|e].
Qed.

(** X22: on a model that passes the checks of the search (one output
    group, held in a list or an array), let [row] be the array the input is
    compared with: the first row of the single input group of a list-held
    [inputVars], the first sub-array of an array-held one.  When [row] has
    the shape of the input and distinct variables, [evaluateLocalRobustness]
    leaves the variable at flattened position [i] of [row] with the lower
    bound [input[i] - epsilon] and the upper bound [input[i] + epsilon],
    replacing bounds it had, and leaves the bounds of every variable outside
    [row] as they were.  This holds whatever the search does afterwards, also
    when it raises. *)
Theorem evaluateLocalRobustness_bounds {ext : Collaborators} (w : World)
    (input : ndarray float) (epsilon : float) (originalClass : Z)
    (verbose : bool) (options : option Options) (targetClass : option Z)
    (row : ndarray Z) :
  compared_with (net w) row → Np.shape row = Np.shape input →
  outputVarsType (net w) ≠ PyOther → length (outputVars (net w)) = 1%nat →
  length (Np.data row) = length (Np.data input) → NoDup (Np.data row) →
  let w' := (evaluateLocalRobustness input epsilon originalClass verbose
               options targetClass w).2 in
  (∀ i x v, Np.data row !! i = Some x → Np.data input !! i = Some v →
     lowerBounds (net w') !! x = Some (PrimFloat.sub v epsilon)
     ∧ upperBounds (net w') !! x = Some (PrimFloat.add v epsilon))
  ∧ (∀ x, x ∉ Np.data row →
       lowerBounds (net w') !! x = lowerBounds (net w) !! x
       ∧ upperBounds (net w') !! x = upperBounds (net w) !! x).
Proof.
  intros Hrow Hsh Hty Hout Hlen Hnd. cbv zeta.
  pose proof (pin_input_run w input epsilon row Hrow Hsh Hty Hout Hlen)
    as Hpin.
  set (lo := input_dict (Np.data row) ((λ v, PrimFloat.sub v epsilon) <$> Np.data input)
             ∪ lowerBounds (net w)) in *.
  set (up := input_dict (Np.data row) ((λ v, PrimFloat.add v epsilon) <$> Np.data input)
             ∪ upperBounds (net w)) in *.
  assert (Hw' : ∃ ms,
    net (evaluateLocalRobustness input epsilon originalClass verbose options
           targetClass w).2 = with_max (with_bounds (net w) lo up) ms).
  { destruct (evaluateLocalRobustness input epsilon originalClass verbose
                options targetClass w) as [r w'] eqn:Hrun. simpl.
    unfold evaluateLocalRobustness in Hrun.
    apply bindM_inv in Hrun as [(located & w1 & Hpin' & Hrun)|(e & Hpin' & _)].
    - rewrite Hpin in Hpin'. injection Hpin' as _ <-.
      apply search_tail_appended in Hrun as [[ms Hms] _]. by exists ms.
    - rewrite Hpin in Hpin'. injection Hpin' as _ <-.
      exists []. by rewrite with_max_nil. }
  destruct Hw' as [ms ->]. cbn [with_max with_bounds set_maxList
    set_upperBounds set_lowerBounds lowerBounds upperBounds]. subst lo up.
  split.
  - intros i x v Hx Hv. split.
    + apply lookup_union_Some_l.
      eapply input_dict_lookup; [done|done|]. by rewrite list_lookup_fmap, Hv.
    + apply lookup_union_Some_l.
      eapply input_dict_lookup; [done|done|]. by rewrite list_lookup_fmap, Hv.
  - intros x Hx. split.
    + apply lookup_union_r, input_dict_absent.
      intros H. apply Hx. apply elem_of_take in H as (i & Hi & _).
      by eapply list_elem_of_lookup_2.
    + apply lookup_union_r, input_dict_absent.
      intros H. apply Hx. apply elem_of_take in H as (i & Hi & _).
      by eapply list_elem_of_lookup_2.
Qed.

(** The input [0.5, 0.5] with epsilon 0.25: variable 1 ends with the bounds
    0.5 - 0.25 and 0.5 + 0.25. *)
Lemma evaluateLocalRobustness_bounds_witness :
  let w' := (@evaluateLocalRobustness Example.unsat_solver Example.small_input
               0.25%float 0 false None None Example.small_world).2 in
  lowerBounds (net w') !! 1%Z = Some (PrimFloat.sub 0.5 0.25)
  ∧ upperBounds (net w') !! 1%Z = Some (PrimFloat.add 0.5 0.25).
Proof.
  assert (Hnd : NoDup [0%Z; 1%Z])
    by (apply (bool_decide_unpack _); vm_compute; exact I).
  assert (Hrow : compared_with (net Example.small_world)
                   (NdArray [2]%nat [0; 1]%Z)).
  { left. split; [reflexivity|]. eexists. split; reflexivity. }
  assert (Hty : outputVarsType (net Example.small_world) ≠ PyOther)
    by discriminate.
  pose proof (@evaluateLocalRobustness_bounds Example.unsat_solver
                Example.small_world Example.small_input 0.25%float 0 false
                None None (NdArray [2]%nat [0; 1]%Z)
                Hrow eq_refl Hty eq_refl eq_refl Hnd) as [Hpin _].
  exact (Hpin 1%nat 1%Z 0.5%float eq_refl eq_refl).
Defined.

(** ** The search without candidates *)

Lemma untargeted_loop_no_candidates {ext : Collaborators} (startArr : ndarray Z)
    (originalClass : Z) (options : Options) (idxs : list nat)
    (last0 : option (gmap Z float * Statistics)) (w : World) :
  candidates originalClass idxs = [] →
  untargeted_loop startArr originalClass options idxs last0 w
  = (Ok (last0, None), w).
Proof.
  unfold candidates. induction idxs as [|i idxs IH]; [done|].
  rewrite filter_cons. case_decide as Hi; [done|]. intros Hrest.
  cbn [untargeted_loop]. rewrite bool_decide_eq_false_2 by (intros H; by apply H). by apply IH.
Qed.

(** X23: without a target class, on a model that passes the checks on its
    input and output groups and whose output row has no class other than
    [originalClass], [evaluateLocalRobustness] raises UnboundLocalError with
    either setting of [verbose]: no query is submitted and no Max record is
    added, while the bounds around the input stay written.  [irow] is the
    array the input is compared with: the first row of the single input
    group of a list-held [inputVars], the first sub-array of an array-held
    one. *)
Theorem untargeted_search_without_candidates {ext : Collaborators} (w : World)
    (input : ndarray float) (epsilon : float) (originalClass : Z)
    (verbose : bool) (options : option Options)
    (irow orow s : ndarray Z) (n : nat) :
  compared_with (net w) irow →
  Np.shape irow = Np.shape input → length (Np.data irow) = length (Np.data input) →
  outputVarsType (net w) ≠ PyOther → length (outputVars (net w)) = 1%nat →
  output_row (net w) = Ok orow → Np.getitem orow 0 = Ok s → Np.len orow = Ok n →
  candidates originalClass (seq 0 n) = [] →
  let run := evaluateLocalRobustness input epsilon originalClass verbose
               options None w in
  run.1 = Raise UnboundLocalError
  ∧ solverLog run.2 = solverLog w
  ∧ maxList (net run.2) = maxList (net w)
  ∧ lowerBounds (net run.2)
    = input_dict (Np.data irow) ((λ v, PrimFloat.sub v epsilon) <$> Np.data input)
      ∪ lowerBounds (net w)
  ∧ upperBounds (net run.2)
    = input_dict (Np.data irow) ((λ v, PrimFloat.add v epsilon) <$> Np.data input)
      ∪ upperBounds (net w).
Proof.
  intros Hrow Hsh Hlen Hty Hout Horow Hs Hn Hc. cbv zeta.
  unfold evaluateLocalRobustness.
  pose proof (pin_input_run w input epsilon irow Hrow Hsh Hty Hout Hlen)
    as Hpin.
  rewrite Horow in Hpin. cbn [rbind] in Hpin. rewrite Hs in Hpin.
  cbn [rbind] in Hpin. erewrite bindM_ok by exact Hpin. cbn [fst snd].
  erewrite bindM_ok; last first.
  { rewrite bindM_lift, Hn. by apply untargeted_loop_no_candidates. }
  cbn [fst snd]. unfold report. by destruct verbose.
Qed.

(** A single output class, which is the original class. *)
Lemma untargeted_search_without_candidates_witness :
  candidates 0 (seq 0 1) = []
  ∧ (@evaluateLocalRobustness Example.sat_solver Cases.wide_input 0.25%float 0
       false None None Cases.one_class_world).1 = Raise UnboundLocalError.
Proof.
  assert (Hc : candidates 0 (seq 0 1) = []) by (vm_compute; reflexivity).
  assert (Hrow : compared_with (net Cases.one_class_world)
                   (NdArray [3]%nat [0; 1; 2]%Z)).
  { left. split; [reflexivity|]. eexists. split; reflexivity. }
  assert (Hty : outputVarsType (net Cases.one_class_world) ≠ PyOther)
    by discriminate.
  split; [exact Hc|].
  exact (proj1 (@untargeted_search_without_candidates Example.sat_solver
                  Cases.one_class_world Cases.wide_input 0.25%float 0 false
                  None (NdArray [3]%nat [0; 1; 2]%Z) (NdArray [1]%nat [3]%Z)
                  (NdArray []%nat [3]%Z) 1%nat
                  Hrow eq_refl eq_refl Hty eq_refl eq_refl eq_refl
                  eq_refl Hc)).
Defined.

(** ** The search for a target class *)



(** ** calculateBounds *)

Lemma print_bound_items (bounds : gmap Z (float * float)) (arr : ndarray Z)
    (seen rest : list Z) :
  Np.data arr = seen ++ rest →
  for_each (λ i, let? v := Np.item arr i in
                 match bounds !! v with
                 | Some _ => Ok tt
                 | None => Raise KeyError
                 end)
           (seq (length seen) (length rest))
  = if decide (Forall (λ v, is_Some (bounds !! v)) rest)
    then Ok tt else Raise KeyError.
Proof.
  revert seen. induction rest as [|v rest IH]; intros seen Hdata.
  - done.
  - cbn [length seq for_each]. unfold Np.item at 1.
    rewrite Hdata, list_lookup_middle by done. cbn [rbind].
    destruct (bounds !! v) as [x|] eqn:Hv; cbn [rbind].
    + replace (S (length seen)) with (length (seen ++ [v]))
        by (rewrite length_app; simpl; lia).
      rewrite (IH (seen ++ [v])) by (by rewrite <- app_assoc).
      repeat case_decide; try done.
      * match goal with H : ¬ Forall _ (v :: rest) |- _ => destruct H end.
        constructor; [by rewrite Hv|done].
      * match goal with H : Forall _ (v :: rest) |- _ =>
          apply Forall_cons in H as [_ ?] end. contradiction.
    + clear IH. case_decide as Hvr; [|done].
      apply Forall_cons in Hvr as [Hv' _]. rewrite Hv in Hv'. by destruct Hv'.
Qed.

Lemma print_bounds_spec (bounds : gmap Z (float * float))
    (arrs : list (ndarray Z)) :
  Forall well_formed arrs →
  print_bounds bounds arrs
  = if decide (Forall (λ v, is_Some (bounds !! v)) (flat_vars arrs))
    then Ok tt else Raise KeyError.
Proof.
  unfold print_bounds, flat_vars.
  induction 1 as [|arr arrs Hwf _ IH]; [done|].
  cbn [for_each]. csimpl.
  pose proof (print_bound_items bounds arr [] (Np.data arr) eq_refl) as Hitems.
  cbn [length] in Hitems. unfold well_formed in Hwf. rewrite Hwf in Hitems.
  rewrite Hitems, IH. unfold Np.flatten.
  repeat case_decide; try done.
  all: exfalso; rewrite Forall_app in *; tauto.
Qed.

(** X25: [calculateBounds] never changes the model.  When compilation fails
    it raises the error of compilation, an AssertionError or a TypeError,
    without consulting the engine.  Otherwise the
    engine receives one query, the compiled one, and on a model with well
    formed output arrays the call returns the engine's answer, except that
    with [verbose] on and an empty exit code it raises KeyError when the
    returned bounds lack an output variable. *)
Theorem calculateBounds_spec {ext : Collaborators} {engine : BoundsEngine}
    (filename : string) (verbose : bool) (options : option Options)
    (w : World) :
  Forall well_formed (outputVars (net w)) →
  let run := calculateBounds filename verbose options w in
  net run.2 = net w
  ∧ match Compile.query (net w) with
    | Raise e => run = (Raise e, w) ∧ compile_error e
    | Ok q =>
        let r := MarabouCore_calculateBounds q (default Options_default options)
                   filename in
        solverLog run.2 = solverLog w ++ [q]
        ∧ run.1
          = if decide (verbose = true ∧ r.1.1 = ""%string
                       ∧ ¬ Forall (λ v, is_Some (r.1.2 !! v))
                             (flat_vars (outputVars (net w))))
            then Raise KeyError else Ok r
    end.
Proof.
  intros Hout. cbv zeta. unfold calculateBounds, bindM.
  rewrite getMarabouQuery_run.
  destruct (Compile.query (net w)) as [q|e] eqn:Hq.
  2: { split; [done|]. split; [done|]. eapply query_raises, Hq. }
  unfold log_query, get_self, lift, pure. simpl.
  destruct verbose.
  - destruct (bool_decide (_ = ""%string)) eqn:Hexit.
    + apply bool_decide_eq_true in Hexit. simpl.
      rewrite print_bounds_spec by done.
      repeat case_decide; try done; exfalso; tauto.
    + apply bool_decide_eq_false in Hexit. simpl.
      split; [done|]. split; [done|]. case_decide; [exfalso; tauto|done].
  - simpl. split; [done|]. split; [done|].
    first [done|case_decide as H; [by destruct H|done]].
Qed.

(** An engine that reports bounds for both output variables. *)
Lemma calculateBounds_spec_witness :
  Forall (well_formed (A:=Z)) (outputVars (net Example.small_world))
  ∧ (@calculateBounds Example.unsat_solver Cases.unit_bounds "" true None
       Example.small_world).1
    = Ok (@MarabouCore_calculateBounds Example.unsat_solver Cases.unit_bounds
            (Cases.compiled Example.small_network) tt "").
Proof.
  assert (Hwf : Forall (well_formed (A:=Z)) (outputVars (net Example.small_world)))
    by (repeat constructor).
  split; [exact Hwf|].
  pose proof (@calculateBounds_spec Example.unsat_solver Cases.unit_bounds
                "" true None Example.small_world Hwf) as H.
  assert (Hq : Compile.query (net Example.small_world)
               = Ok (Cases.compiled Example.small_network))
    by (vm_compute; reflexivity).
  cbv zeta in H. destruct H as [_ H]. rewrite Hq in H. destruct H as [_ ->].
  vm_compute. reflexivity.
Defined.
